(** * flair-fax: the chunked, resumable user-flair scan

    A shallow embedding of the scan engine of UserFlairs.ts
    (buildFlairGroupsPaginatedChunk, continueScan, clearScan,
    resetFlairScanIfAppUpdated, the safe key/value wrappers) and of
    getAppSettings from main.ts, with the properties the specification
    states about them; then of the one-shot scan getFlairGroups, the
    handler of flairForm and mergeFlairGroups, with further properties
    of the code.

    Conventions of the embedding.
    - A JavaScript number is an integer-valued double or NaN ([JNumber]);
      counters and instants are [Z].
    - A string is a sequence of 8-bit code units; [trim] strips the
      white space of that range.
    - [Record<string, string[]>] is a finite map from own property names
      to array references; arrays live in a heap, so that two objects can
      share one array.  A name the object does not own may be one it
      inherits from Object.prototype ([INHERITED_NAMES]): the value found
      there is truthy and is no array.
    - The platform (clock, key/value store failures, flair listing,
      settings) is an oracle [Env]; state is threaded explicitly.
    - The paging loop carries fuel; running out of it is the outcome
      [OutOfFuel], distinct from a JavaScript exception.
    - Toasts and console.log lines are not part of the state, only the
      console.error lines of the safe wrappers are; getCurrentSubreddit
      and settings.get are taken to succeed (the handler of flairForm
      takes the outcome of its lookup as an argument). *)

From stdpp Require Import base option list gmap strings pretty.
From Stdlib Require Import ZArith Lia Ascii.

Local Open Scope Z_scope.
Local Open Scope string_scope.
Local Open Scope list_scope.

(** ** JavaScript values *)

Inductive JNumber : Type :=
  | NaN
  | Num (z : Z).

(** What [context.settings.get] may resolve to. *)
Inductive SettingValue : Type :=
  | SUndefined
  | SNull
  | SBool (b : bool)
  | SNum (n : JNumber)
  | SStr (s : string).

(** ** Strings: trim, ToString, parseInt *)

Module JSString.

(** White space and line terminators below U+0100. *)
Definition isWhite (c : Ascii.ascii) : bool :=
  let n := Ascii.nat_of_ascii c in
  ((9 <=? n)%nat && (n <=? 13)%nat) || (n =? 32)%nat || (n =? 160)%nat.

Fixpoint trimStart (s : string) : string :=
  match s with
  | String c r => if isWhite c then trimStart r else s
  | EmptyString => EmptyString
  end.

Definition trimEnd (s : string) : string :=
  String.rev (trimStart (String.rev s)).

(** String.prototype.trim *)
Definition trim (s : string) : string := trimEnd (trimStart s).

Definition digitValue (c : Ascii.ascii) : option Z :=
  let n := Ascii.nat_of_ascii c in
  if ((48 <=? n)%nat && (n <=? 57)%nat)%bool then Some (Z.of_nat n - 48) else None.

(** The value of the longest prefix of decimal digits, if there is one;
    [acc] is the value of the digits read so far. *)
Fixpoint readDigits (acc : option Z) (s : string) : option Z :=
  match s with
  | String c r =>
      match digitValue c with
      | Some d => readDigits (Some (10 * default 0 acc + d)) r
      | None => acc
      end
  | EmptyString => acc
  end.

(** parseInt(s, 10): leading white space, an optional sign, digits. *)
Definition parseInt (s : string) : JNumber :=
  let s1 := trimStart s in
  let '(sign, s2) :=
    match s1 with
    | String "-"%char r => (-1, r)
    | String "+"%char r => (1, r)
    | _ => (1, s1)
    end in
  match readDigits None s2 with
  | Some v => Num (sign * v)
  | None => NaN
  end.

(** ToString, as applied by parseInt to a non-string argument. *)
Definition toString (v : SettingValue) : string :=
  match v with
  | SUndefined => "undefined"
  | SNull => "null"
  | SBool true => "true"
  | SBool false => "false"
  | SNum NaN => "NaN"
  | SNum (Num z) => pretty z
  | SStr s => s
  end.

End JSString.

(** ** main.ts: application settings *)

Record AppSettings : Type := { devvitExecutionTimeoutSeconds : JNumber }.

(** [parseInt((await context.settings.get(..)) as string ?? '30', 10)] *)
Definition getAppSettings (stored : SettingValue) : AppSettings :=
  let raw :=
    match stored with
    | SUndefined | SNull => SStr "30"
    | v => v
    end in
  {| devvitExecutionTimeoutSeconds := JSString.parseInt (JSString.toString raw) |}.

Definition DEFAULT_DEVVIT_TIMEOUT_SECONDS : JNumber := Num 30.

(** The selection at the head of buildFlairGroupsPaginatedChunk.
    getAppSettings is a function and its result an object, and
    [typeof x === "number"] holds of every [JNumber], NaN included, so
    the fallback branch is never taken. *)
Definition typeofIsNumber (n : JNumber) : bool := true.

Definition timeoutSeconds (stored : SettingValue) : JNumber :=
  let settings := getAppSettings stored in
  if typeofIsNumber (devvitExecutionTimeoutSeconds settings)
  then devvitExecutionTimeoutSeconds settings
  else DEFAULT_DEVVIT_TIMEOUT_SECONDS.

(** ** The flair listing (Page Source) *)

(** One entry of [resp.users]; a field is [None] when null or undefined. *)
Record UserFlair : Type := { user : option string; flairText : option string }.

(** What [getUserFlair] resolves to: nothing usable, or an object whose
    [users] is an array ([Some]) or anything else ([None]). *)
Inductive Response : Type :=
  | RespNullish
  | RespObject (users : option (list UserFlair)) (next : option string).

Inductive FetchOutcome : Type :=
  | FetchThrows (err : string)
  | FetchReturns (resp : Response).

(** ** Objects, arrays and JSON *)

(** The heap holds the [string[]] arrays; a reference is an index. *)
Abbreviation Heap := (list (list string)).
(** [Record<string, string[]>] in memory: label to array reference. *)
Abbreviation Obj := (gmap string nat).
(** The same mapping as a JSON value: label to identifier sequence. *)
Abbreviation Groups := (gmap string (list string)).

(** The groups an object denotes in a heap (what JSON.stringify sees). *)
Definition snapshot (h : Heap) (o : Obj) : Groups := omap (λ l, h !! l) o.

(** The property names a plain object inherits from Object.prototype.
    Under each of them [obj[name]] finds a function, under "__proto__"
    the prototype itself: a truthy value without a push method. *)
Definition INHERITED_NAMES : list string :=
  ["constructor"; "hasOwnProperty"; "isPrototypeOf"; "propertyIsEnumerable";
   "toLocaleString"; "toString"; "valueOf";
   "__defineGetter__"; "__defineSetter__"; "__lookupGetter__"; "__lookupSetter__";
   "__proto__"].
Definition inherited (name : string) : bool := bool_decide (name ∈ INHERITED_NAMES).

(** [!!obj[name]] on an object whose own values are arrays: the name is
    its own, or inherited. *)
Definition truthyProperty {A} (o : gmap string A) (name : string) : bool :=
  bool_decide (is_Some (o !! name)) || inherited name.

(** interface FlairScanResult, over the representation of flairGroups. *)
Record FlairScanResult (G : Type) : Type := {
  flairGroups : G;
  after : option string;
  timestamp : Z;
  completed : bool;
  scannedUsers : Z;
  lastPageNumber : option Z;
  toastShown : option bool;
}.
Arguments flairGroups {G} _.
Arguments after {G} _.
Arguments timestamp {G} _.
Arguments completed {G} _.
Arguments scannedUsers {G} _.
Arguments lastPageNumber {G} _.
Arguments toastShown {G} _.

Definition toJSON (h : Heap) (r : FlairScanResult Obj) : FlairScanResult Groups :=
  {| flairGroups := snapshot h (flairGroups r);
     after := after r;
     timestamp := timestamp r;
     completed := completed r;
     scannedUsers := scannedUsers r;
     lastPageNumber := lastPageNumber r;
     toastShown := toastShown r |}.

(** Values held by the key/value store. *)
Inductive JSONValue : Type :=
  | JNull
  | JBool (b : bool)
  | JNum (z : Z)
  | JStr (s : string)
  | JScan (r : FlairScanResult Groups).

(** In-memory values handed to safeKVWrite. *)
Inductive JSValue : Type :=
  | VBool (b : bool)
  | VNum (z : Z)
  | VStr (s : string)
  | VScan (r : FlairScanResult Obj).

(** JSON.parse(JSON.stringify(value)): a deep copy, detached from the heap. *)
Definition jsonClone (h : Heap) (v : JSValue) : JSONValue :=
  match v with
  | VBool b => JBool b
  | VNum z => JNum z
  | VStr s => JStr s
  | VScan r => JScan (toJSON h r)
  end.

(** Truthiness, as tested by [!!x], [!x] and [x ? .. : ..]. *)
Definition truthy (v : option JSONValue) : bool :=
  match v with
  | None | Some JNull | Some (JBool false) | Some (JNum 0) | Some (JStr "") => false
  | Some _ => true
  end.

Definition truthyCursor (c : option string) : bool :=
  match c with
  | Some (String _ _) => true
  | _ => false
  end.

(** How a merge loop ends: it ran to its end, or a push threw; either
    way with its variables as they then are. *)
Inductive Merge (A : Type) : Type :=
  | Merged (acc : A)
  | PushThrew (acc : A).
Arguments Merged {A} _.
Arguments PushThrew {A} _.

(** ** Platform and state *)

Inductive JSError : Type :=
  | FetchError (msg : string)     (* thrown by getUserFlair; [msg] is String(err) *)
  | InvalidResponse               (* new Error("Invalid response from getUserFlair") *)
  | KVError (key : string)        (* thrown by a kvStore operation *)
  | NotAFunction.                 (* TypeError: [x[name].push] is not a function *)

Definition errorString (e : JSError) : string :=
  match e with
  | FetchError msg => msg
  | InvalidResponse => "Error: Invalid response from getUserFlair"
  | KVError key => "Error: kvStore " +:+ key
  | NotAFunction => "TypeError: cumulativeFlairGroups[ftext].push is not a function"
  end.

(** The platform: the n-th reading of Date.now(), whether the n-th
    key/value operation throws, what the n-th call of getUserFlair
    yields for the cursor sent, and the stored timeout setting. *)
Record Env : Type := {
  clock : nat → Z;
  kvFails : nat → bool;
  getUserFlair : nat → option string → FetchOutcome;
  settingsGet : SettingValue;
}.

Record World : Type := {
  kv : gmap string JSONValue;
  heap : Heap;
  ticks : nat;                                        (* Date.now() readings taken *)
  kvOps : nat;                                        (* kvStore operations issued *)
  fetchLog : list (option string * FetchOutcome);     (* getUserFlair calls so far *)
  console : list string;                              (* console.error of the wrappers *)
}.

Definition withKv (f : gmap string JSONValue → gmap string JSONValue) (w : World) : World :=
  {| kv := f (kv w); heap := heap w; ticks := ticks w; kvOps := kvOps w;
     fetchLog := fetchLog w; console := console w |}.
Definition withHeap (h : Heap) (w : World) : World :=
  {| kv := kv w; heap := h; ticks := ticks w; kvOps := kvOps w;
     fetchLog := fetchLog w; console := console w |}.
Definition tick (w : World) : World :=
  {| kv := kv w; heap := heap w; ticks := S (ticks w); kvOps := kvOps w;
     fetchLog := fetchLog w; console := console w |}.
Definition countKvOp (w : World) : World :=
  {| kv := kv w; heap := heap w; ticks := ticks w; kvOps := S (kvOps w);
     fetchLog := fetchLog w; console := console w |}.
Definition logFetch (c : option string) (o : FetchOutcome) (w : World) : World :=
  {| kv := kv w; heap := heap w; ticks := ticks w; kvOps := kvOps w;
     fetchLog := fetchLog w ++ [(c, o)]; console := console w |}.
Definition logError (line : string) (w : World) : World :=
  {| kv := kv w; heap := heap w; ticks := ticks w; kvOps := kvOps w;
     fetchLog := fetchLog w; console := console w ++ [line] |}.

(** ** Computations: state, exceptions, fuel *)

Inductive Outcome (A : Type) : Type :=
  | Returned (a : A)
  | Threw (e : JSError)
  | OutOfFuel.
Arguments Returned {A} _.
Arguments Threw {A} _.
Arguments OutOfFuel {A}.

Definition M (A : Type) : Type := World → Outcome A * World.

Definition ret {A} (a : A) : M A := λ w, (Returned a, w).
Definition throw {A} (e : JSError) : M A := λ w, (Threw e, w).
Definition bind {A B} (m : M A) (k : A → M B) : M B :=
  λ w, match m w with
       | (Returned a, w1) => k a w1
       | (Threw e, w1) => (Threw e, w1)
       | (OutOfFuel, w1) => (OutOfFuel, w1)
       end.
(** try { m } catch (err) { handler err } *)
Definition tryCatch {A} (m : M A) (handler : JSError → M A) : M A :=
  λ w, match m w with
       | (Threw e, w1) => handler e w1
       | r => r
       end.

Declare Scope js_scope.
Delimit Scope js_scope with js.
Notation "'let*' x ':=' m 'in' k" := (bind m (λ x, k))
  (at level 10, x name, m at level 100, k at level 200) : js_scope.
Notation "m ;;; k" := (bind m (λ _, k))
  (at level 100, right associativity) : js_scope.
Local Open Scope js_scope.

(** ** Part 1-2 of UserFlairs.ts: timers and safe KV wrappers *)

Definition TIMEOUT_FRACTION_NUM : Z := 9.
Definition TIMEOUT_FRACTION_DEN : Z := 10.

Section Engine.

Context (env : Env).

(** Date.now() *)
Definition dateNow : M Z := λ w, (Returned (clock env (ticks w)), tick w).

Definition startTimer : M Z := dateNow.

(** [Date.now() - startTime < timeoutSeconds * 1000 * fraction], the
    fraction 0.9 taken as the rational 9/10; a comparison with NaN is
    false. *)
Definition isTimeRemaining (startTime : Z) (timeout : JNumber) : M bool :=
  let* now := dateNow in
  ret match timeout with
      | NaN => false
      | Num t => bool_decide
                   ((now - startTime) * TIMEOUT_FRACTION_DEN
                    < t * 1000 * TIMEOUT_FRACTION_NUM)
      end.

(** A kvStore operation: it throws when the platform says so. *)
Definition kvOperation {A} (key : string) (run : World → A * World) : M A :=
  λ w, let w1 := countKvOp w in
       if kvFails env (kvOps w) then (Threw (KVError key), w1)
       else let '(a, w2) := run w1 in (Returned a, w2).

Definition kvGet (key : string) : M (option JSONValue) :=
  kvOperation key (λ w, (kv w !! key, w)).
Definition kvPut (key : string) (v : JSONValue) : M unit :=
  kvOperation key (λ w, (tt, withKv (insert key v) w)).
Definition kvDelete (key : string) : M unit :=
  kvOperation key (λ w, (tt, withKv (delete key) w)).

Definition consoleError (line : string) : M unit := λ w, (Returned tt, logError line w).

Definition safeKVWrite (key : string) (value : JSValue) : M unit :=
  tryCatch
    (λ w, kvPut key (jsonClone (heap w) value) w)
    (λ _, consoleError ("safeKVWrite failed key=" +:+ key)).

Definition safeKVDelete (key : string) : M unit :=
  tryCatch
    (kvDelete key)
    (λ _, consoleError ("safeKVDelete failed key=" +:+ key)).

(** ** Part 3: the chunk runner *)

(** The body of [for (const u of resp.users)], on the local object, the
    heap and the running count; [None] when the push throws.  A new
    array is made only when [cumulativeFlairGroups[ftext]] is falsy, so
    under a name that is inherited and not the object's own the push is
    called on the inherited value, which has none: a TypeError, with
    the variables unchanged. *)
Definition mergeUser (acc : Obj * Heap * Z) (u : UserFlair) : option (Obj * Heap * Z) :=
  let '(o, h, n) := acc in
  let uname := default "Unknown" (user u) in
  let ftext := JSString.trim (default "" (flairText u)) in
  if bool_decide (ftext = "") then Some acc
  else
    let '(o1, h1) :=
      if truthyProperty o ftext then (o, h)
      else (<[ftext := List.length h]> o, h ++ [[]]) in
    match o1 !! ftext with
    | Some l => Some (o1, alter (λ ids, ids ++ [uname]) l h1, n + 1)
    | None => None
    end.

(** The for loop over one page. *)
Fixpoint mergePage (acc : Obj * Heap * Z) (users : list UserFlair)
  : Merge (Obj * Heap * Z) :=
  match users with
  | [] => Merged acc
  | u :: rest =>
      match mergeUser acc u with
      | Some acc1 => mergePage acc1 rest
      | None => PushThrew acc
      end
  end.

(** The variables the do-while loop updates. *)
Record LoopState : Type := {
  currentAfter : option string;
  pageNumber : Z;
  cumulativeFlairGroups : Obj;
  cumulativeUsers : Z;
}.

(** How one pass through the loop body ends. *)
Inductive Step : Type :=
  | Continue (st : LoopState)
  | Break (st : LoopState) (completed : bool).

Definition markFailed (msg : string) : M unit :=
  safeKVWrite "flairScanFailed" (VBool true) ;;;
  safeKVWrite "flairScanFailedMessage" (VStr msg) ;;;
  safeKVWrite "flairScanInProgress" (VBool false).

(** [subreddit.getUserFlair({ after, limit: 1000 })] *)
Definition callGetUserFlair (cursor : option string) : M Response :=
  λ w, let o := getUserFlair env (List.length (fetchLog w)) cursor in
       let w1 := logFetch cursor o w in
       match o with
       | FetchThrows err => (Threw (FetchError err), w1)
       | FetchReturns resp => (Returned resp, w1)
       end.

Definition INVALID_RESPONSE : string := "Invalid response from getUserFlair".

Definition chunkIteration (chunkStart : Z) (timeout : JNumber) (st : LoopState) : M Step :=
  let pageNumber1 := pageNumber st + 1 in
  let* remaining := isTimeRemaining chunkStart timeout in
  if negb remaining then
    (* the log line reads the clock once more *)
    let* _now := dateNow in
    ret (Break {| currentAfter := currentAfter st; pageNumber := pageNumber1;
                  cumulativeFlairGroups := cumulativeFlairGroups st;
                  cumulativeUsers := cumulativeUsers st |} false)
  else
    let* resp :=
      tryCatch (callGetUserFlair (currentAfter st))
               (λ err, markFailed (errorString err) ;;; throw err) in
    match resp with
    | RespObject (Some users) next =>
        (* the for loop is outside the try block: its TypeError is not
           recorded as a failure *)
        let* merged :=
          (λ w, match mergePage (cumulativeFlairGroups st, heap w,
                                 cumulativeUsers st) users with
                | Merged (o, h, n) => (Returned (o, n), withHeap h w)
                | PushThrew (_, h, _) => (Threw NotAFunction, withHeap h w)
                end) in
        let st1 := {| currentAfter := next; pageNumber := pageNumber1;
                      cumulativeFlairGroups := fst merged;
                      cumulativeUsers := snd merged |} in
        let* beat := dateNow in
        safeKVWrite "flairScanHeartbeat" (VNum beat) ;;;
        (* sleep(SLEEP_BETWEEN_PAGES_MS): time passes, nothing else *)
        if truthyCursor next then ret (Continue st1) else ret (Break st1 true)
    | _ =>
        markFailed INVALID_RESPONSE ;;; throw InvalidResponse
    end.

Fixpoint chunkLoop (fuel : nat) (chunkStart : Z) (timeout : JNumber) (st : LoopState)
  : M (LoopState * bool) :=
  match fuel with
  | O => λ w, (OutOfFuel, w)
  | S fuel' =>
      let* step := chunkIteration chunkStart timeout st in
      match step with
      | Continue st1 => chunkLoop fuel' chunkStart timeout st1
      | Break st1 done => ret (st1, done)
      end
  end.

Definition persist (result : FlairScanResult Obj) : M unit :=
  if completed result then
    safeKVWrite "flairScanResult" (VScan result) ;;;
    let* now := dateNow in
    safeKVWrite "flairScanCompletedAt" (VNum now) ;;;
    safeKVWrite "flairScanInProgress" (VBool false) ;;;
    safeKVWrite "flairScanFailed" (VBool false) ;;;
    safeKVDelete "flairScanPartial"
  else
    safeKVWrite "flairScanPartial" (VScan result) ;;;
    safeKVWrite "flairScanInProgress" (VBool true).

Definition buildFlairGroupsPaginatedChunk (fuel : nat)
    (after0 : option string) (cumulativeFlairGroupsStart : Obj)
    (scannedUsersStart : Z) (startPageNumber : Z)
  : M (FlairScanResult Obj) :=
  (* { ...cumulativeFlairGroupsStart }: a new object, the same arrays *)
  let st0 := {| currentAfter := after0; pageNumber := startPageNumber;
                cumulativeFlairGroups := cumulativeFlairGroupsStart;
                cumulativeUsers := scannedUsersStart |} in
  let timeout := timeoutSeconds (settingsGet env) in
  let* chunkStart := startTimer in
  let* exit := chunkLoop fuel chunkStart timeout st0 in
  let '(st, done) := exit in
  let* startTimestampRaw := kvGet "flairScanStartedAt" in
  let* stamp :=
    match startTimestampRaw with
    | Some (JNum z) => ret z
    | _ => dateNow
    end in
  let result :=
    {| flairGroups := cumulativeFlairGroups st;
       after := currentAfter st;
       timestamp := stamp;
       completed := done;
       scannedUsers := cumulativeUsers st;
       lastPageNumber := Some (pageNumber st);
       toastShown := None |} in
  persist result ;;;
  ret result.

(** ** Part 4: continueScan *)

Definition continueScan (fuel : nat) (partial : FlairScanResult Obj)
  : M (FlairScanResult Obj) :=
  buildFlairGroupsPaginatedChunk fuel
    (after partial) (flairGroups partial) (scannedUsers partial)
    (default 0 (lastPageNumber partial)).

(** ** Part 5: clearScan and the version guard *)

(** safeKVDelete never throws, so the enclosing try block reaches its end;
    [clearReason ?? showToast(..)] shows nothing for a string reason. *)
Definition clearScan : M unit :=
  tryCatch
    (safeKVDelete "flairScanPartial" ;;;
     safeKVDelete "flairScanResult" ;;;
     safeKVDelete "flairScanInProgress" ;;;
     safeKVDelete "flairScanFailed" ;;;
     safeKVDelete "flairScanFailedMessage" ;;;
     safeKVDelete "flairScanStartedAt")
    (λ _, ret tt).

Definition resetFlairScanIfAppUpdated (currentVersion : string) : M unit :=
  tryCatch
    (let* lastVersionRaw := kvGet "appVersion" in
     let lastVersion :=
       match lastVersionRaw with
       | Some (JStr s) => Some s
       | _ => None
       end in
     if bool_decide (lastVersion = Some currentVersion) then ret tt
     else clearScan ;;; safeKVWrite "appVersion" (VStr currentVersion))
    (λ _, ret tt).

End Engine.

(** ** Vocabulary of the specification *)

(** States of the world reached by a wrapped store operation. *)
Definition wrote (key : string) (v : JSValue) (w : World) : World :=
  withKv (insert key (jsonClone (heap w) v)) (countKvOp w).
Definition deleted (key : string) (w : World) : World :=
  withKv (delete key) (countKvOp w).
Definition contained (line : string) (w : World) : World :=
  logError line (countKvOp w).

(** Only the keys listed may differ between the two stores. *)
Definition kvFrame (keys : list string) (w w' : World) : Prop :=
  ∀ k, k ∉ keys → kv w' !! k = kv w !! k.

(** No store operation issued between [w] and [w'] threw. *)
Definition storeHealthy (env : Env) (w w' : World) : Prop :=
  ∀ i, (kvOps w ≤ i < kvOps w')%nat → kvFails env i = false.

(** A listing outcome the chunk runner treats as fatal, the error it
    raises for it and the message it records. *)
Definition fatal (o : FetchOutcome) : bool :=
  match o with
  | FetchReturns (RespObject (Some _) _) => false
  | _ => true
  end.
Definition failureOf (o : FetchOutcome) : JSError :=
  match o with
  | FetchThrows err => FetchError err
  | FetchReturns _ => InvalidResponse
  end.
Definition failureMessage (o : FetchOutcome) : string :=
  match o with
  | FetchThrows err => err
  | FetchReturns _ => INVALID_RESPONSE
  end.

(** Every checkpoint held by the store of [w'] was already held, under
    the same key, by the store of [w]. *)
Definition scansFrom (w w' : World) : Prop :=
  ∀ k s, kv w' !! k = Some (JScan s) → kv w !! k = Some (JScan s).

(** A page: the member list and the next-token. *)
Abbreviation Page := (list UserFlair * option string)%type.

(** The listing calls that return [pages] one after the other, each sent
    the cursor the previous page gave. *)
Fixpoint callsFor (cursor : option string) (pages : list Page)
  : list (option string * FetchOutcome) :=
  match pages with
  | [] => []
  | (users, next) :: rest =>
      (cursor, FetchReturns (RespObject (Some users) next)) :: callsFor next rest
  end.

(** The platform gave these answers to the calls numbered from [n] on. *)
Fixpoint answers (env : Env) (n : nat) (calls : list (option string * FetchOutcome)) : Prop :=
  match calls with
  | [] => True
  | (cursor, o) :: rest => getUserFlair env n cursor = o ∧ answers env (S n) rest
  end.

Fixpoint lastCursor (cursor : option string) (pages : list Page) : option string :=
  match pages with
  | [] => cursor
  | (_, next) :: rest => lastCursor next rest
  end.

(** The listing calls made after [w], as seen in [w']. *)
Definition callsSince (w w' : World) : list (option string * FetchOutcome) :=
  drop (List.length (fetchLog w)) (fetchLog w').

(** The member lists of the pages among some listing calls. *)
Definition pagesOf (calls : list (option string * FetchOutcome)) : list (list UserFlair) :=
  omap (λ call, match call.2 with
                | FetchReturns (RespObject (Some users) _) => Some users
                | _ => None
                end) calls.

(** A member the merge accepts: the label is non-empty once trimmed. *)
Definition labelOf (u : UserFlair) : string := JSString.trim (default "" (flairText u)).
Definition identifierOf (u : UserFlair) : string := default "Unknown" (user u).
Definition accepted (u : UserFlair) : bool := negb (bool_decide (labelOf u = "")).
(** A member with a non-empty label, read literally. *)
Definition hasLabel (u : UserFlair) : bool :=
  match flairText u with
  | Some (String _ _) => true
  | _ => false
  end.

(** A member carrying the label [f], with or without an identifier. *)
Definition labelled (f : string) (u : option string) : UserFlair :=
  {| user := u; flairText := Some f |}.

Definition countMembers (P : UserFlair → bool) (pages : list (list UserFlair)) : Z :=
  Z.of_nat (List.length (filter (λ u, P u = true) (concat pages))).

(** The merge of one member on groups as values. *)
Definition mergeUserG (g : Groups) (u : UserFlair) : Groups :=
  if accepted u
  then <[labelOf u := default [] (g !! labelOf u) ++ [identifierOf u]]> g
  else g.

Definition mergePageG (g : Groups) (users : list UserFlair) : Groups :=
  fold_left mergeUserG users g.

(** The merge of the pages one after the other. *)
Fixpoint mergePages (acc : Obj * Heap * Z) (pages : list (list UserFlair))
  : Merge (Obj * Heap * Z) :=
  match pages with
  | [] => Merged acc
  | users :: rest =>
      match mergePage acc users with
      | Merged acc1 => mergePages acc1 rest
      | PushThrew acc1 => PushThrew acc1
      end
  end.

(** The push of this member throws: its trimmed label is a name the
    object inherits and does not own. *)
Definition pushThrows (o : Obj) (u : UserFlair) : Prop :=
  accepted u = true ∧ inherited (labelOf u) = true ∧ o !! labelOf u = None.

(** Every reference of the object is allocated, and no two labels share
    an array. *)
Definition separate (h : Heap) (o : Obj) : Prop :=
  (∀ f l, o !! f = Some l → (l < List.length h)%nat) ∧
  (∀ f1 f2 l, o !! f1 = Some l → o !! f2 = Some l → f1 = f2).

Definition allocated (h : Heap) (o : Obj) : Prop :=
  ∀ f l, o !! f = Some l → (l < List.length h)%nat.

(** The number of identifiers over all groups. *)
Definition totalIdentifiers (g : Groups) : Z :=
  map_fold (λ _ ids acc, acc + Z.of_nat (List.length ids)) 0 g.

(** The checkpoint a generation starts from (startQuickScan's [initial]). *)
Definition initialPartial (now : Z) : FlairScanResult Obj :=
  {| flairGroups := ∅; after := None; timestamp := now; completed := false;
     scannedUsers := 0; lastPageNumber := Some 0; toastShown := Some false |}.

(** A run of chunks: each is continueScan on the checkpoint the previous
    one returned, and only an incomplete checkpoint is continued. *)
Inductive chunks (env : Env)
  : World → FlairScanResult Obj → World → FlairScanResult Obj → Prop :=
  | chunks_one fuel w r w' r' :
      continueScan env fuel r w = (Returned r', w') →
      chunks env w r w' r'
  | chunks_more fuel w r w1 r1 w' r' :
      continueScan env fuel r w = (Returned r1, w1) →
      completed r1 = false →
      chunks env w1 r1 w' r' →
      chunks env w r w' r'.

Definition generation (env : Env) (w w' : World) (r' : FlairScanResult Obj) : Prop :=
  ∃ now, chunks env w (initialPartial now) w' r'.

(** How one pass through the loop body can end. *)
Inductive IterationSpec (env : Env) (st : LoopState) (w : World)
  : Outcome Step → World → Prop :=
  | iter_budget w' :
      fetchLog w' = fetchLog w → kv w' = kv w → heap w' = heap w →
      kvOps w' = kvOps w →
      IterationSpec env st w
        (Returned (Break {| currentAfter := currentAfter st;
                            pageNumber := pageNumber st + 1;
                            cumulativeFlairGroups := cumulativeFlairGroups st;
                            cumulativeUsers := cumulativeUsers st |} false)) w'
  | iter_page users next o n w' :
      getUserFlair env (List.length (fetchLog w)) (currentAfter st)
        = FetchReturns (RespObject (Some users) next) →
      fetchLog w' = fetchLog w ++ callsFor (currentAfter st) [(users, next)] →
      mergePage (cumulativeFlairGroups st, heap w, cumulativeUsers st) users
        = Merged (o, heap w', n) →
      kvFrame ["flairScanHeartbeat"] w w' →
      scansFrom w w' →
      kvOps w' = S (kvOps w) →
      IterationSpec env st w
        (Returned
           (let st1 := {| currentAfter := next; pageNumber := pageNumber st + 1;
                          cumulativeFlairGroups := o; cumulativeUsers := n |} in
            if truthyCursor next then Continue st1 else Break st1 true)) w'
  | iter_fatal bad w' :
      getUserFlair env (List.length (fetchLog w)) (currentAfter st) = bad →
      fatal bad = true →
      fetchLog w' = fetchLog w ++ [(currentAfter st, bad)] →
      heap w' = heap w →
      kvFrame ["flairScanFailed"; "flairScanFailedMessage"; "flairScanInProgress"] w w' →
      kvOps w' = (3 + kvOps w)%nat →
      (storeHealthy env w w' →
       kv w' !! "flairScanFailed" = Some (JBool true) ∧
       kv w' !! "flairScanFailedMessage" = Some (JStr (failureMessage bad)) ∧
       kv w' !! "flairScanInProgress" = Some (JBool false)) →
      IterationSpec env st w (Threw (failureOf bad)) w'
  | iter_push_threw users next o n w' :
      getUserFlair env (List.length (fetchLog w)) (currentAfter st)
        = FetchReturns (RespObject (Some users) next) →
      fetchLog w' = fetchLog w ++ callsFor (currentAfter st) [(users, next)] →
      mergePage (cumulativeFlairGroups st, heap w, cumulativeUsers st) users
        = PushThrew (o, heap w', n) →
      kv w' = kv w →
      kvOps w' = kvOps w →
      IterationSpec env st w (Threw NotAFunction) w'.

(** The next-tokens of the pages one chunk merges: every page but the
    last gave a cursor to go on with, and the chunk is [done] exactly
    when the last page gave none. *)
Fixpoint pagesShape (done : bool) (pages : list Page) : Prop :=
  match pages with
  | [] => done = false
  | (_, next) :: rest =>
      if truthyCursor next then pagesShape done rest
      else rest = [] ∧ done = true
  end.

Definition FAILURE_KEYS : list string :=
  ["flairScanHeartbeat"; "flairScanFailed"; "flairScanFailedMessage"; "flairScanInProgress"].

Definition failureRecorded (w : World) (bad : FetchOutcome) : Prop :=
  kv w !! "flairScanFailed" = Some (JBool true) ∧
  kv w !! "flairScanFailedMessage" = Some (JStr (failureMessage bad)) ∧
  kv w !! "flairScanInProgress" = Some (JBool false).

(** How the do-while loop can end. *)
Inductive LoopSpec (env : Env) (st : LoopState) (w : World)
  : Outcome (LoopState * bool) → World → Prop :=
  | loop_exit (pages : list Page) st' (done : bool) w' :
      fetchLog w' = fetchLog w ++ callsFor (currentAfter st) pages →
      answers env (List.length (fetchLog w)) (callsFor (currentAfter st) pages) →
      mergePages (cumulativeFlairGroups st, heap w, cumulativeUsers st) pages.*1
        = Merged (cumulativeFlairGroups st', heap w', cumulativeUsers st') →
      pageNumber st'
        = pageNumber st + Z.of_nat (List.length pages) + (if done then 0 else 1) →
      currentAfter st' = lastCursor (currentAfter st) pages →
      pagesShape done pages →
      kvFrame ["flairScanHeartbeat"] w w' →
      scansFrom w w' →
      (kvOps w ≤ kvOps w')%nat →
      LoopSpec env st w (Returned (st', done)) w'
  | loop_fatal (pages : list Page) bad w' :
      fetchLog w'
        = fetchLog w ++ callsFor (currentAfter st) pages
            ++ [(lastCursor (currentAfter st) pages, bad)] →
      fatal bad = true →
      kvFrame FAILURE_KEYS w w' →
      (kvOps w ≤ kvOps w')%nat →
      (storeHealthy env w w' → failureRecorded w' bad) →
      LoopSpec env st w (Threw (failureOf bad)) w'
  | loop_fuel (pages : list Page) w' :
      fetchLog w' = fetchLog w ++ callsFor (currentAfter st) pages →
      kvFrame ["flairScanHeartbeat"] w w' →
      (kvOps w ≤ kvOps w')%nat →
      LoopSpec env st w OutOfFuel w'
  | loop_push_threw (pages : list Page) users next acc o n w' :
      fetchLog w'
        = fetchLog w ++ callsFor (currentAfter st) (pages ++ [(users, next)]) →
      mergePages (cumulativeFlairGroups st, heap w, cumulativeUsers st) pages.*1
        = Merged acc →
      mergePage acc users = PushThrew (o, heap w', n) →
      kvFrame ["flairScanHeartbeat"] w w' →
      (kvOps w ≤ kvOps w')%nat →
      LoopSpec env st w (Threw NotAFunction) w'.

Definition PERSIST_KEYS : list string :=
  ["flairScanResult"; "flairScanCompletedAt"; "flairScanInProgress";
   "flairScanFailed"; "flairScanPartial"].

(** What the persisting tail of a chunk may do to the world: it leaves
    the listing log and the heap alone, touches only [PERSIST_KEYS], and
    the only checkpoint it can put in the store is [r]. *)
Definition persistStep (r : FlairScanResult Obj) (w w' : World) : Prop :=
  fetchLog w' = fetchLog w ∧ heap w' = heap w ∧ (kvOps w ≤ kvOps w')%nat ∧
  kvFrame PERSIST_KEYS w w' ∧
  (∀ k s, kv w' !! k = Some (JScan s) →
          kv w !! k = Some (JScan s) ∨ s = toJSON (heap w) r).

(** A value the persisting tail writes: a scalar, or the checkpoint. *)
Definition persistable (r : FlairScanResult Obj) (v : JSValue) : Prop :=
  match v with
  | VScan r' => r' = r
  | _ => True
  end.

(** What the store holds after a chunk whose store operations all went
    through. *)
Definition persisted (r : FlairScanResult Obj) (w' : World) : Prop :=
  if completed r then
    kv w' !! "flairScanResult" = Some (JScan (toJSON (heap w') r)) ∧
    kv w' !! "flairScanInProgress" = Some (JBool false) ∧
    kv w' !! "flairScanFailed" = Some (JBool false) ∧
    kv w' !! "flairScanPartial" = None
  else
    kv w' !! "flairScanPartial" = Some (JScan (toJSON (heap w') r)) ∧
    kv w' !! "flairScanInProgress" = Some (JBool true).

Definition CHUNK_KEYS : list string := "flairScanHeartbeat" :: PERSIST_KEYS.

(** How one call of buildFlairGroupsPaginatedChunk can end. *)
Inductive ChunkSpec (env : Env) (after0 : option string) (start : Obj)
    (scanned0 page0 : Z) (w : World)
  : Outcome (FlairScanResult Obj) → World → Prop :=
  | chunk_returned (pages : list Page) r w' :
      fetchLog w' = fetchLog w ++ callsFor after0 pages →
      answers env (List.length (fetchLog w)) (callsFor after0 pages) →
      mergePages (start, heap w, scanned0) pages.*1
        = Merged (flairGroups r, heap w', scannedUsers r) →
      lastPageNumber r
        = Some (page0 + Z.of_nat (List.length pages) + (if completed r then 0 else 1)) →
      after r = lastCursor after0 pages →
      pagesShape (completed r) pages →
      kvFrame CHUNK_KEYS w w' →
      (∀ k s, kv w' !! k = Some (JScan s) →
              kv w !! k = Some (JScan s) ∨ s = toJSON (heap w') r) →
      (storeHealthy env w w' → persisted r w') →
      ChunkSpec env after0 start scanned0 page0 w (Returned r) w'
  | chunk_fatal (pages : list Page) bad w' :
      fetchLog w'
        = fetchLog w ++ callsFor after0 pages ++ [(lastCursor after0 pages, bad)] →
      fatal bad = true →
      kvFrame FAILURE_KEYS w w' →
      (storeHealthy env w w' → failureRecorded w' bad) →
      ChunkSpec env after0 start scanned0 page0 w (Threw (failureOf bad)) w'
  | chunk_read_failed (pages : list Page) w' :
      fetchLog w' = fetchLog w ++ callsFor after0 pages →
      kvFrame ["flairScanHeartbeat"] w w' →
      ¬ storeHealthy env w w' →
      ChunkSpec env after0 start scanned0 page0 w
        (Threw (KVError "flairScanStartedAt")) w'
  | chunk_fuel (pages : list Page) w' :
      fetchLog w' = fetchLog w ++ callsFor after0 pages →
      kvFrame ["flairScanHeartbeat"] w w' →
      ChunkSpec env after0 start scanned0 page0 w OutOfFuel w'
  | chunk_push_threw (pages : list Page) users next acc o n w' :
      fetchLog w' = fetchLog w ++ callsFor after0 (pages ++ [(users, next)]) →
      mergePages (start, heap w, scanned0) pages.*1 = Merged acc →
      mergePage acc users = PushThrew (o, heap w', n) →
      kvFrame ["flairScanHeartbeat"] w w' →
      ChunkSpec env after0 start scanned0 page0 w (Threw NotAFunction) w'.

(** ** The menu's view of the store *)

(** The title flairForm shows for the flags the menu handler read. *)
Inductive FormTitle : Type :=
  | InProgressTitle
  | FailedTitle
  | ResultsTitle
  | NoScanYetTitle.

Definition formTitle (scanRunning failedScan full : bool) : FormTitle :=
  if scanRunning then InProgressTitle
  else if failedScan then FailedTitle
  else if full then ResultsTitle
  else NoScanYetTitle.

(** The menu handler finds nothing to show: the guard
    [scanRunning || partial || full || failedScan] is false. *)
Definition noScan (store : gmap string JSONValue) : bool :=
  negb (truthy (store !! "flairScanInProgress")
        || truthy (store !! "flairScanPartial")
        || truthy (store !! "flairScanResult")
        || truthy (store !! "flairScanFailed")).

Definition menuTitle (store : gmap string JSONValue) : FormTitle :=
  formTitle (truthy (store !! "flairScanInProgress"))
            (truthy (store !! "flairScanFailed"))
            (truthy (store !! "flairScanResult")).

(** The keys clearScan deletes. *)
Definition CLEARED_KEYS : list string :=
  ["flairScanPartial"; "flairScanResult"; "flairScanInProgress";
   "flairScanFailed"; "flairScanFailedMessage"; "flairScanStartedAt"].

(** ** Concrete platforms and runs *)

Module Examples.

Definition member (u f : string) : UserFlair :=
  {| user := Some u; flairText := Some f |}.

Definition page (users : list UserFlair) (next : option string) : FetchOutcome :=
  FetchReturns (RespObject (Some users) next).

Definition emptyWorld : World :=
  {| kv := ∅; heap := []; ticks := 0; kvOps := 0; fetchLog := []; console := [] |}.

Definition platform (clock : nat → Z) (kvFails : nat → bool)
    (listing : nat → option string → FetchOutcome) : Env :=
  {| clock := clock; kvFails := kvFails; getUserFlair := listing;
     settingsGet := SUndefined |}.

Definition resultOf (run : Outcome (FlairScanResult Obj) * World) : FlairScanResult Obj :=
  match run.1 with
  | Returned r => r
  | _ => initialPartial 0
  end.

(** Two pages of three members. *)
Definition page1 : list UserFlair :=
  [member "u1" "gold"; member "u2" "gold"; member "u3" "silver"].
Definition page2 : list UserFlair :=
  [member "u4" "gold"; member "u5" "silver"; member "u6" "silver"].
Definition goldSilver (n : nat) (cursor : option string) : FetchOutcome :=
  match n with
  | O => page page1 (Some "t1")
  | _ => page page2 None
  end.

(** A platform where nothing goes wrong and no time passes. *)
Definition calm : Env := platform (λ _, 0) (λ _, false) goldSilver.
Definition calmRun := continueScan calm 5 (initialPartial 0) emptyWorld.

(** The budget of 27 s runs out after the first page of the first
    chunk; the second chunk has time. *)
Definition slowClock (n : nat) : Z := if (n <? 3)%nat then 0 else 27000.
Definition slow : Env := platform slowClock (λ _, false) goldSilver.
Definition slowChunk1 := continueScan slow 5 (initialPartial 0) emptyWorld.
Definition slowChunk2 := continueScan slow 5 (resultOf slowChunk1) slowChunk1.2.

(** A member whose label is one space. *)
Definition blank : Env :=
  platform (λ _, 0) (λ _, false) (λ _ _, page [member "u1" " "] None).
Definition blankRun := continueScan blank 5 (initialPartial 0) emptyWorld.

(** The listing throws on the second page. *)
Definition brokenListing (n : nat) (cursor : option string) : FetchOutcome :=
  match n with
  | O => page page1 (Some "t1")
  | _ => FetchThrows "Error: listing unavailable"
  end.
Definition broken : Env := platform (λ _, 0) (λ _, false) brokenListing.
Definition brokenRun := buildFlairGroupsPaginatedChunk broken 5 None ∅ 0 0 emptyWorld.
(** The same, and the store throws on its second operation, the write
    of flairScanFailed. *)
Definition brokenTwice : Env :=
  platform (λ _, 0) (λ n, (n =? 1)%nat) brokenListing.
Definition brokenTwiceRun :=
  buildFlairGroupsPaginatedChunk brokenTwice 5 None ∅ 0 0 emptyWorld.

(** The store throws on its third operation, the read of
    flairScanStartedAt after both pages were merged. *)
Definition unreadable : Env :=
  platform (λ _, 0) (λ n, (n =? 2)%nat) goldSilver.
Definition unreadableRun :=
  buildFlairGroupsPaginatedChunk unreadable 5 None ∅ 0 0 emptyWorld.

(** The last page carries the empty string as next-token. *)
Definition emptyToken : Env :=
  platform (λ _, 0) (λ _, false) (λ _ _, page [member "u1" "gold"] (Some "")).
Definition emptyTokenRun :=
  buildFlairGroupsPaginatedChunk emptyToken 5 None ∅ 0 0 emptyWorld.

(** A caller that already holds a group for "gold". *)
Definition callerGroups : Obj := {[ "gold" := 0%nat ]}.
Definition callerWorld : World :=
  {| kv := ∅; heap := [["a"]]; ticks := 0; kvOps := 0; fetchLog := []; console := [] |}.
Definition onePage : Env :=
  platform (λ _, 0) (λ _, false) (λ _ _, page [member "b" "gold"] None).
Definition callerRun :=
  buildFlairGroupsPaginatedChunk onePage 5 None callerGroups 1 0 callerWorld.

(** A member labelled with a name every object inherits. *)
Definition inheritedLabel : Env :=
  platform (λ _, 0) (λ _, false)
    (λ _ _, page [member "u1" "gold"; member "u2" "constructor"; member "u3" "gold"] None).
Definition inheritedLabelRun :=
  buildFlairGroupsPaginatedChunk inheritedLabel 5 None ∅ 0 0 emptyWorld.

(** A store left by a completed scan. *)
Definition completedScan : FlairScanResult Groups :=
  {| flairGroups := {[ "gold" := ["u1"] ]}; after := None; timestamp := 10;
     completed := true; scannedUsers := 1; lastPageNumber := Some 1;
     toastShown := None |}.
Definition completedWorld : World :=
  {| kv := {[ "flairScanResult" := JScan completedScan;
              "flairScanCompletedAt" := JNum 20;
              "flairScanHeartbeat" := JNum 15;
              "flairScanInProgress" := JBool false;
              "flairScanFailed" := JBool false;
              "flairScanStartedAt" := JNum 10;
              "appVersion" := JStr "1.0.0" ]};
     heap := []; ticks := 0; kvOps := 0; fetchLog := []; console := [] |}.
(** The store throws on its second operation, the delete of
    flairScanResult. *)
Definition stubborn : Env :=
  platform (λ _, 0) (λ n, (n =? 1)%nat) goldSilver.

End Examples.

(** The listing ends at call [n]: whatever cursor is sent, the answer is
    fatal or carries no cursor to go on with. *)
Definition listingEnds (env : Env) (n : nat) : Prop :=
  ∀ cursor,
    match getUserFlair env n cursor with
    | FetchReturns (RespObject (Some _) next) => truthyCursor next = false
    | _ => True
    end.

(** ** More vocabulary: numeric text *)

(** A string of white space only. *)
Fixpoint allWhite (s : string) : bool :=
  match s with
  | EmptyString => true
  | String c r => JSString.isWhite c && allWhite r
  end.

(** The string does not begin with a decimal digit. *)
Definition noLeadingDigit (s : string) : bool :=
  match s with
  | EmptyString => true
  | String c _ => match JSString.digitValue c with Some _ => false | None => true end
  end.

(** The integers a double holds exactly and prints in plain decimal. *)
Definition safeInteger (z : Z) : Prop := - 2 ^ 53 < z < 2 ^ 53.

(** ** More vocabulary: chunks *)

(** Each listing call is sent the token the page before it gave, the
    first one [cursor]; after a page without a usable token, and after a
    fatal outcome, no call follows. *)
Fixpoint chained (cursor : option string) (calls : list (option string * FetchOutcome))
  : Prop :=
  match calls with
  | [] => True
  | (sent, o) :: rest =>
      sent = cursor ∧
      match o with
      | FetchReturns (RespObject (Some _) next) =>
          if truthyCursor next then chained next rest else rest = []
      | _ => rest = []
      end
  end.

(** The time budget is spent at the first check of a chunk started in
    [w]: the timeout is NaN, or the second clock reading is at or past
    nine tenths of the timeout after the first. *)
Definition budgetSpent (env : Env) (w : World) : Prop :=
  match timeoutSeconds (settingsGet env) with
  | NaN => True
  | Num t =>
      t * 1000 * TIMEOUT_FRACTION_NUM
        <= (clock env (S (ticks w)) - clock env (ticks w)) * TIMEOUT_FRACTION_DEN
  end.

(** Every key a chunk may write or delete. *)
Definition SCAN_WRITE_KEYS : list string :=
  ["flairScanHeartbeat"; "flairScanResult"; "flairScanCompletedAt";
   "flairScanInProgress"; "flairScanFailed"; "flairScanFailedMessage";
   "flairScanPartial"].

(** The identifiers, in the order met, of the members accepted under the
    label [f]. *)
Definition identifiersFor (f : string) (users : list UserFlair) : list string :=
  identifierOf <$> filter (λ u, accepted u = true ∧ labelOf u = f) users.

(** More concrete platforms. *)
Module MoreExamples.

(** The timeout setting holds text that is no number. *)
Definition unparsable : Env :=
  {| clock := λ _, 0; kvFails := λ _, false;
     getUserFlair := Examples.goldSilver; settingsGet := SStr "abc" |}.
Definition unparsableRun :=
  buildFlairGroupsPaginatedChunk unparsable 5 (Some "t1") ∅ 3 1 Examples.emptyWorld.

End MoreExamples.

(** ** The one-shot scan: getFlairGroups *)

Module JSText.

(** toLowerCase on one code unit below U+0100. *)
Definition lowerChar (c : Ascii.ascii) : Ascii.ascii :=
  let n := Ascii.nat_of_ascii c in
  if ((65 <=? n)%nat && (n <=? 90)%nat)
     || ((192 <=? n)%nat && (n <=? 222)%nat && negb (n =? 215)%nat)
  then Ascii.ascii_of_nat (n + 32)
  else c.

(** String.prototype.toLowerCase *)
Fixpoint toLowerCase (s : string) : string :=
  match s with
  | EmptyString => EmptyString
  | String c r => String (lowerChar c) (toLowerCase r)
  end.

Fixpoint startsWith (s sub : string) : bool :=
  match sub, s with
  | EmptyString, _ => true
  | String _ _, EmptyString => false
  | String b sub', String a s' => bool_decide (a = b) && startsWith s' sub'
  end.

(** String.prototype.includes *)
Fixpoint includes (s sub : string) : bool :=
  startsWith s sub
  || match s with
     | EmptyString => false
     | String _ r => includes r sub
     end.

End JSText.

(** What getFlairGroups can throw: the error of the listing call, the
    TypeError raised when [response] or [response.users] cannot be
    iterated, or the TypeError of a push on an inherited value. *)
Inductive ScanError : Type :=
  | ListingError (err : string)
  | NotIterable
  | PushIsNotAFunction.

Inductive ScanOutcome : Type :=
  | Grouped (flairGroups : Groups)
  | ScanThrew (e : ScanError)
  | ScanOutOfFuel.

(** [userFlair.flairText || "No Flair"] and [userFlair.user || "Unknown"] *)
Definition flairTextOrNone (u : UserFlair) : string :=
  match flairText u with
  | Some (String c r) => String c r
  | _ => "No Flair"
  end.
Definition usernameOrUnknown (u : UserFlair) : string :=
  match user u with
  | Some (String c r) => String c r
  | _ => "Unknown"
  end.

(** [!flairFilterValue || flairText.toLowerCase().includes(flairFilterValue.toLowerCase())] *)
Definition passesFilter (flairFilterValue : option string) (u : UserFlair) : bool :=
  match flairFilterValue with
  | Some (String c r) =>
      JSText.includes (JSText.toLowerCase (flairTextOrNone u))
                      (JSText.toLowerCase (String c r))
  | _ => true
  end.

(** Filing a member [u] under [key u] when [accept u]: the group of that
    key gains [val u] at its end.  Both scans file members this way. *)
Definition fileUnder (accept : UserFlair → bool) (key val : UserFlair → string)
    (g : Groups) (u : UserFlair) : Groups :=
  if accept u then <[key u := default [] (g !! key u) ++ [val u]]> g else g.

(** The values filed under [f], in the order met. *)
Definition filedUnder (accept : UserFlair → bool) (key val : UserFlair → string)
    (f : string) (users : list UserFlair) : list string :=
  val <$> filter (λ u, accept u = true ∧ key u = f) users.

(** The body of [for (const userFlair of userFlairs)]; [None] when the
    push throws, as in the chunked scan.  The object is built by this
    function alone, so it is taken with its arrays as a value. *)
Definition groupUser (flairFilterValue : option string) (flairGroups : Groups)
    (u : UserFlair) : option Groups :=
  if passesFilter flairFilterValue u then
    let flairGroups1 :=
      if truthyProperty flairGroups (flairTextOrNone u) then flairGroups
      else <[flairTextOrNone u := []]> flairGroups in
    match flairGroups1 !! flairTextOrNone u with
    | Some ids => Some (<[flairTextOrNone u := ids ++ [usernameOrUnknown u]]> flairGroups1)
    | None => None
    end
  else Some flairGroups.

Fixpoint groupPage (flairFilterValue : option string) (flairGroups : Groups)
    (users : list UserFlair) : option Groups :=
  match users with
  | [] => Some flairGroups
  | u :: rest =>
      match groupUser flairFilterValue flairGroups u with
      | Some flairGroups1 => groupPage flairFilterValue flairGroups1 rest
      | None => None
      end
  end.

(** A listing call of getFlairGroups: the outcome is logged like any
    other. *)
Definition listingCall (env : Env) (cursor : option string) (w : World)
  : FetchOutcome * World :=
  let o := getUserFlair env (List.length (fetchLog w)) cursor in
  (o, logFetch cursor o w).

(** The while loop, entered with the response at hand.  A member list
    that is no array is taken not to be iterable. *)
Fixpoint getFlairGroupsLoop (env : Env) (fuel : nat) (flairFilterValue : option string)
    (response : FetchOutcome) (flairGroups : Groups) (w : World)
  : ScanOutcome * World :=
  match response with
  | FetchThrows err => (ScanThrew (ListingError err), w)
  | FetchReturns (RespObject (Some users) next) =>
      match groupPage flairFilterValue flairGroups users with
      | None => (ScanThrew PushIsNotAFunction, w)
      | Some flairGroups1 =>
          if truthyCursor next then
            match fuel with
            | O => (ScanOutOfFuel, w)
            | S fuel' =>
                let '(response1, w1) := listingCall env next w in
                getFlairGroupsLoop env fuel' flairFilterValue response1 flairGroups1 w1
            end
          else (Grouped flairGroups1, w)
      end
  | FetchReturns _ => (ScanThrew NotIterable, w)
  end.

Definition getFlairGroups (env : Env) (fuel : nat) (flairFilterValue : option string)
    (w : World) : ScanOutcome * World :=
  let '(response, w1) := listingCall env None w in
  getFlairGroupsLoop env fuel flairFilterValue response ∅ w1.

(** The groups after the pages, on groups as values, when no push
    throws. *)
Definition groupedFrom (flairFilterValue : option string) (g : Groups)
    (pages : list (list UserFlair)) : Groups :=
  fold_left
    (λ g users,
       fold_left (fileUnder (passesFilter flairFilterValue) flairTextOrNone
                    usernameOrUnknown) users g)
    pages g.

(** The identifiers, in the order met, of the members getFlairGroups
    files under the label [f]. *)
Definition usernamesFor (flairFilterValue : option string) (f : string)
    (users : list UserFlair) : list string :=
  usernameOrUnknown
    <$> filter (λ u, passesFilter flairFilterValue u = true ∧ flairTextOrNone u = f) users.

(** A member on which the two scans agree: the label is non-empty and
    free of surrounding white space, the identifier is not the empty
    string. *)
Definition plainMember (u : UserFlair) : Prop :=
  accepted u = true ∧ labelOf u = default "" (flairText u) ∧ user u ≠ Some "".

Module OneShotExamples.

Definition run := getFlairGroups Examples.calm 5 None Examples.emptyWorld.
Definition groupsOf (r : ScanOutcome * World) : Groups :=
  match r.1 with
  | Grouped g => g
  | _ => ∅
  end.
Definition filteredRun := getFlairGroups Examples.calm 5 (Some "GOL") Examples.emptyWorld.
Definition brokenRun := getFlairGroups Examples.broken 5 None Examples.emptyWorld.

End OneShotExamples.

(** ** The form handler *)

(** A value read from the store is a fresh copy: each group gets an array
    of its own.  The order in which the arrays are allocated only names
    the references. *)
Definition materialise (g : Groups) (h : Heap) : Obj * Heap :=
  map_fold (λ f ids acc, (<[f := List.length acc.2]> acc.1, acc.2 ++ [ids])) (∅, h) g.

(** [partialRaw as FlairScanResult]: a stored checkpoint with its fields,
    any other stored value with none (continueScan reads each field it
    uses through [??]; it does not read timestamp and completed). *)
Definition castPartial (v : JSONValue) (h : Heap) : FlairScanResult Obj * Heap :=
  match v with
  | JScan p =>
      let '(o, h1) := materialise (flairGroups p) h in
      ({| flairGroups := o; after := after p; timestamp := timestamp p;
          completed := completed p; scannedUsers := scannedUsers p;
          lastPageNumber := lastPageNumber p; toastShown := toastShown p |}, h1)
  | _ =>
      ({| flairGroups := ∅; after := None; timestamp := 0; completed := false;
          scannedUsers := 0; lastPageNumber := None; toastShown := None |}, h)
  end.

(** How the handler of flairForm ends: with the rejection of its lookup
    of the current subreddit, after clearScan, after one more chunk, or
    by handing over to startQuickScan. *)
Inductive Accepted : Type :=
  | NoSubreddit
  | Cancelled
  | Continued (result : FlairScanResult Obj)
  | StartsQuickScan.

(** The handler of flairForm, up to its call of startQuickScan: what the
    quick scan and the form shown after it do is not part of it.
    [subredditFound] is whether getCurrentSubreddit answers; the lookup
    touches neither the store nor the listing.  showProgressForm reads
    the clock once and shows a form. *)
Definition acceptForm (env : Env) (fuel : nat) (subredditFound cancelScan : bool)
  : M Accepted :=
  let* inProgress := kvGet env "flairScanInProgress" in
  let* failed := kvGet env "flairScanFailed" in
  let scanRunning := truthy inProgress in
  let failedScan := truthy failed in
  if negb subredditFound then ret NoSubreddit
  else if cancelScan then
    clearScan env ;;; ret Cancelled
  else if scanRunning && negb failedScan then
    let* partialRaw := kvGet env "flairScanPartial" in
    let* partial :=
      match partialRaw with
      | Some v =>
          if truthy partialRaw
          then (λ w, let '(p, h) := castPartial v (heap w) in (Returned p, withHeap h w))
          else (let* now := dateNow env in ret (initialPartial now))
      | None => let* now := dateNow env in ret (initialPartial now)
      end in
    let* result := continueScan env fuel partial in
    let* _shown := dateNow env in
    ret (Continued result)
  else
    safeKVDelete env "flairScanFailed" ;;;
    safeKVDelete env "flairScanFailedMessage" ;;;
    let* scanStartedAtRaw := kvGet env "flairScanStartedAt" in
    (if truthy scanStartedAtRaw then ret tt
     else let* now := dateNow env in safeKVWrite env "flairScanStartedAt" (VNum now)) ;;;
    ret StartsQuickScan.

Module FormExamples.

(** The store after the first chunk of the slow platform, and the
    Continue action on it. *)
Definition continued := acceptForm Examples.slow 5 true false Examples.slowChunk1.2.
Definition resultOf (run : Outcome Accepted * World) : FlairScanResult Obj :=
  match run.1 with
  | Returned (Continued r) => r
  | _ => initialPartial 0
  end.
Definition storedPartial : FlairScanResult Groups :=
  match kv Examples.slowChunk1.2 !! "flairScanPartial" with
  | Some (JScan p) => p
  | _ => Examples.completedScan
  end.

(** The flag of a running scan without a checkpoint. *)
Definition flagOnly : World :=
  {| kv := {[ "flairScanInProgress" := JBool true ]};
     heap := []; ticks := 0; kvOps := 0; fetchLog := []; console := [] |}.
Definition restarted := acceptForm Examples.calm 5 true false flagOnly.

Definition cancelled := acceptForm Examples.calm 5 true true Examples.completedWorld.
Definition refreshed := acceptForm Examples.calm 5 true false Examples.completedWorld.

End FormExamples.

(** ** mergeFlairGroups *)

(** The body of [for (const [f, users] of Object.entries(src))]: [users]
    is the array the entry refers to, read when it is spread into push;
    [None] when the push throws, which it does when [dst[f]] is a value
    [dst] inherits. *)
Definition mergeGroup (acc : Obj * Heap) (entry : string * nat) : option (Obj * Heap) :=
  let '(dst, h) := acc in
  let '(f, users) := entry in
  let '(dst1, h1) :=
    if truthyProperty dst f then (dst, h)
    else (<[f := List.length h]> dst, h ++ [[]]) in
  match dst1 !! f with
  | Some l => Some (dst1, alter (λ ids, ids ++ default [] (h1 !! users)) l h1)
  | None => None
  end.

Fixpoint mergeEntries (acc : Obj * Heap) (entries : list (string * nat))
  : Merge (Obj * Heap) :=
  match entries with
  | [] => Merged acc
  | entry :: rest =>
      match mergeGroup acc entry with
      | Some acc1 => mergeEntries acc1 rest
      | None => PushThrew acc
      end
  end.

(** [src] is given by its entries, in the order Object.entries lists
    them; the labels of an object are distinct. *)
Definition mergeFlairGroups (dst : Obj) (src : list (string * nat)) (h : Heap)
  : Merge (Obj * Heap) :=
  mergeEntries (dst, h) src.

(** No label that only [src] has is a name [dst] inherits. *)
Definition ordinary (dst : Obj) (src : list (string * nat)) : Prop :=
  ∀ f l, (f, l) ∈ src → dst !! f = None → inherited f = false.

(** The arrays of [src] are allocated and none of them is an array of
    [dst]. *)
Definition apart (h : Heap) (dst : Obj) (src : list (string * nat)) : Prop :=
  ∀ f l, (f, l) ∈ src → (l < List.length h)%nat ∧ ∀ f', dst !! f' ≠ Some l.

(** What [src] holds for a label. *)
Definition groupOf (h : Heap) (src : list (string * nat)) (f : string)
  : option (list string) :=
  (list_to_map src : Obj) !! f ≫= λ l, h !! l.

Module MergeExamples.

(** gold and silver in the destination, silver and bronze in the
    source: the source's two arrays, then the destination's. *)
Definition sourceArrays : Heap := [["c"; "d"]; ["e"]].
Definition groups : Groups := {[ "gold" := ["a"]; "silver" := ["b"] ]}.
Definition dst : Obj := (materialise groups sourceArrays).1.
Definition arrays : Heap := (materialise groups sourceArrays).2.
Definition src : list (string * nat) := [("silver", 0%nat); ("bronze", 1%nat)].
Definition own : list (string * nat) := map_to_list dst.
(** A source with a label every object inherits. *)
Definition inheritedSource : list (string * nat) := [("constructor", 1%nat)].

End MergeExamples.

(** * Properties *)

(** A closed statement about a concrete run, settled by evaluation. *)
Ltac by_evaluation := vm_compute; reflexivity.

(** Case analysis on every store operation in sight that may fail. *)
Ltac case_kvFails :=
  repeat match goal with
         | |- context [kvFails ?e ?i] => destruct (kvFails e i); cbn
         end.

(** ** The wrappers *)

Section WrapperFacts.

Context (env : Env).

Lemma safeKVWrite_run key v w :
  safeKVWrite env key v w =
    (Returned tt,
     if kvFails env (kvOps w)
     then contained ("safeKVWrite failed key=" +:+ key) w
     else wrote key v w).
Proof.
  unfold safeKVWrite, tryCatch, kvPut, kvOperation, consoleError.
  destruct (kvFails env (kvOps w)); reflexivity.
Qed.

Lemma safeKVDelete_run key w :
  safeKVDelete env key w =
    (Returned tt,
     if kvFails env (kvOps w)
     then contained ("safeKVDelete failed key=" +:+ key) w
     else deleted key w).
Proof.
  unfold safeKVDelete, tryCatch, kvDelete, kvOperation, consoleError.
  destruct (kvFails env (kvOps w)); reflexivity.
Qed.

Lemma bind_safeKVWrite {B} key v (k : unit → M B) w :
  bind (safeKVWrite env key v) k w =
    k tt (if kvFails env (kvOps w)
          then contained ("safeKVWrite failed key=" +:+ key) w
          else wrote key v w).
Proof. unfold bind. rewrite safeKVWrite_run. reflexivity. Qed.

Lemma bind_safeKVDelete {B} key (k : unit → M B) w :
  bind (safeKVDelete env key) k w =
    k tt (if kvFails env (kvOps w)
          then contained ("safeKVDelete failed key=" +:+ key) w
          else deleted key w).
Proof. unfold bind. rewrite safeKVDelete_run. reflexivity. Qed.

Lemma bind_dateNow {B} (k : Z → M B) w :
  bind (dateNow env) k w = k (clock env (ticks w)) (tick w).
Proof. reflexivity. Qed.

Lemma bind_ret {A B} (a : A) (k : A → M B) w : bind (ret a) k w = k a w.
Proof. reflexivity. Qed.

Lemma bind_assoc {A B C} (m : M A) (f : A → M B) (g : B → M C) w :
  bind (bind m f) g w = bind m (λ x, bind (f x) g) w.
Proof. unfold bind. destruct (m w) as [[a | e |] w1]; reflexivity. Qed.

End WrapperFacts.

(** ** Settings and strings by example *)

Example timeout_absent : timeoutSeconds SUndefined = Num 30.
Proof. reflexivity. Qed.
Example timeout_num : timeoutSeconds (SNum (Num 45)) = Num 45.
Proof. vm_compute. reflexivity. Qed.
Example timeout_str : timeoutSeconds (SStr "  45s") = Num 45.
Proof. reflexivity. Qed.
Example timeout_bad : timeoutSeconds (SStr "abc") = NaN.
Proof. reflexivity. Qed.
Example trim_ex : JSString.trim "  gold  " = "gold".
Proof. reflexivity. Qed.

(** ** One pass through the loop body *)

Section IterationFacts.

Context (env : Env).

Lemma markFailed_run msg w :
  ∃ w', markFailed env msg w = (Returned tt, w') ∧
        fetchLog w' = fetchLog w ∧ heap w' = heap w ∧
        kvFrame ["flairScanFailed"; "flairScanFailedMessage"; "flairScanInProgress"] w w' ∧
        kvOps w' = (3 + kvOps w)%nat ∧
        (storeHealthy env w w' →
         kv w' !! "flairScanFailed" = Some (JBool true) ∧
         kv w' !! "flairScanFailedMessage" = Some (JStr msg) ∧
         kv w' !! "flairScanInProgress" = Some (JBool false)).
Proof.
  unfold markFailed. rewrite bind_safeKVWrite.
  set (w1 := if kvFails env (kvOps w) then _ else _).
  rewrite bind_safeKVWrite.
  set (w2 := if kvFails env (kvOps w1) then _ else _).
  rewrite safeKVWrite_run.
  set (w3 := if kvFails env (kvOps w2) then _ else _).
  assert (E1 : kvOps w1 = S (kvOps w)) by (subst w1; destruct (kvFails env (kvOps w)); reflexivity).
  assert (E2 : kvOps w2 = S (kvOps w1)) by (subst w2; destruct (kvFails env (kvOps w1)); reflexivity).
  assert (E3 : kvOps w3 = S (kvOps w2)) by (subst w3; destruct (kvFails env (kvOps w2)); reflexivity).
  exists w3. split; [reflexivity|].
  split; [|split; [|split; [|split]]].
  - subst w3 w2 w1.
    case_kvFails; reflexivity.
  - subst w3 w2 w1.
    case_kvFails; reflexivity.
  - intros k Hk.
    assert (k ≠ "flairScanFailed" ∧ k ≠ "flairScanFailedMessage" ∧ k ≠ "flairScanInProgress")
      as (N1 & N2 & N3) by (repeat split; intros ->; apply Hk; set_solver).
    subst w3 w2 w1.
    case_kvFails; rewrite ?lookup_insert_ne by congruence; reflexivity.
  - lia.
  - intros Hq.
    assert (F1 : kvFails env (kvOps w) = false) by (apply Hq; lia).
    assert (F2 : kvFails env (kvOps w1) = false) by (apply Hq; lia).
    assert (F3 : kvFails env (kvOps w2) = false) by (apply Hq; lia).
    subst w3. rewrite F3. subst w2. rewrite F2. subst w1. rewrite F1.
    cbn. rewrite !lookup_insert_eq.
    rewrite !lookup_insert_ne by done. rewrite !lookup_insert_eq.
    rewrite !lookup_insert_ne by done. rewrite !lookup_insert_eq. done.
Qed.

Lemma heartbeat_frame key v w :
  let w' := if kvFails env (kvOps w)
            then contained ("safeKVWrite failed key=" +:+ key) w
            else wrote key v w in
  fetchLog w' = fetchLog w ∧ heap w' = heap w ∧ kvFrame [key] w w' ∧
  kvOps w' = S (kvOps w) ∧
  ((∀ r, v ≠ VScan r) → scansFrom w w').
Proof.
  destruct (kvFails env (kvOps w)); cbn.
  - split; [done |]. split; [done |]. split; [by intros k _ |].
    split; [done |]. by intros _ k s.
  - split; [done |]. split; [done |]. split; [| split; [done |]].
    + intros k Hk. cbn. apply lookup_insert_ne. set_solver.
    + intros Hv k s. cbn. destruct (decide (key = k)) as [-> | Hne].
      * rewrite lookup_insert_eq. destruct v; cbn; try done. by destruct (Hv r).
      * by rewrite lookup_insert_ne.
Qed.

Lemma chunkIteration_spec chunkStart timeout st w out w' :
  chunkIteration env chunkStart timeout st w = (out, w') →
  IterationSpec env st w out w'.
Proof.
  unfold chunkIteration, isTimeRemaining.
  rewrite bind_assoc, bind_dateNow, bind_ret.
  match goal with |- context [negb ?b] => destruct b end; cbn [negb].
  2:{ rewrite bind_dateNow. unfold ret. intros [= <- <-]. by constructor. }
  unfold bind at 1. unfold tryCatch, callGetUserFlair.
  cbn [tick fetchLog].
  destruct (getUserFlair env (List.length (fetchLog w)) (currentAfter st))
    as [err | resp] eqn:Hget.
  - (* the fetch throws *)
    set (w1 := logFetch _ _ _).
    unfold bind at 1.
    destruct (markFailed_run (errorString (FetchError err)) w1)
      as (w2 & -> & Hlog & Hheap & Hframe & Hops & Hflags).
    unfold throw. intros [= <- <-].
    change (FetchError err) with (failureOf (FetchThrows err)).
    eapply iter_fatal; eauto.
  - destruct resp as [| [users |] next].
    + (* nothing usable *)
      set (w1 := logFetch _ _ _).
      unfold bind at 1.
      destruct (markFailed_run INVALID_RESPONSE w1)
        as (w2 & -> & Hlog & Hheap & Hframe & Hops & Hflags).
      unfold throw. intros [= <- <-].
      change InvalidResponse with (failureOf (FetchReturns RespNullish)).
      eapply iter_fatal; eauto.
    + (* a page *)
      set (w1 := logFetch _ _ _).
      unfold bind at 1.
      destruct (mergePage (cumulativeFlairGroups st, heap w1, cumulativeUsers st) users)
        as [[[o h] n] | [[o h] n]] eqn:Hmerge.
      2:{ (* a push threw *)
          intros [= <- <-].
          by apply (iter_push_threw env st w users next o n). }
      rewrite bind_dateNow, bind_safeKVWrite. cbn [fst snd].
      match goal with |- context [ (if truthyCursor next then ?a else ?b) ?x ] =>
        replace ((if truthyCursor next then a else b) x)
          with (Returned (if truthyCursor next
                          then Continue {| currentAfter := next; pageNumber := pageNumber st + 1;
                                           cumulativeFlairGroups := o; cumulativeUsers := n |}
                          else Break {| currentAfter := next; pageNumber := pageNumber st + 1;
                                        cumulativeFlairGroups := o; cumulativeUsers := n |} true), x)
          by (destruct (truthyCursor next); reflexivity)
      end.
      intros [= <- <-].
      match goal with |- context [if kvFails env ?i then contained ?l ?x else wrote ?k ?v ?x] =>
        destruct (heartbeat_frame k v x) as (Hlog & Hheap & Hframe & Hops & Hscans)
      end.
      eapply (iter_page env st w users next o n);
        [exact Hget | exact Hlog | | exact Hframe | by apply Hscans | exact Hops].
      destruct (kvFails env (kvOps w)); exact Hmerge.
    + (* users is not an array *)
      set (w1 := logFetch _ _ _).
      unfold bind at 1.
      destruct (markFailed_run INVALID_RESPONSE w1)
        as (w2 & -> & Hlog & Hheap & Hframe & Hops & Hflags).
      unfold throw. intros [= <- <-].
      change InvalidResponse with (failureOf (FetchReturns (RespObject None next))).
      eapply iter_fatal; eauto.
Qed.

End IterationFacts.

(** ** The do-while loop *)

Section LoopFacts.

Context (env : Env).

Lemma kvFrame_trans keys1 keys2 keys w1 w2 w3 :
  keys1 ⊆ keys → keys2 ⊆ keys →
  kvFrame keys1 w1 w2 → kvFrame keys2 w2 w3 → kvFrame keys w1 w3.
Proof.
  intros S1 S2 F1 F2 k Hk.
  rewrite F2 by (intros ?; apply Hk; auto).
  apply F1. intros ?; apply Hk; auto.
Qed.

Lemma storeHealthy_later w0 w1 w' :
  (kvOps w0 ≤ kvOps w1)%nat → storeHealthy env w0 w' → storeHealthy env w1 w'.
Proof. intros Hle H i Hi. apply H. lia. Qed.

Lemma chunkLoop_spec fuel chunkStart timeout st w out w' :
  chunkLoop env fuel chunkStart timeout st w = (out, w') →
  LoopSpec env st w out w'.
Proof.
  revert st w out w'. induction fuel as [| fuel IH]; intros st w out w'.
  - cbn. intros [= <- <-].
    apply (loop_fuel env st w []); [by rewrite app_nil_r | done | done].
  - cbn [chunkLoop]. unfold bind at 1.
    destruct (chunkIteration env chunkStart timeout st w) as [step w1] eqn:Hstep.
    apply chunkIteration_spec in Hstep.
    inversion Hstep as
      [w1' Hlog Hkv Hheap Hops
      | users next o n w1' Hget Hlog Hmerge Hframe Hscans Hops
      | bad w1' Hget Hfatal Hlog Hheap Hframe Hops Hflags
      | users next o n w1' Hget Hlog Hmerge Hkv Hops]; subst.
    + (* budget reached *)
      unfold ret. intros [= <- <-].
      apply (loop_exit env st w []); cbn.
      * by rewrite app_nil_r.
      * done.
      * by rewrite Hheap.
      * lia.
      * done.
      * done.
      * intros k _. by rewrite Hkv.
      * intros k s. by rewrite Hkv.
      * lia.
    + (* a page was merged *)
      cbn zeta. destruct (truthyCursor next) eqn:Hnext.
      * intros Hrest. apply IH in Hrest.
        inversion Hrest as
          [pages st' done w2 Hlog2 Hans Hfold Hpn Hcur Hshape Hframe2 Hscans2 Hops2
          | pages bad w2 Hlog2 Hfatal Hframe2 Hops2 Hflags
          | pages w2 Hlog2 Hframe2 Hops2
          | pages users2 next2 acc2 o2 n2 w2 Hlog2 Hfold Hthrew Hframe2 Hops2]; subst;
          cbn [pageNumber currentAfter cumulativeFlairGroups cumulativeUsers] in *.
        -- apply (loop_exit env st w ((users, next) :: pages));
             cbn [callsFor lastCursor pagesShape List.length answers].
           ++ rewrite Hlog2, Hlog. cbn. by rewrite <- app_assoc.
           ++ split; [exact Hget |].
              rewrite Hlog, length_app, Nat.add_1_r in Hans. exact Hans.
           ++ rewrite fmap_cons. cbn [mergePages fst]. rewrite Hmerge. exact Hfold.
           ++ rewrite Hpn. lia.
           ++ exact Hcur.
           ++ by rewrite Hnext.
           ++ eapply kvFrame_trans; [| | exact Hframe | exact Hframe2]; set_solver.
           ++ intros k s Hs. auto.
           ++ lia.
        -- apply (loop_fatal env st w ((users, next) :: pages)); cbn [callsFor lastCursor pagesShape List.length].
           ++ rewrite Hlog2, Hlog. cbn. by rewrite <- !app_assoc.
           ++ done.
           ++ eapply kvFrame_trans; [| | exact Hframe | exact Hframe2];
                unfold FAILURE_KEYS; set_solver.
           ++ lia.
           ++ intros Hq. apply Hflags. eapply storeHealthy_later; [| exact Hq]. lia.
        -- apply (loop_fuel env st w ((users, next) :: pages)); cbn [callsFor lastCursor pagesShape List.length].
           ++ rewrite Hlog2, Hlog. cbn. by rewrite <- app_assoc.
           ++ eapply kvFrame_trans; [| | exact Hframe | exact Hframe2]; set_solver.
           ++ lia.
        -- apply (loop_push_threw env st w ((users, next) :: pages) users2 next2 acc2 o2 n2).
           ++ rewrite Hlog2, Hlog. cbn. by rewrite <- app_assoc.
           ++ rewrite fmap_cons. cbn [mergePages fst]. rewrite Hmerge. exact Hfold.
           ++ exact Hthrew.
           ++ eapply kvFrame_trans; [| | exact Hframe | exact Hframe2]; set_solver.
           ++ lia.
      * unfold ret. intros [= <- <-].
        apply (loop_exit env st w [(users, next)]);
          cbn [callsFor lastCursor pagesShape List.length answers
               pageNumber currentAfter cumulativeFlairGroups cumulativeUsers].
        -- exact Hlog.
        -- done.
        -- rewrite fmap_cons. cbn [mergePages fst fmap list_fmap]. by rewrite Hmerge.
        -- lia.
        -- done.
        -- by rewrite Hnext.
        -- done.
        -- done.
        -- lia.
    + (* a fatal listing outcome *)
      intros [= <- <-].
      apply (loop_fatal env st w []); cbn.
      * exact Hlog.
      * done.
      * eapply kvFrame_trans; [| | exact Hframe | intros k _; reflexivity];
          unfold FAILURE_KEYS; set_solver.
      * lia.
      * exact Hflags.
    + (* a push threw *)
      intros [= <- <-].
      apply (loop_push_threw env st w [] users next
               (cumulativeFlairGroups st, heap w, cumulativeUsers st) o n).
      * exact Hlog.
      * done.
      * exact Hmerge.
      * intros k _. by rewrite Hkv.
      * lia.
Qed.

End LoopFacts.

(** ** Persisting a checkpoint *)

Section PersistFacts.

Context (env : Env).

Lemma persistStep_refl r w : persistStep r w w.
Proof. repeat split; auto. Qed.

Lemma persistStep_trans r w1 w2 w3 :
  persistStep r w1 w2 → persistStep r w2 w3 → persistStep r w1 w3.
Proof.
  intros (L1 & H1 & O1 & F1 & S1) (L2 & H2 & O2 & F2 & S2).
  repeat split.
  - congruence.
  - congruence.
  - lia.
  - intros k Hk. rewrite F2, F1; auto.
  - intros k s Hs. apply S2 in Hs as [Hs | ->].
    + apply S1 in Hs. exact Hs.
    + right. by rewrite H1.
Qed.

Lemma persistStep_tick r w : persistStep r w (tick w).
Proof. repeat split; auto. Qed.

Lemma persistStep_write r key v w :
  key ∈ PERSIST_KEYS → persistable r v →
  persistStep r w
    (if kvFails env (kvOps w)
     then contained ("safeKVWrite failed key=" +:+ key) w
     else wrote key v w).
Proof.
  intros Hkey Hv. destruct (kvFails env (kvOps w)); cbn.
  - repeat split; cbn; auto.
  - repeat split; cbn; auto.
    + intros k Hk. apply lookup_insert_ne. intros ->. contradiction.
    + intros k s. destruct (decide (key = k)) as [-> | Hne].
      * rewrite lookup_insert_eq. intros [= Hs]. right.
        destruct v; cbn in Hs; try discriminate.
        cbn in Hv. subst. by injection Hs.
      * rewrite lookup_insert_ne by done. auto.
Qed.

Lemma persistStep_delete r key w :
  key ∈ PERSIST_KEYS →
  persistStep r w
    (if kvFails env (kvOps w)
     then contained ("safeKVDelete failed key=" +:+ key) w
     else deleted key w).
Proof.
  intros Hkey. destruct (kvFails env (kvOps w)); cbn.
  - repeat split; cbn; auto.
  - repeat split; cbn; auto.
    + intros k Hk. apply lookup_delete_ne. intros ->. contradiction.
    + intros k s. destruct (decide (key = k)) as [-> | Hne].
      * by rewrite lookup_delete_eq.
      * rewrite lookup_delete_ne by done. auto.
Qed.

Lemma persist_run r w :
  ∃ w', persist env r w = (Returned tt, w') ∧ persistStep r w w' ∧
        (storeHealthy env w w' → persisted r w').
Proof.
  unfold persist, persisted. destruct (completed r).
  - rewrite bind_safeKVWrite.
    set (w1 := if kvFails env (kvOps w) then _ else _).
    rewrite bind_dateNow, bind_safeKVWrite.
    set (w2 := if kvFails env (kvOps (tick w1)) then _ else _).
    rewrite bind_safeKVWrite.
    set (w3 := if kvFails env (kvOps w2) then _ else _).
    rewrite bind_safeKVWrite.
    set (w4 := if kvFails env (kvOps w3) then _ else _).
    rewrite safeKVDelete_run.
    set (w5 := if kvFails env (kvOps w4) then _ else _).
    assert (S1 : persistStep r w w1)
      by (apply persistStep_write; [unfold PERSIST_KEYS; set_solver | done]).
    assert (S2 : persistStep r (tick w1) w2)
      by (apply persistStep_write; [unfold PERSIST_KEYS; set_solver | done]).
    assert (S3 : persistStep r w2 w3)
      by (apply persistStep_write; [unfold PERSIST_KEYS; set_solver | done]).
    assert (S4 : persistStep r w3 w4)
      by (apply persistStep_write; [unfold PERSIST_KEYS; set_solver | done]).
    assert (S5 : persistStep r w4 w5)
      by (apply persistStep_delete; unfold PERSIST_KEYS; set_solver).
    exists w5. split; [reflexivity |]. split.
    + eapply persistStep_trans; [exact S1 |].
      eapply persistStep_trans; [apply persistStep_tick |].
      eapply persistStep_trans; [exact S2 |].
      eapply persistStep_trans; [exact S3 |].
      eapply persistStep_trans; [exact S4 | exact S5].
    + intros Hq.
      assert (O1 : kvOps w1 = S (kvOps w))
        by (subst w1; destruct (kvFails env (kvOps w)); reflexivity).
      assert (O2 : kvOps w2 = S (kvOps w1))
        by (subst w2; destruct (kvFails env (kvOps (tick w1))); reflexivity).
      assert (O3 : kvOps w3 = S (kvOps w2))
        by (subst w3; destruct (kvFails env (kvOps w2)); reflexivity).
      assert (O4 : kvOps w4 = S (kvOps w3))
        by (subst w4; destruct (kvFails env (kvOps w3)); reflexivity).
      assert (O5 : kvOps w5 = S (kvOps w4))
        by (subst w5; destruct (kvFails env (kvOps w4)); reflexivity).
      assert (F1 : kvFails env (kvOps w) = false) by (apply Hq; lia).
      assert (F2 : kvFails env (kvOps (tick w1)) = false) by (apply Hq; cbn; lia).
      assert (F3 : kvFails env (kvOps w2) = false) by (apply Hq; lia).
      assert (F4 : kvFails env (kvOps w3) = false) by (apply Hq; lia).
      assert (F5 : kvFails env (kvOps w4) = false) by (apply Hq; lia).
      clear S1 S2 S3 S4 S5 O1 O2 O3 O4 O5.
      subst w5. rewrite F5. subst w4. rewrite F4. subst w3. rewrite F3.
      subst w2. rewrite F2. subst w1. rewrite F1. cbn.
      rewrite lookup_delete_eq.
      rewrite !lookup_delete_ne by done.
      rewrite !lookup_insert_eq.
      rewrite !lookup_insert_ne by done. rewrite !lookup_insert_eq.
      rewrite !lookup_insert_ne by done. rewrite !lookup_insert_eq.
      done.
  - rewrite bind_safeKVWrite.
    set (w1 := if kvFails env (kvOps w) then _ else _).
    rewrite safeKVWrite_run.
    set (w2 := if kvFails env (kvOps w1) then _ else _).
    assert (S1 : persistStep r w w1)
      by (apply persistStep_write; [unfold PERSIST_KEYS; set_solver | done]).
    assert (S2 : persistStep r w1 w2)
      by (apply persistStep_write; [unfold PERSIST_KEYS; set_solver | done]).
    exists w2. split; [reflexivity |]. split.
    + eapply persistStep_trans; [exact S1 | exact S2].
    + intros Hq.
      assert (O1 : kvOps w1 = S (kvOps w))
        by (subst w1; destruct (kvFails env (kvOps w)); reflexivity).
      assert (O2 : kvOps w2 = S (kvOps w1))
        by (subst w2; destruct (kvFails env (kvOps w1)); reflexivity).
      assert (F1 : kvFails env (kvOps w) = false) by (apply Hq; lia).
      assert (F2 : kvFails env (kvOps w1) = false) by (apply Hq; lia).
      clear S1 S2 O1 O2.
      subst w2. rewrite F2. subst w1. rewrite F1. cbn.
      rewrite lookup_insert_ne by done. rewrite !lookup_insert_eq. done.
Qed.

End PersistFacts.

(** ** One chunk *)

Section ChunkFacts.

Context (env : Env).

Lemma buildFlairGroupsPaginatedChunk_spec fuel after0 start scanned0 page0 w out w' :
  buildFlairGroupsPaginatedChunk env fuel after0 start scanned0 page0 w = (out, w') →
  ChunkSpec env after0 start scanned0 page0 w out w'.
Proof.
  unfold buildFlairGroupsPaginatedChunk, startTimer.
  rewrite bind_dateNow. unfold bind at 1.
  match goal with |- context [chunkLoop env fuel ?cs ?t ?st ?x] =>
    destruct (chunkLoop env fuel cs t st x) as [exit w1] eqn:Hloop
  end.
  apply chunkLoop_spec in Hloop.
  inversion Hloop as
    [pages st' done w1' Hlog Hans Hfold Hpn Hcur Hshape Hframe Hscans Hops
    | pages bad w1' Hlog Hfatal Hframe Hops Hflags
    | pages w1' Hlog Hframe Hops
    | pages users next acc o n w1' Hlog Hfold Hthrew Hframe Hops]; subst;
    cbn [pageNumber currentAfter cumulativeFlairGroups cumulativeUsers
         tick fetchLog heap kv kvOps] in *.
  - (* the loop ended *)
    unfold bind at 1. unfold kvGet, kvOperation.
    destruct (kvFails env (kvOps w1)) eqn:Hread.
    + intros [= <- <-]. apply (chunk_read_failed _ _ _ _ _ _ pages); cbn; auto.
      intros Hq.
      assert (kvFails env (kvOps w1) = false) by (apply Hq; cbn; lia).
      congruence.
    + set (w2 := countKvOp w1).
      set (raw := kv w2 !! "flairScanStartedAt").
      assert (Hstamp : ∃ stamp w3,
                 (match raw with Some (JNum z) => ret z | _ => dateNow env end) w2
                 = (Returned stamp, w3) ∧ (w3 = w2 ∨ w3 = tick w2)).
      { destruct raw as [[| | z | |] |]; cbn; eauto. }
      destruct Hstamp as (stamp & w3 & Hrun & Hw3).
      unfold bind at 1. rewrite Hrun. unfold bind at 1.
      set (r := {| flairGroups := cumulativeFlairGroups st' |}).
      destruct (persist_run env r w3) as (w4 & -> & Hstep & Hpersisted).
      unfold ret. intros [= <- <-].
      destruct Hstep as (L4 & H4 & O4 & F4 & S4).
      assert (E3 : fetchLog w3 = fetchLog w1 ∧ heap w3 = heap w1 ∧ kv w3 = kv w1
                   ∧ kvOps w3 = S (kvOps w1))
        by (destruct Hw3 as [-> | ->]; cbn; auto).
      destruct E3 as (L3 & H3 & K3 & O3).
      apply (chunk_returned _ _ _ _ _ _ pages); cbn [flairGroups scannedUsers
        lastPageNumber after completed r].
      * congruence.
      * exact Hans.
      * rewrite H4, H3. exact Hfold.
      * by rewrite Hpn.
      * exact Hcur.
      * exact Hshape.
      * intros k Hk. rewrite F4 by (intros ?; apply Hk; unfold CHUNK_KEYS; set_solver).
        rewrite K3. apply Hframe. intros ?; apply Hk. unfold CHUNK_KEYS. set_solver.
      * intros k s Hs. apply S4 in Hs as [Hs | ->].
        -- left. rewrite K3 in Hs. by apply Hscans.
        -- right. by rewrite H4.
      * intros Hq. apply Hpersisted. intros i Hi. apply Hq. lia.
  - (* a fatal listing outcome *)
    intros [= <- <-]. apply (chunk_fatal _ _ _ _ _ _ pages); auto.
  - intros [= <- <-]. apply (chunk_fuel _ _ _ _ _ _ pages); auto.
  - intros [= <- <-].
    apply (chunk_push_threw _ _ _ _ _ _ pages users next acc o n); auto.
Qed.

End ChunkFacts.

(** ** Merging members: the heap against groups as values *)

Section MergeFacts.

Lemma snapshot_lookup (h : Heap) (o : Obj) f :
  snapshot h o !! f = o !! f ≫= λ l, h !! l.
Proof. unfold snapshot. apply lookup_omap. Qed.

Lemma mergeUser_skipped acc u : accepted u = false → mergeUser acc u = Some acc.
Proof.
  destruct acc as [[o h] n]. unfold accepted, mergeUser, labelOf.
  intros Hacc. apply negb_false_iff in Hacc. by rewrite Hacc.
Qed.

(** The accepted member's identifier is pushed on the array its label
    refers to; a label without one gets a new array, unless it is a
    name the object inherits, and then the push throws. *)
Lemma mergeUser_accepted (o : Obj) (h : Heap) n u :
  accepted u = true →
  mergeUser (o, h, n) u =
    match o !! labelOf u with
    | Some l => Some (o, alter (λ ids, ids ++ [identifierOf u]) l h, n + 1)
    | None =>
        if inherited (labelOf u) then None
        else Some (<[labelOf u := List.length h]> o, h ++ [[identifierOf u]], n + 1)
    end.
Proof.
  unfold accepted, mergeUser, truthyProperty.
  fold (labelOf u). fold (identifierOf u).
  intros Hacc. apply negb_true_iff in Hacc. rewrite Hacc.
  destruct (o !! labelOf u) as [l |] eqn:Hl.
  - rewrite bool_decide_eq_true_2 by eauto. cbn [orb]. by rewrite Hl.
  - rewrite bool_decide_eq_false_2 by (by intros [? ?]). cbn [orb].
    destruct (inherited (labelOf u)).
    + by rewrite Hl.
    + rewrite lookup_insert_eq.
      rewrite alter_app_r_alt by done. by rewrite Nat.sub_diag.
Qed.

(** The push throws exactly on an inherited name the object does not
    own. *)
Lemma mergeUser_throws (o : Obj) (h : Heap) n u :
  mergeUser (o, h, n) u = None ↔ pushThrows o u.
Proof.
  unfold pushThrows. destruct (accepted u) eqn:Hacc.
  - rewrite mergeUser_accepted by done.
    destruct (o !! labelOf u) as [l |]; [split; [done | by intros (_ & _ & ?)] |].
    destruct (inherited (labelOf u)); [done |]. split; [done | by intros (_ & ? & _)].
  - rewrite mergeUser_skipped by done. split; [done | by intros (? & _)].
Qed.

Lemma mergeUser_count acc u r :
  mergeUser acc u = Some r → r.2 = acc.2 + (if accepted u then 1 else 0).
Proof.
  destruct acc as [[o h] n]. destruct (accepted u) eqn:Hacc.
  - rewrite mergeUser_accepted by done.
    destruct (o !! labelOf u); [by intros [= <-] |].
    destruct (inherited (labelOf u)); [done | by intros [= <-]].
  - rewrite mergeUser_skipped by done. intros [= <-]. cbn. lia.
Qed.

Lemma mergeUser_allocated (o : Obj) (h : Heap) n u r :
  allocated h o → mergeUser (o, h, n) u = Some r → allocated r.1.2 r.1.1.
Proof.
  intros Hal. destruct (accepted u) eqn:Hacc.
  - rewrite mergeUser_accepted by done.
    destruct (o !! labelOf u) as [l |] eqn:Hl.
    + intros [= <-]. cbn. intros f l' Hf. rewrite length_alter. eauto.
    + destruct (inherited (labelOf u)); [done |]. intros [= <-]. cbn.
      intros f l' Hf. rewrite length_app. cbn.
      destruct (decide (labelOf u = f)) as [<- | Hne].
      * rewrite lookup_insert_eq in Hf. injection Hf as <-. lia.
      * rewrite lookup_insert_ne in Hf by done. apply Hal in Hf. lia.
  - rewrite mergeUser_skipped by done. by intros [= <-].
Qed.

(** The group of the member's label gains the identifier at its end. *)
Lemma mergeUser_appends (o : Obj) (h : Heap) n u r :
  allocated h o → accepted u = true → mergeUser (o, h, n) u = Some r →
  snapshot r.1.2 r.1.1 !! labelOf u
    = Some (default [] (snapshot h o !! labelOf u) ++ [identifierOf u]).
Proof.
  intros Hal Hacc. rewrite mergeUser_accepted by done.
  rewrite (snapshot_lookup h o).
  destruct (o !! labelOf u) as [l |] eqn:Hl.
  - intros [= <-]. cbn [fst snd].
    rewrite snapshot_lookup, Hl. cbn. rewrite list_lookup_alter_eq.
    destruct (lookup_lt_is_Some_2 h l (Hal _ _ Hl)) as [ids ->]. done.
  - destruct (inherited (labelOf u)); [done |]. intros [= <-]. cbn [fst snd].
    rewrite snapshot_lookup, lookup_insert_eq. cbn.
    by rewrite lookup_app_r, Nat.sub_diag by done.
Qed.

Lemma mergeUser_separate (o : Obj) (h : Heap) n u r :
  separate h o → mergeUser (o, h, n) u = Some r → separate r.1.2 r.1.1.
Proof.
  intros [Hal Hinj] Hrun. split; [by eapply mergeUser_allocated |].
  revert Hrun. destruct (accepted u) eqn:Hacc.
  - rewrite mergeUser_accepted by done.
    destruct (o !! labelOf u) as [l |] eqn:Hl; [by intros [= <-] |].
    destruct (inherited (labelOf u)); [done |]. intros [= <-]. cbn [fst snd].
    intros f1 f2 l'.
    destruct (decide (labelOf u = f1)) as [<- | N1];
      destruct (decide (labelOf u = f2)) as [<- | N2];
      rewrite ?lookup_insert_eq, ?lookup_insert_ne by done; try done.
    + intros [= <-] H2. apply Hal in H2. lia.
    + intros H1 [= <-]. apply Hal in H1. lia.
    + apply Hinj.
  - rewrite mergeUser_skipped by done. by intros [= <-].
Qed.

(** On an object whose labels own their arrays, the merge of a member
    is the merge on values. *)
Lemma mergeUser_value (o : Obj) (h : Heap) n u r :
  separate h o → mergeUser (o, h, n) u = Some r →
  snapshot r.1.2 r.1.1 = mergeUserG (snapshot h o) u.
Proof.
  intros [Hal Hinj] Hrun. unfold mergeUserG. destruct (accepted u) eqn:Hacc.
  2:{ rewrite mergeUser_skipped in Hrun by done. by injection Hrun as <-. }
  apply map_eq. intros f.
  destruct (decide (labelOf u = f)) as [<- | Hne].
  { rewrite lookup_insert_eq. by eapply mergeUser_appends. }
  rewrite lookup_insert_ne by done.
  rewrite mergeUser_accepted in Hrun by done.
  destruct (o !! labelOf u) as [l |] eqn:Hl.
  - injection Hrun as <-. cbn [fst snd].
    rewrite !snapshot_lookup. destruct (o !! f) as [l' |] eqn:Hf; cbn; [| done].
    apply list_lookup_alter_ne. intros ->. apply Hne. eapply Hinj; eauto.
  - destruct (inherited (labelOf u)); [done |]. injection Hrun as <-. cbn [fst snd].
    rewrite !snapshot_lookup. rewrite lookup_insert_ne by done.
    destruct (o !! f) as [l' |] eqn:Hf; cbn; [| done].
    apply lookup_app_l. eauto.
Qed.

Lemma countMembers_cons P users pages :
  countMembers P (users :: pages) = countMembers P [users] + countMembers P pages.
Proof.
  unfold countMembers. cbn [concat]. rewrite app_nil_r, filter_app, length_app. lia.
Qed.

Lemma countMembers_app P pages1 pages2 :
  countMembers P (pages1 ++ pages2) = countMembers P pages1 + countMembers P pages2.
Proof.
  unfold countMembers. rewrite concat_app, filter_app, length_app. lia.
Qed.

Lemma countMembers_member u users :
  countMembers accepted [u :: users]
    = (if accepted u then 1 else 0) + countMembers accepted [users].
Proof.
  unfold countMembers. cbn [concat]. rewrite !app_nil_r, filter_cons.
  destruct (accepted u); cbn.
  - rewrite decide_True by done. cbn [List.length]. lia.
  - rewrite decide_False by done. lia.
Qed.

Lemma mergePage_count users : ∀ acc r,
  mergePage acc users = Merged r → r.2 = acc.2 + countMembers accepted [users].
Proof.
  induction users as [| u users IH]; intros acc r; cbn [mergePage].
  - intros [= <-]. unfold countMembers. cbn. lia.
  - destruct (mergeUser acc u) as [acc1 |] eqn:Hm; [| done].
    intros Hrest. apply IH in Hrest. apply mergeUser_count in Hm.
    rewrite Hrest, Hm, countMembers_member. lia.
Qed.

Lemma mergePage_value users : ∀ (o : Obj) (h : Heap) n r,
  separate h o → mergePage (o, h, n) users = Merged r →
  separate r.1.2 r.1.1 ∧
  snapshot r.1.2 r.1.1 = mergePageG (snapshot h o) users ∧
  r.2 = n + countMembers accepted [users].
Proof.
  intros o h n r Hsep Hrun. split; [| split].
  - revert o h n Hsep Hrun.
    induction users as [| u users IH]; intros o h n Hsep; cbn [mergePage].
    + by intros [= <-].
    + destruct (mergeUser (o, h, n) u) as [[[o1 h1] n1] |] eqn:Hm; [| done].
      apply IH. by apply (mergeUser_separate o h n u _ Hsep Hm).
  - revert o h n Hsep Hrun. unfold mergePageG.
    induction users as [| u users IH]; intros o h n Hsep; cbn [mergePage fold_left].
    + by intros [= <-].
    + destruct (mergeUser (o, h, n) u) as [[[o1 h1] n1] |] eqn:Hm; [| done].
      intros Hrest.
      rewrite <- (mergeUser_value o h n u _ Hsep Hm). cbn [fst snd].
      apply (IH o1 h1 n1); [| exact Hrest].
      by apply (mergeUser_separate o h n u _ Hsep Hm).
  - by apply (mergePage_count users (o, h, n) r).
Qed.

(** A page whose merge threw holds a member whose push throws on the
    object as it then is. *)
Lemma mergePage_threw users : ∀ acc s,
  mergePage acc users = PushThrew s → ∃ u, u ∈ users ∧ pushThrows s.1.1 u.
Proof.
  induction users as [| u users IH]; intros acc s; cbn [mergePage]; [done |].
  destruct (mergeUser acc u) as [acc1 |] eqn:Hm.
  - intros Hrest. apply IH in Hrest as (u' & Hin & Hthrows).
    exists u'. split; [by right | done].
  - intros [= <-]. exists u. split; [by left |].
    destruct acc as [[o h] n]. by apply (mergeUser_throws o h n u).
Qed.

(** The merge adds labels to the object and never removes one. *)
Lemma mergeUser_keeps (o : Obj) (h : Heap) n u r f :
  mergeUser (o, h, n) u = Some r → r.1.1 !! f = None → o !! f = None.
Proof.
  destruct (accepted u) eqn:Hacc.
  - rewrite mergeUser_accepted by done.
    destruct (o !! labelOf u) as [l |] eqn:Hl; [by intros [= <-] |].
    destruct (inherited (labelOf u)); [done |]. intros [= <-]. cbn [fst snd].
    destruct (decide (labelOf u = f)) as [<- | Hne].
    + by rewrite lookup_insert_eq.
    + by rewrite lookup_insert_ne.
  - rewrite mergeUser_skipped by done. by intros [= <-].
Qed.

Lemma mergePage_keeps users f : ∀ acc s,
  mergePage acc users = Merged s ∨ mergePage acc users = PushThrew s →
  s.1.1 !! f = None → acc.1.1 !! f = None.
Proof.
  induction users as [| u users IH]; intros acc s; cbn [mergePage].
  - by intros [[= <-] | ?].
  - destruct (mergeUser acc u) as [acc1 |] eqn:Hm.
    + intros Hrest Hs. destruct acc as [[o h] n].
      apply (mergeUser_keeps o h n u acc1 f Hm). by apply (IH acc1 s).
    + by intros [? | [= <-]].
Qed.

Lemma mergePages_keeps pages f : ∀ acc s,
  mergePages acc pages = Merged s → s.1.1 !! f = None → acc.1.1 !! f = None.
Proof.
  induction pages as [| users pages IH]; intros acc s; cbn [mergePages].
  - by intros [= <-].
  - destruct (mergePage acc users) as [acc1 |] eqn:Hm; [| done].
    intros Hrest Hs. apply (mergePage_keeps users f acc acc1); [by left |].
    by apply (IH acc1 s).
Qed.

Lemma mergePages_app pages1 pages2 : ∀ acc,
  mergePages acc (pages1 ++ pages2)
    = match mergePages acc pages1 with
      | Merged acc1 => mergePages acc1 pages2
      | PushThrew acc1 => PushThrew acc1
      end.
Proof.
  induction pages1 as [| users pages1 IH]; intros acc; cbn [app mergePages]; [done |].
  by destruct (mergePage acc users).
Qed.

Lemma mergePages_count pages : ∀ acc r,
  mergePages acc pages = Merged r → r.2 = acc.2 + countMembers accepted pages.
Proof.
  induction pages as [| users pages IH]; intros acc r; cbn [mergePages].
  - intros [= <-]. unfold countMembers. cbn. lia.
  - destruct (mergePage acc users) as [acc1 |] eqn:Hm; [| done].
    intros Hrest. apply IH in Hrest. apply mergePage_count in Hm.
    rewrite Hrest, Hm, (countMembers_cons _ users pages). lia.
Qed.

Lemma mergePages_value pages : ∀ (o : Obj) (h : Heap) n r,
  separate h o → mergePages (o, h, n) pages = Merged r →
  separate r.1.2 r.1.1 ∧
  snapshot r.1.2 r.1.1 = fold_left mergePageG pages (snapshot h o).
Proof.
  induction pages as [| users pages IH]; intros o h n r Hsep;
    cbn [mergePages fold_left].
  - by intros [= <-].
  - destruct (mergePage (o, h, n) users) as [[[o1 h1] n1] |] eqn:Hm; [| done].
    destruct (mergePage_value users o h n _ Hsep Hm) as (Hs & Hv & _).
    cbn [fst snd] in Hs, Hv. intros Hrest.
    destruct (IH o1 h1 n1 r Hs Hrest) as (Hs2 & Hv2).
    split; [exact Hs2 |]. by rewrite Hv2, Hv.
Qed.

Lemma totalIdentifiers_insert (g : Groups) f ids :
  totalIdentifiers (<[f := ids]> g)
    = totalIdentifiers g
      - Z.of_nat (List.length (default [] (g !! f))) + Z.of_nat (List.length ids).
Proof.
  unfold totalIdentifiers.
  destruct (g !! f) as [old |] eqn:Hf; cbn [default].
  - rewrite <- insert_delete_eq.
    rewrite map_fold_insert_L; [| intros; lia | apply lookup_delete_eq].
    rewrite (map_fold_delete_L _ _ f old g); [cbn beta; unfold id; lia | intros; lia | done].
  - rewrite map_fold_insert_L; [cbn beta; cbn [List.length]; lia | intros; lia | done].
Qed.

Lemma totalIdentifiers_mergeUserG g u :
  totalIdentifiers (mergeUserG g u)
    = totalIdentifiers g + (if accepted u then 1 else 0).
Proof.
  unfold mergeUserG. destruct (accepted u); [| lia].
  rewrite totalIdentifiers_insert, length_app. cbn [List.length]. lia.
Qed.

Lemma totalIdentifiers_mergePages pages : ∀ g,
  totalIdentifiers (fold_left mergePageG pages g)
    = totalIdentifiers g + countMembers accepted pages.
Proof.
  induction pages as [| users pages IH]; intros g; cbn [fold_left].
  - unfold countMembers. cbn [concat]. rewrite filter_nil. cbn [List.length]. lia.
  - rewrite IH, (countMembers_cons _ users pages).
    enough (∀ g, totalIdentifiers (mergePageG g users)
                 = totalIdentifiers g + countMembers accepted [users]) as -> by lia.
    clear. unfold mergePageG, countMembers. cbn [concat]. rewrite app_nil_r.
    induction users as [| u users IH]; intros g; cbn [fold_left].
    + rewrite filter_nil. cbn [List.length]. lia.
    + rewrite IH, totalIdentifiers_mergeUserG, filter_cons.
      destruct (accepted u); cbn.
      * rewrite decide_True by done. cbn [List.length]. lia.
      * rewrite decide_False by done. lia.
Qed.

End MergeFacts.

(** ** Runs of chunks *)

Section ChunksFacts.

Context (env : Env).

Lemma callsFor_app (pages1 pages2 : list Page) : ∀ cursor,
  callsFor cursor (pages1 ++ pages2)
    = callsFor cursor pages1 ++ callsFor (lastCursor cursor pages1) pages2.
Proof.
  induction pages1 as [| [users next] pages1 IH]; intros cursor; cbn; [done |].
  by rewrite IH.
Qed.

Lemma lastCursor_app (pages1 pages2 : list Page) : ∀ cursor,
  lastCursor cursor (pages1 ++ pages2) = lastCursor (lastCursor cursor pages1) pages2.
Proof.
  induction pages1 as [| [users next] pages1 IH]; intros cursor; cbn; [done |].
  by rewrite IH.
Qed.

Lemma length_callsFor (pages : list Page) : ∀ cursor,
  List.length (callsFor cursor pages) = List.length pages.
Proof.
  induction pages as [| [users next] pages IH]; intros cursor; cbn; [done |].
  by rewrite IH.
Qed.

Lemma answers_app calls1 calls2 : ∀ n,
  answers env n calls1 → answers env (n + List.length calls1) calls2 →
  answers env n (calls1 ++ calls2).
Proof.
  induction calls1 as [| [c o] calls1 IH]; intros n; cbn.
  - rewrite Nat.add_0_r. auto.
  - intros [Hc H1] H2. split; [exact Hc |]. apply IH; [exact H1 |].
    by rewrite Nat.add_succ_comm.
Qed.

Lemma pagesShape_app (pages1 pages2 : list Page) (done : bool) :
  pagesShape false pages1 → pagesShape done pages2 →
  pagesShape done (pages1 ++ pages2).
Proof.
  induction pages1 as [| [users next] pages1 IH]; cbn; [auto |].
  destruct (truthyCursor next); [auto |]. by intros [_ ?].
Qed.

Lemma pagesOf_callsFor (pages : list Page) : ∀ cursor,
  pagesOf (callsFor cursor pages) = pages.*1.
Proof.
  unfold pagesOf.
  induction pages as [| [users next] pages IH]; intros cursor; cbn; [done |].
  by rewrite IH.
Qed.

Lemma callsSince_app w w' calls :
  fetchLog w' = fetchLog w ++ calls → callsSince w w' = calls.
Proof. unfold callsSince. intros ->. by rewrite drop_app_length. Qed.

(** A run of chunks, seen as one merge of the pages it was given. *)
Lemma chunks_spec w r w' r' :
  chunks env w r w' r' →
  ∃ pages : list Page,
    fetchLog w' = fetchLog w ++ callsFor (after r) pages ∧
    answers env (List.length (fetchLog w)) (callsFor (after r) pages) ∧
    mergePages (flairGroups r, heap w, scannedUsers r) pages.*1
      = Merged (flairGroups r', heap w', scannedUsers r') ∧
    after r' = lastCursor (after r) pages ∧
    pagesShape (completed r') pages.
Proof.
  induction 1 as [fuel w r w' r' Hrun | fuel w r w1 r1 w' r' Hrun Hpartial _ IH].
  - apply buildFlairGroupsPaginatedChunk_spec in Hrun.
    inversion Hrun as [pages r0 w0 Hlog Hans Hfold Hpn Hcur Hshape _ _ _ | | | |]; subst.
    exists pages. auto.
  - apply buildFlairGroupsPaginatedChunk_spec in Hrun.
    inversion Hrun as [pages1 r0 w0 Hlog1 Hans1 Hfold1 Hpn1 Hcur1 Hshape1 _ _ _ | | | |]; subst.
    destruct IH as (pages2 & Hlog2 & Hans2 & Hfold2 & Hcur2 & Hshape2).
    exists (pages1 ++ pages2).
    rewrite Hcur1 in Hlog2, Hans2, Hcur2. rewrite Hpartial in Hshape1.
    split; [| split; [| split; [| split]]].
    + rewrite Hlog2, Hlog1, callsFor_app. by rewrite <- app_assoc.
    + rewrite callsFor_app. apply answers_app; [exact Hans1 |].
      by rewrite Hlog1, length_app in Hans2.
    + rewrite fmap_app, mergePages_app, Hfold1. exact Hfold2.
    + by rewrite lastCursor_app.
    + by apply pagesShape_app.
Qed.

Lemma chunks_scanned w r w' r' :
  chunks env w r w' r' →
  scannedUsers r'
    = scannedUsers r + countMembers accepted (pagesOf (callsSince w w')).
Proof.
  intros Hrun. apply chunks_spec in Hrun as (pages & Hlog & _ & Hfold & _).
  rewrite (callsSince_app _ _ _ Hlog), pagesOf_callsFor.
  exact (mergePages_count _ _ _ Hfold).
Qed.

End ChunksFacts.

(** ** The two-page listing *)

Section TwoPages.

Context (env : Env) (w : World).
Context (a b c d e f : option string) (next1 : option string).

Hypothesis first_page : ∀ cursor,
  getUserFlair env (List.length (fetchLog w)) cursor
    = FetchReturns (RespObject
        (Some [labelled "gold" a; labelled "gold" b; labelled "silver" c]) next1).
Hypothesis second_page : ∀ cursor,
  getUserFlair env (S (List.length (fetchLog w))) cursor
    = FetchReturns (RespObject
        (Some [labelled "gold" d; labelled "silver" e; labelled "silver" f]) None).
Hypothesis first_has_next : truthyCursor next1 = true.

Lemma twoPages_cases (pages : list Page) cursor (done : bool) :
  answers env (List.length (fetchLog w)) (callsFor cursor pages) →
  pagesShape done pages →
  (done = false ∧ (List.length pages < 2)%nat) ∨
  (done = true ∧
   pages.*1 = [[labelled "gold" a; labelled "gold" b; labelled "silver" c];
               [labelled "gold" d; labelled "silver" e; labelled "silver" f]]).
Proof.
  destruct pages as [| [users1 n1] pages]; cbn [callsFor answers pagesShape].
  { intros _ ->. left. cbn. split; [done | lia]. }
  intros [H1 Hrest]. rewrite first_page in H1. injection H1 as <- <-.
  rewrite first_has_next.
  destruct pages as [| [users2 n2] pages]; cbn [callsFor answers pagesShape].
  { intros ->. left. cbn. split; [done | lia]. }
  destruct Hrest as [H2 _]. rewrite second_page in H2. injection H2 as <- <-.
  cbn [truthyCursor]. intros [-> ->]. by right.
Qed.

Lemma twoPages_groups :
  fold_left mergePageG
    [[labelled "gold" a; labelled "gold" b; labelled "silver" c];
     [labelled "gold" d; labelled "silver" e; labelled "silver" f]] ∅
    = {[ "gold" := [default "Unknown" a; default "Unknown" b; default "Unknown" d];
         "silver" := [default "Unknown" c; default "Unknown" e; default "Unknown" f] ]}.
Proof.
  cbn [fold_left mergePageG]. unfold mergeUserG.
  change (accepted (labelled "gold" _)) with true.
  change (accepted (labelled "silver" _)) with true.
  change (labelOf (labelled "gold" _)) with "gold".
  change (labelOf (labelled "silver" _)) with "silver".
  cbn [identifierOf labelled user].
  apply map_eq. intros k.
  destruct (decide (k = "gold")) as [-> | Ng];
    [| destruct (decide (k = "silver")) as [-> | Ns]];
    repeat (rewrite ?lookup_insert_eq, ?lookup_insert_ne, ?lookup_empty,
              ?lookup_singleton_eq, ?lookup_singleton_ne by done;
            cbn [default from_option]); try done.
Qed.

End TwoPages.

Lemma separate_empty (h : Heap) : separate h ∅.
Proof. split; intros *; by rewrite lookup_empty. Qed.

Lemma snapshot_empty (h : Heap) : snapshot h ∅ = ∅.
Proof. unfold snapshot. apply omap_empty. Qed.




(** ** Page numbering *)

(** One chunk numbers the pages it merged from its starting number on,
    and counts one more when it stopped on the time budget. *)
Lemma chunk_lastPageNumber env fuel after0 start scanned0 page0 w r w' :
  buildFlairGroupsPaginatedChunk env fuel after0 start scanned0 page0 w = (Returned r, w') →
  lastPageNumber r
    = Some (page0 + Z.of_nat (List.length (callsSince w w'))
            + (if completed r then 0 else 1)).
Proof.
  intros Hrun. apply buildFlairGroupsPaginatedChunk_spec in Hrun.
  inversion Hrun as [pages r0 w0 Hlog _ _ Hpn _ _ _ _ _ | | | |]; subst.
  by rewrite (callsSince_app _ _ _ Hlog), length_callsFor.
Qed.

(** Within a run of chunks the page number never decreases. *)
Lemma chunks_lastPageNumber_mono env w r w' r' :
  chunks env w r w' r' →
  ∃ n, lastPageNumber r' = Some n ∧ (default 0 (lastPageNumber r) <= n)%Z.
Proof.
  induction 1 as [fuel w r w' r' Hrun | fuel w r w1 r1 w' r' Hrun Hpartial _ IH].
  - apply chunk_lastPageNumber in Hrun. rewrite Hrun. eexists. split; [done |].
    destruct (completed r'); lia.
  - apply chunk_lastPageNumber in Hrun. destruct IH as (n & Hn & Hle).
    exists n. split; [done |]. rewrite Hrun in Hle. cbn in Hle.
    rewrite Hpartial in Hle. lia.
Qed.

(** C2. The code counts a page it never fetched: with a budget that runs
    out after the first page of the first chunk, two chunks fetch the two
    pages of the listing and the final lastPageNumber is 3. *)
Theorem C2_page_number_counts_budget_stop :
  Examples.slowChunk1
    = (Returned (Examples.resultOf Examples.slowChunk1), Examples.slowChunk1.2) ∧
  Examples.slowChunk2
    = (Returned (Examples.resultOf Examples.slowChunk2), Examples.slowChunk2.2) ∧
  completed (Examples.resultOf Examples.slowChunk1) = false ∧
  lastPageNumber (Examples.resultOf Examples.slowChunk1) = Some 2 ∧
  List.length (callsSince Examples.emptyWorld Examples.slowChunk1.2) = 1%nat ∧
  completed (Examples.resultOf Examples.slowChunk2) = true ∧
  List.length (callsSince Examples.emptyWorld Examples.slowChunk2.2) = 2%nat ∧
  lastPageNumber (Examples.resultOf Examples.slowChunk2) = Some 3.
Proof.
  split; [by_evaluation |].
  split; [by_evaluation |].
  split; [by_evaluation |].
  split; [by_evaluation |].
  split; [by_evaluation |].
  split; [by_evaluation |].
  split; by_evaluation.
Qed.

(** ** Fatal listing outcomes *)

Lemma callsFor_last_not_fatal (pages : list Page) : ∀ cursor c o,
  last (callsFor cursor pages) = Some (c, o) → fatal o = false.
Proof.
  induction pages as [| [users next] pages IH]; intros cursor c o; cbn [callsFor].
  - done.
  - destruct pages as [| p pages].
    + cbn. by intros [= <- <-].
    + cbn [callsFor] in *. destruct p as [users2 next2].
      rewrite last_cons_cons. apply IH.
Qed.

(** The errors a chunk can throw: the fatal listing outcome, the
    unguarded read of flairScanStartedAt, or the push on a value the
    aggregate inherits, for a member of the last page fetched. *)
Lemma chunk_thrown env fuel after0 start scanned0 page0 w e w' :
  buildFlairGroupsPaginatedChunk env fuel after0 start scanned0 page0 w = (Threw e, w') →
  (∃ cursor bad, last (callsSince w w') = Some (cursor, bad) ∧ fatal bad = true
                 ∧ e = failureOf bad)
  ∨ (e = KVError "flairScanStartedAt" ∧ ¬ storeHealthy env w w')
  ∨ (e = NotAFunction ∧
     ∃ cursor users next u,
       last (callsSince w w') = Some (cursor, FetchReturns (RespObject (Some users) next)) ∧
       u ∈ users ∧ pushThrows start u ∧
       kvFrame ["flairScanHeartbeat"] w w').
Proof.
  intros Hrun. apply buildFlairGroupsPaginatedChunk_spec in Hrun.
  inversion Hrun as
    [| pages bad w0 Hlog Hfatal _ _ | pages w0 Hlog _ Hsick |
     | pages users next acc o n w0 Hlog Hfold Hthrew Hframe]; subst.
  - left. exists (lastCursor after0 pages), bad.
    rewrite (callsSince_app _ _ _ Hlog), last_snoc. auto.
  - right. left. auto.
  - right. right. split; [done |].
    exists (lastCursor after0 pages), users, next.
    pose proof (mergePage_threw users acc _ Hthrew) as (u & Hin & Hacc & Hname & Hfree).
    exists u. split.
    { rewrite (callsSince_app _ _ _ Hlog), callsFor_app. cbn [callsFor].
      by rewrite last_snoc. }
    split; [exact Hin |]. split; [| exact Hframe].
    split; [exact Hacc |]. split; [exact Hname |]. cbn [fst] in Hfree.
    apply (mergePages_keeps pages.*1 (labelOf u) (start, heap w, scanned0) acc Hfold).
    apply (mergePage_keeps users (labelOf u) acc (o, heap w', n)); [by right | exact Hfree].
Qed.

(** C3 (amended). When the last listing call of a chunk threw or gave a
    page without a member array, the chunk throws that failure to its
    caller and leaves flairScanResult as it was; and provided the store
    operations of the chunk went through, flairScanFailed = true, the
    message of the failure and flairScanInProgress = false are in the
    store. *)
Theorem C3_fatal_page_fails_the_scan
    env fuel after0 start scanned0 page0 w out w' cursor bad :
  buildFlairGroupsPaginatedChunk env fuel after0 start scanned0 page0 w = (out, w') →
  last (callsSince w w') = Some (cursor, bad) →
  fatal bad = true →
  out = Threw (failureOf bad) ∧
  kv w' !! "flairScanResult" = kv w !! "flairScanResult" ∧
  (storeHealthy env w w' →
   kv w' !! "flairScanFailed" = Some (JBool true) ∧
   kv w' !! "flairScanFailedMessage" = Some (JStr (failureMessage bad)) ∧
   kv w' !! "flairScanInProgress" = Some (JBool false)).
Proof.
  intros Hrun Hlast Hbad. apply buildFlairGroupsPaginatedChunk_spec in Hrun.
  inversion Hrun as
    [pages r w0 Hlog _ _ _ _ _ _ _ _
    | pages bad' w0 Hlog Hfatal Hframe Hflags
    | pages w0 Hlog _ _
    | pages w0 Hlog _
    | pages users next acc o n w0 Hlog _ _ _]; subst;
    try (rewrite (callsSince_app _ _ _ Hlog) in Hlast;
         apply callsFor_last_not_fatal in Hlast; congruence).
  rewrite (callsSince_app _ _ _ Hlog), last_snoc in Hlast.
  injection Hlast as _ <-.
  split; [done |]. split; [| exact Hflags].
  apply Hframe. unfold FAILURE_KEYS. set_solver.
Qed.

(** C3, as first stated, fails: the write of flairScanFailed can itself
    fail, and is then skipped. *)
Lemma C3_counterexample :
  Examples.brokenTwiceRun.1 = Threw (FetchError "Error: listing unavailable") ∧
  kv Examples.brokenTwiceRun.2 !! "flairScanFailed" = None.
Proof. split; by_evaluation. Qed.

Lemma C3_witness :
  Examples.brokenRun.1 = Threw (FetchError "Error: listing unavailable") ∧
  kv Examples.brokenRun.2 !! "flairScanResult" = None ∧
  kv Examples.brokenRun.2 !! "flairScanFailed" = Some (JBool true) ∧
  kv Examples.brokenRun.2 !! "flairScanFailedMessage"
    = Some (JStr "Error: listing unavailable") ∧
  kv Examples.brokenRun.2 !! "flairScanInProgress" = Some (JBool false).
Proof.
  destruct (C3_fatal_page_fails_the_scan Examples.broken 5 None ∅ 0 0
              Examples.emptyWorld Examples.brokenRun.1 Examples.brokenRun.2
              (Some "t1") (FetchThrows "Error: listing unavailable"))
    as (Hout & Hres & Hflags).
  - vm_compute. reflexivity.
  - vm_compute. reflexivity.
  - reflexivity.
  - split; [exact Hout |]. split; [exact Hres |].
    apply Hflags. intros i Hi. reflexivity.
Defined.

(** ** Cursor and completion *)

Lemma pagesShape_done_cursor (pages : list Page) : ∀ cursor,
  pagesShape true pages → truthyCursor (lastCursor cursor pages) = false.
Proof.
  induction pages as [| [users next] pages IH]; intros cursor; cbn.
  - done.
  - destruct (truthyCursor next) eqn:Hnext; [apply IH |].
    intros [-> _]. exact Hnext.
Qed.

(** C8 (amended). A checkpoint returned by a chunk with completed = true
    has no cursor to go on with: after is null or the empty string; so a
    checkpoint with a non-empty after has completed = false.  The same
    holds of every checkpoint the chunk put in the store, which is the
    returned one. *)
Theorem C8_completed_has_no_cursor
    env fuel after0 start scanned0 page0 w r w' :
  buildFlairGroupsPaginatedChunk env fuel after0 start scanned0 page0 w = (Returned r, w') →
  (completed r = true → truthyCursor (after r) = false) ∧
  (truthyCursor (after r) = true → completed r = false) ∧
  (∀ key s, kv w' !! key = Some (JScan s) → kv w !! key ≠ Some (JScan s) →
            s = toJSON (heap w') r ∧
            (completed s = true → truthyCursor (after s) = false)).
Proof.
  intros Hrun. apply buildFlairGroupsPaginatedChunk_spec in Hrun.
  inversion Hrun as [pages r0 w0 Hlog _ _ _ Hcur Hshape _ Hscans _ | | | |]; subst.
  assert (Hdone : completed r = true → truthyCursor (after r) = false).
  { intros Hc. rewrite Hc in Hshape. rewrite Hcur. by apply pagesShape_done_cursor. }
  split; [exact Hdone |]. split.
  - intros Hcursor. destruct (completed r); [| done].
    rewrite Hdone in Hcursor; done.
  - intros key s Hs Hnew. apply Hscans in Hs as [Hs | ->]; [done |].
    split; [done |]. exact Hdone.
Qed.

(** C8, as first stated, fails: a page whose next-token is the empty
    string ends the scan, and the checkpoint keeps that token. *)
Lemma C8_counterexample :
  Examples.emptyTokenRun
    = (Returned (Examples.resultOf Examples.emptyTokenRun), Examples.emptyTokenRun.2) ∧
  completed (Examples.resultOf Examples.emptyTokenRun) = true ∧
  after (Examples.resultOf Examples.emptyTokenRun) = Some "" ∧
  after (Examples.resultOf Examples.emptyTokenRun) ≠ None.
Proof.
  split; [by_evaluation |].
  split; [by_evaluation |].
  split; [by_evaluation |].
  vm_compute. discriminate.
Qed.

Lemma C8_witness :
  (completed (Examples.resultOf Examples.calmRun) = true →
   truthyCursor (after (Examples.resultOf Examples.calmRun)) = false) ∧
  (truthyCursor (after (Examples.resultOf Examples.calmRun)) = true →
   completed (Examples.resultOf Examples.calmRun) = false) ∧
  (∀ key s, kv Examples.calmRun.2 !! key = Some (JScan s) →
            kv Examples.emptyWorld !! key ≠ Some (JScan s) →
            s = toJSON (heap Examples.calmRun.2) (Examples.resultOf Examples.calmRun) ∧
            (completed s = true → truthyCursor (after s) = false)).
Proof.
  apply (C8_completed_has_no_cursor Examples.calm 5 None ∅ 0 0 Examples.emptyWorld).
  vm_compute. reflexivity.
Defined.

(** ** Members and groups *)

(** C9 (amended). A member whose label is empty, absent or only white
    space is skipped: the object, the heap and the count stay as they
    were.  Every other member, when its trimmed label is a label of the
    object or is not a name objects inherit from Object.prototype, has
    its identifier, "Unknown" when it has none, appended to the group of
    its trimmed label, and the count grows by exactly one. *)
Theorem C9_member_merge (o : Obj) (h : Heap) (n : Z) (u : UserFlair) :
  allocated h o →
  (hasLabel u = false → accepted u = false) ∧
  (accepted u = false → mergeUser (o, h, n) u = Some (o, h, n)) ∧
  (accepted u = true →
   is_Some (o !! JSString.trim (default "" (flairText u)))
   ∨ inherited (JSString.trim (default "" (flairText u))) = false →
   ∃ o' h',
     mergeUser (o, h, n) u = Some (o', h', n + 1) ∧
     snapshot h' o' !! JSString.trim (default "" (flairText u))
       = Some (default [] (snapshot h o !! JSString.trim (default "" (flairText u)))
               ++ [default "Unknown" (user u)])).
Proof.
  intros Hal. split; [| split].
  - unfold hasLabel, accepted, labelOf. by destruct (flairText u) as [[] |].
  - apply mergeUser_skipped.
  - intros Hacc Hname.
    destruct (mergeUser (o, h, n) u) as [[[o' h'] n'] |] eqn:Hrun.
    + pose proof (mergeUser_count _ _ _ Hrun) as Hcount.
      rewrite Hacc in Hcount. cbn [snd] in Hcount. subst n'.
      exists o', h'. split; [done |].
      exact (mergeUser_appends o h n u _ Hal Hacc Hrun).
    + apply mergeUser_throws in Hrun as (_ & Hinherited & Hfree).
      fold (labelOf u) in Hname. rewrite Hfree, Hinherited in Hname.
      by destruct Hname as [[? ?] | ?].
Qed.

(** C9, as first stated, fails: the label of one space is not empty, and
    its member is skipped. *)
Lemma C9_counterexample :
  hasLabel (Examples.member "u1" " ") = true ∧
  mergeUser (∅, [], 0) (Examples.member "u1" " ") = Some (∅, [], 0).
Proof. split; reflexivity. Qed.

Lemma C9_witness :
  (hasLabel (Examples.member "b" " gold") = false →
   accepted (Examples.member "b" " gold") = false) ∧
  (accepted (Examples.member "b" " gold") = false →
   mergeUser (Examples.callerGroups, [["a"]], 1) (Examples.member "b" " gold")
     = Some (Examples.callerGroups, [["a"]], 1)) ∧
  (accepted (Examples.member "b" " gold") = true →
   is_Some (Examples.callerGroups
              !! JSString.trim (default "" (flairText (Examples.member "b" " gold"))))
   ∨ inherited (JSString.trim (default "" (flairText (Examples.member "b" " gold")))) = false →
   ∃ o' h',
     mergeUser (Examples.callerGroups, [["a"]], 1) (Examples.member "b" " gold")
       = Some (o', h', 1 + 1) ∧
     snapshot h' o' !! JSString.trim (default "" (flairText (Examples.member "b" " gold")))
       = Some (default [] (snapshot [["a"]] Examples.callerGroups
                             !! JSString.trim (default "" (flairText (Examples.member "b" " gold"))))
               ++ [default "Unknown" (user (Examples.member "b" " gold"))])).
Proof.
  apply (C9_member_merge Examples.callerGroups [["a"]] 1 (Examples.member "b" " gold")).
  intros f l. unfold Examples.callerGroups.
  destruct (decide (f = "gold")) as [-> | Hne].
  - rewrite lookup_singleton_eq. intros [= <-]. cbn. lia.
  - by rewrite lookup_singleton_ne.
Defined.

(** C10. A chunk started on an aggregate whose labels own their arrays,
    with a count equal to the number of identifiers in it, returns a
    checkpoint whose scannedUsers is the number of identifiers in its
    groups, and whose labels again own their arrays. *)
Theorem C10_count_matches_groups
    env fuel after0 (start : Obj) scanned0 page0 w r w' :
  separate (heap w) start →
  scanned0 = totalIdentifiers (snapshot (heap w) start) →
  buildFlairGroupsPaginatedChunk env fuel after0 start scanned0 page0 w = (Returned r, w') →
  scannedUsers r = totalIdentifiers (snapshot (heap w') (flairGroups r)) ∧
  separate (heap w') (flairGroups r).
Proof.
  intros Hsep Hcount Hrun. apply buildFlairGroupsPaginatedChunk_spec in Hrun.
  inversion Hrun as [pages r0 w0 _ _ Hfold _ _ _ _ _ _ | | | |]; subst.
  destruct (mergePages_value pages.*1 start (heap w)
              (totalIdentifiers (snapshot (heap w) start)) _ Hsep Hfold) as [Hs Hv].
  pose proof (mergePages_count _ _ _ Hfold) as Hc.
  cbn [fst snd] in Hs, Hv, Hc.
  split; [| exact Hs].
  by rewrite Hv, totalIdentifiers_mergePages.
Qed.

Lemma C10_witness :
  scannedUsers (Examples.resultOf Examples.callerRun)
    = totalIdentifiers (snapshot (heap Examples.callerRun.2)
                          (flairGroups (Examples.resultOf Examples.callerRun))) ∧
  separate (heap Examples.callerRun.2) (flairGroups (Examples.resultOf Examples.callerRun)).
Proof.
  apply (C10_count_matches_groups Examples.onePage 5 None Examples.callerGroups 1 0
           Examples.callerWorld).
  - unfold Examples.callerGroups. split.
    + intros f l. destruct (decide (f = "gold")) as [-> | Hne].
      * rewrite lookup_singleton_eq. intros [= <-]. cbn. lia.
      * by rewrite lookup_singleton_ne.
    + intros f1 f2 l.
      destruct (decide (f1 = "gold")) as [-> | N1]; [| by rewrite lookup_singleton_ne].
      destruct (decide (f2 = "gold")) as [-> | N2]; [done |].
      rewrite (lookup_singleton_ne "gold" f2) by done. intros _ [=].
  - vm_compute. reflexivity.
  - vm_compute. reflexivity.
Defined.

(** C4. The caller's aggregate is mutated: the copy made by the chunk is
    shallow, and the identifier of a fetched member is pushed on the
    caller's own array for that label. *)
Theorem C4_caller_groups_mutated :
  Examples.callerRun
    = (Returned (Examples.resultOf Examples.callerRun), Examples.callerRun.2) ∧
  snapshot (heap Examples.callerWorld) Examples.callerGroups !! "gold" = Some ["a"] ∧
  snapshot (heap Examples.callerRun.2) Examples.callerGroups !! "gold" = Some ["a"; "b"].
Proof.
  split; [by_evaluation |].
  split; by_evaluation.
Qed.

(** ** Storage failures *)

(** The wrappers never throw. *)
Lemma safe_wrappers_return env key v w :
  (safeKVWrite env key v w).1 = Returned tt ∧ (safeKVDelete env key w).1 = Returned tt.
Proof. by rewrite safeKVWrite_run, safeKVDelete_run. Qed.

(** C6. A failing read of flairScanStartedAt is not contained: after both
    pages were merged the chunk throws the storage error, and neither a
    result nor a partial checkpoint is stored. *)
Theorem C6_store_read_failure_escapes :
  Examples.unreadableRun.1 = Threw (KVError "flairScanStartedAt") ∧
  List.length (callsSince Examples.emptyWorld Examples.unreadableRun.2) = 2%nat ∧
  kv Examples.unreadableRun.2 !! "flairScanResult" = None ∧
  kv Examples.unreadableRun.2 !! "flairScanPartial" = None ∧
  kv Examples.unreadableRun.2 !! "flairScanFailed" = None.
Proof.
  split; [by_evaluation |].
  split; [by_evaluation |].
  split; [by_evaluation |].
  split; by_evaluation.
Qed.

(** ** The timeout setting *)

Lemma timeoutSeconds_absent : timeoutSeconds SUndefined = Num 30 ∧ timeoutSeconds SNull = Num 30.
Proof. split; reflexivity. Qed.

(** C7. An unparsable setting gives NaN, not 30: parseInt yields NaN,
    which is of type number, and with it the time budget is spent from
    the start. *)
Theorem C7_unparsable_timeout_is_NaN :
  timeoutSeconds (SStr "abc") = NaN ∧
  timeoutSeconds (SStr "") = NaN ∧
  (∀ env start w, (isTimeRemaining env start (timeoutSeconds (SStr "abc")) w).1
                  = Returned false).
Proof. split; [reflexivity |]. split; [reflexivity |]. reflexivity. Qed.

(** ** Clearing the scan *)

Section ClearFacts.

Context (env : Env).

(** One wrapped delete: it counts as one store operation, touches at
    most its key, brings no key back, and removes its key when it went
    through. *)
Lemma delete_step key w :
  let w' := if kvFails env (kvOps w)
            then contained ("safeKVDelete failed key=" +:+ key) w
            else deleted key w in
  kvOps w' = S (kvOps w) ∧
  kvFrame [key] w w' ∧
  (∀ k, kv w !! k = None → kv w' !! k = None) ∧
  (kvFails env (kvOps w) = false → kv w' !! key = None).
Proof.
  destruct (kvFails env (kvOps w)); cbn.
  - split; [done |]. split; [by intros k _ |]. split; [auto | done].
  - split; [done |]. split; [| split].
    + intros k Hk. apply lookup_delete_ne. set_solver.
    + intros k Hk. destruct (decide (key = k)) as [-> | Hne].
      * apply lookup_delete_eq.
      * by rewrite lookup_delete_ne.
    + intros _. apply lookup_delete_eq.
Qed.

Lemma clearScan_run w :
  ∃ w', clearScan env w = (Returned tt, w') ∧
        kvOps w' = (6 + kvOps w)%nat ∧
        kvFrame CLEARED_KEYS w w' ∧
        (storeHealthy env w w' → ∀ k, k ∈ CLEARED_KEYS → kv w' !! k = None).
Proof.
  unfold clearScan, tryCatch.
  rewrite bind_safeKVDelete.
  destruct (delete_step "flairScanPartial" w) as (O1 & F1 & K1 & D1).
  set (w1 := if kvFails env (kvOps w) then _ else _) in *.
  rewrite bind_safeKVDelete.
  destruct (delete_step "flairScanResult" w1) as (O2 & F2 & K2 & D2).
  set (w2 := if kvFails env (kvOps w1) then _ else _) in *.
  rewrite bind_safeKVDelete.
  destruct (delete_step "flairScanInProgress" w2) as (O3 & F3 & K3 & D3).
  set (w3 := if kvFails env (kvOps w2) then _ else _) in *.
  rewrite bind_safeKVDelete.
  destruct (delete_step "flairScanFailed" w3) as (O4 & F4 & K4 & D4).
  set (w4 := if kvFails env (kvOps w3) then _ else _) in *.
  rewrite bind_safeKVDelete.
  destruct (delete_step "flairScanFailedMessage" w4) as (O5 & F5 & K5 & D5).
  set (w5 := if kvFails env (kvOps w4) then _ else _) in *.
  rewrite safeKVDelete_run.
  destruct (delete_step "flairScanStartedAt" w5) as (O6 & F6 & K6 & D6).
  set (w6 := if kvFails env (kvOps w5) then _ else _) in *.
  exists w6. split; [reflexivity |]. split; [lia |]. split.
  - intros k Hk.
    rewrite F6, F5, F4, F3, F2, F1; [done | ..];
      intros Hin; apply Hk; unfold CLEARED_KEYS; set_solver.
  - intros Hq k Hk.
    assert (H1 : kv w1 !! "flairScanPartial" = None) by (apply D1, Hq; lia).
    assert (H2 : kv w2 !! "flairScanResult" = None) by (apply D2, Hq; lia).
    assert (H3 : kv w3 !! "flairScanInProgress" = None) by (apply D3, Hq; lia).
    assert (H4 : kv w4 !! "flairScanFailed" = None) by (apply D4, Hq; lia).
    assert (H5 : kv w5 !! "flairScanFailedMessage" = None) by (apply D5, Hq; lia).
    assert (H6 : kv w6 !! "flairScanStartedAt" = None) by (apply D6, Hq; lia).
    unfold CLEARED_KEYS in Hk.
    repeat (apply elem_of_cons in Hk as [-> | Hk]); auto 10.
    by apply elem_of_nil in Hk.
Qed.

Lemma noScan_cleared (store : gmap string JSONValue) :
  (∀ k, k ∈ CLEARED_KEYS → store !! k = None) → noScan store = true.
Proof.
  intros Hnone. unfold noScan.
  rewrite !Hnone by (unfold CLEARED_KEYS; set_solver). reflexivity.
Qed.

Lemma resetFlairScanIfAppUpdated_run currentVersion w :
  ∃ w', resetFlairScanIfAppUpdated env currentVersion w = (Returned tt, w') ∧
        (storeHealthy env w w' →
         kv w !! "appVersion" ≠ Some (JStr currentVersion) →
         (∀ k, k ∈ CLEARED_KEYS → kv w' !! k = None) ∧
         kv w' !! "appVersion" = Some (JStr currentVersion)).
Proof.
  unfold resetFlairScanIfAppUpdated, tryCatch.
  unfold bind at 1. unfold kvGet, kvOperation.
  destruct (kvFails env (kvOps w)) eqn:Hread.
  { eexists. split; [reflexivity |]. intros Hq.
    rewrite Hq in Hread; [done | cbn; lia]. }
  set (w0 := countKvOp w).
  case_bool_decide as Hsame.
  { eexists. split; [reflexivity |]. intros _ Hne. exfalso. apply Hne.
    subst w0. cbn [kv countKvOp] in Hsame.
    destruct (kv w !! "appVersion") as [[| | | s |] |]; try done.
    by injection Hsame as ->. }
  unfold bind at 1.
  destruct (clearScan_run w0) as (w1 & -> & Hops & Hframe & Hcleared).
  rewrite safeKVWrite_run.
  eexists. split; [reflexivity |]. intros Hq _.
  assert (Hw : kvFails env (kvOps w1) = false).
  { apply Hq. destruct (kvFails env (kvOps w1)); cbn; subst w0; cbn in Hops; lia. }
  rewrite Hw in *. cbn. split.
  - intros k Hk. rewrite lookup_insert_ne.
    + apply Hcleared; [| exact Hk]. intros i Hi. apply Hq. cbn. subst w0. cbn in *. lia.
    + intros <-. unfold CLEARED_KEYS in Hk. set_solver.
  - apply lookup_insert_eq.
Qed.

End ClearFacts.

(** C5 (amended). clearScan always returns; when its store operations go
    through it removes flairScanPartial, flairScanResult,
    flairScanInProgress, flairScanFailed, flairScanFailedMessage and
    flairScanStartedAt, and the menu then finds no scan.  The same holds of
    resetFlairScanIfAppUpdated when the stored appVersion is not the
    current one, which it then records. *)
Theorem C5_clear_reaches_no_scan (env : Env) (w : World) :
  (∃ w', clearScan env w = (Returned tt, w') ∧
         (storeHealthy env w w' →
          (∀ k, k ∈ CLEARED_KEYS → kv w' !! k = None) ∧
          noScan (kv w') = true ∧ menuTitle (kv w') = NoScanYetTitle))
  ∧
  (∀ currentVersion,
     ∃ w', resetFlairScanIfAppUpdated env currentVersion w = (Returned tt, w') ∧
           (storeHealthy env w w' →
            kv w !! "appVersion" ≠ Some (JStr currentVersion) →
            (∀ k, k ∈ CLEARED_KEYS → kv w' !! k = None) ∧
            noScan (kv w') = true ∧ menuTitle (kv w') = NoScanYetTitle ∧
            kv w' !! "appVersion" = Some (JStr currentVersion))).
Proof.
  assert (Htitle : ∀ store : gmap string JSONValue,
             (∀ k, k ∈ CLEARED_KEYS → store !! k = None) →
             menuTitle store = NoScanYetTitle).
  { intros store Hnone. unfold menuTitle.
    rewrite !Hnone by (unfold CLEARED_KEYS; set_solver). reflexivity. }
  split.
  - destruct (clearScan_run env w) as (w' & Hrun & _ & _ & Hcleared).
    exists w'. split; [exact Hrun |]. intros Hq.
    split; [by apply Hcleared |]. split; [apply noScan_cleared | apply Htitle]; auto.
  - intros currentVersion.
    destruct (resetFlairScanIfAppUpdated_run env currentVersion w) as (w' & Hrun & Hcleared).
    exists w'. split; [exact Hrun |]. intros Hq Hne.
    destruct (Hcleared Hq Hne) as [Hnone Hversion].
    split; [exact Hnone |]. split; [by apply noScan_cleared |].
    split; [by apply Htitle | exact Hversion].
Qed.

(** C5, as first stated, fails: flairScanCompletedAt and
    flairScanHeartbeat are not among the keys deleted, and a delete that
    fails leaves its key, here the result, so that a scan is still
    found. *)
Lemma C5_counterexample :
  (clearScan Examples.calm Examples.completedWorld).1 = Returned tt ∧
  kv (clearScan Examples.calm Examples.completedWorld).2 !! "flairScanCompletedAt"
    = Some (JNum 20) ∧
  kv (clearScan Examples.calm Examples.completedWorld).2 !! "flairScanHeartbeat"
    = Some (JNum 15) ∧
  (clearScan Examples.stubborn Examples.completedWorld).1 = Returned tt ∧
  kv (clearScan Examples.stubborn Examples.completedWorld).2 !! "flairScanResult"
    = Some (JScan Examples.completedScan) ∧
  noScan (kv (clearScan Examples.stubborn Examples.completedWorld).2) = false.
Proof.
  split; [by_evaluation |].
  split; [by_evaluation |].
  split; [by_evaluation |].
  split; [by_evaluation |].
  split; by_evaluation.
Qed.

Lemma C5_witness :
  noScan (kv (clearScan Examples.calm Examples.completedWorld).2) = true ∧
  noScan (kv (resetFlairScanIfAppUpdated Examples.calm "1.0.1" Examples.completedWorld).2)
    = true.
Proof.
  destruct (C5_clear_reaches_no_scan Examples.calm Examples.completedWorld)
    as [(w1 & Hrun1 & H1) Hreset].
  destruct (Hreset "1.0.1") as (w2 & Hrun2 & H2).
  split.
  - rewrite Hrun1. apply H1. intros i Hi. reflexivity.
  - rewrite Hrun2. apply H2.
    + intros i Hi. reflexivity.
    + vm_compute. discriminate.
Defined.

(** ** Fuel *)

(** When the listing ends within [k] further calls, a loop given more
    than [k] units of fuel does not run out of it. *)
Lemma chunkLoop_enough_fuel env chunkStart timeout (k : nat) :
  ∀ fuel st w,
    listingEnds env (List.length (fetchLog w) + k) →
    (k < fuel)%nat →
    (chunkLoop env fuel chunkStart timeout st w).1 ≠ OutOfFuel.
Proof.
  induction k as [| k IH]; intros fuel st w Hends Hfuel;
    (destruct fuel as [| fuel]; [lia |]);
    cbn [chunkLoop]; unfold bind;
    destruct (chunkIteration env chunkStart timeout st w) as [step w1] eqn:Hstep;
    apply chunkIteration_spec in Hstep;
    inversion Hstep as
      [w1' _ _ _ _
      | users next o n w1' Hget Hlog _ _ _ _
      | bad w1' _ _ _ _ _ _ _
      | users next o n w1' _ _ _ _ _]; subst; try done.
  - specialize (Hends (currentAfter st)). rewrite Nat.add_0_r, Hget in Hends.
    cbn zeta. by rewrite Hends.
  - cbn zeta. destruct (truthyCursor next); [| done].
    apply IH; [| lia].
    rewrite Hlog, length_app. cbn [callsFor List.length].
    by replace (List.length (fetchLog w) + 1 + k)%nat
         with (List.length (fetchLog w) + S k)%nat by lia.
Qed.

(** With that much fuel a chunk returns a checkpoint or throws. *)
Lemma chunk_enough_fuel env (k fuel : nat) after0 start scanned0 page0 w :
  listingEnds env (List.length (fetchLog w) + k) →
  (k < fuel)%nat →
  (buildFlairGroupsPaginatedChunk env fuel after0 start scanned0 page0 w).1 ≠ OutOfFuel.
Proof.
  intros Hends Hfuel.
  pose proof (chunkLoop_enough_fuel env (clock env (ticks w))
                (timeoutSeconds (settingsGet env)) k fuel
                {| currentAfter := after0; pageNumber := page0;
                   cumulativeFlairGroups := start; cumulativeUsers := scanned0 |}
                (tick w) Hends Hfuel) as Hloop.
  unfold buildFlairGroupsPaginatedChunk, startTimer.
  rewrite bind_dateNow. unfold bind at 1.
  destruct (chunkLoop env fuel _ _ _ (tick w)) as [[[st fin] | e |] w1]; cbn in Hloop;
    [| done | done].
  unfold bind at 1. unfold kvGet, kvOperation.
  destruct (kvFails env (kvOps w1)); [done |].
  set (w2 := countKvOp w1). set (raw := kv w2 !! "flairScanStartedAt").
  assert (Hstamp : ∃ stamp w3,
             (match raw with Some (JNum z) => ret z | _ => dateNow env end) w2
             = (Returned stamp, w3)).
  { destruct raw as [[| | z | |] |]; cbn; eauto. }
  destruct Hstamp as (stamp & w3 & Hrun).
  unfold bind at 1. rewrite Hrun. unfold bind at 1.
  match goal with |- context [persist env ?r w3] =>
    destruct (persist_run env r w3) as (w4 & -> & _)
  end.
  done.
Qed.

(** ** Numeric settings *)

Lemma digitValue_pretty_N_char (d : N) :
  (d < 10)%N → JSString.digitValue (pretty_N_char d) = Some (Z.of_N d).
Proof.
  intros Hd.
  assert (d = 0 ∨ d = 1 ∨ d = 2 ∨ d = 3 ∨ d = 4 ∨ d = 5 ∨ d = 6 ∨ d = 7 ∨ d = 8 ∨ d = 9)%N
    as Hcases by lia.
  repeat (destruct Hcases as [-> | Hcases]; [reflexivity |]). by subst.
Qed.

Lemma digit_char_plain (c : ascii) d :
  JSString.digitValue c = Some d →
  JSString.isWhite c = false ∧ c ≠ "-"%char ∧ c ≠ "+"%char.
Proof.
  destruct c as [[] [] [] [] [] [] [] []]; vm_compute; intros [=]; repeat split; congruence.
Qed.

Lemma pretty_N_go_app (x : N) : ∀ s t, pretty_N_go x s +:+ t = pretty_N_go x (s +:+ t).
Proof.
  induction (N.lt_wf_0 x) as [x _ IH]; intros s t.
  assert (x = 0 ∨ 0 < x)%N as [-> | Hpos] by lia.
  - by rewrite !pretty_N_go_0.
  - rewrite (pretty_N_go_step x s), (pretty_N_go_step x (s +:+ t)) by done.
    rewrite IH by (by apply N.div_lt). reflexivity.
Qed.

(** The digits printed for a positive number start with a digit and read
    back as that number, after whatever was read before. *)
Lemma readDigits_pretty_N_go (x : N) :
  (0 < x)%N →
  ∀ s, ∃ c r p,
    pretty_N_go x s = String c r ∧
    is_Some (JSString.digitValue c) ∧
    ∀ acc, JSString.readDigits acc (String c r)
           = JSString.readDigits (Some (default 0 acc * p + Z.of_N x)) s.
Proof.
  induction (N.lt_wf_0 x) as [x _ IH]; intros Hpos s.
  rewrite pretty_N_go_step by done.
  pose proof (digitValue_pretty_N_char (x `mod` 10) ltac:(by apply N.mod_lt)) as Hd.
  destruct (N.eq_0_gt_0_cases (x `div` 10)) as [Hz | Hnz].
  - rewrite Hz, pretty_N_go_0.
    exists (pretty_N_char (x `mod` 10)), s, 10. split; [done |]. split; [by rewrite Hd |].
    intros acc. cbn [JSString.readDigits]. rewrite Hd.
    pose proof (N.div_mod x 10 ltac:(done)) as Hx.
    match goal with
    | |- JSString.readDigits (Some ?a) _ = JSString.readDigits (Some ?b) _ =>
        replace a with b by lia
    end. done.
  - destruct (IH (x `div` 10)%N ltac:(by apply N.div_lt) Hnz
                (String (pretty_N_char (x `mod` 10)) s)) as (c & r & p & -> & Hc & Hread).
    exists c, r, (10 * p). split; [done |]. split; [done |].
    intros acc. rewrite Hread. cbn [JSString.readDigits]. rewrite Hd.
    cbn [default from_option]. unfold id.
    pose proof (N.div_mod x 10 ltac:(done)) as Hx.
    match goal with
    | |- JSString.readDigits (Some ?a) _ = JSString.readDigits (Some ?b) _ =>
        replace a with b by lia
    end. done.
Qed.

Lemma readDigits_noLeadingDigit acc s :
  noLeadingDigit s = true → JSString.readDigits acc s = acc.
Proof.
  destruct s as [| c r]; [done |]. cbn. by destruct (JSString.digitValue c).
Qed.

Lemma trimStart_allWhite ws s :
  allWhite ws = true → JSString.trimStart (ws +:+ s) = JSString.trimStart s.
Proof.
  induction ws as [| c ws IH]; [done |].
  cbn [allWhite]. intros [Hc Hws]%andb_true_iff.
  change (String c ws +:+ s) with (String c (ws +:+ s)).
  cbn [JSString.trimStart]. rewrite Hc. auto.
Qed.

(** parseInt on text that begins with a character that is neither white
    space nor a sign. *)
Lemma parseInt_plain (c : ascii) r :
  JSString.isWhite c = false → c ≠ "-"%char → c ≠ "+"%char →
  JSString.parseInt (String c r)
    = match JSString.readDigits None (String c r) with
      | Some v => Num (1 * v)
      | None => NaN
      end.
Proof.
  intros Hw Hm Hp. unfold JSString.parseInt. cbn [JSString.trimStart]. rewrite Hw.
  destruct c as [[] [] [] [] [] [] [] []]; try reflexivity; congruence.
Qed.

Lemma parseInt_allWhite ws s :
  allWhite ws = true → JSString.parseInt (ws +:+ s) = JSString.parseInt s.
Proof. intros Hws. unfold JSString.parseInt. by rewrite trimStart_allWhite. Qed.

Lemma parseInt_pretty (ws rest : string) (z : Z) :
  allWhite ws = true → noLeadingDigit rest = true →
  JSString.parseInt (ws +:+ pretty z +:+ rest) = Num z.
Proof.
  intros Hws Hrest. rewrite parseInt_allWhite by done.
  destruct z as [| p | p]; unfold pretty, pretty_Z.
  - change ("0" +:+ rest) with (String "0"%char rest).
    rewrite parseInt_plain by done. cbn [JSString.readDigits].
    change (JSString.digitValue "0") with (Some 0). cbn iota.
    by rewrite readDigits_noLeadingDigit.
  - unfold pretty, pretty_positive, pretty, pretty_N. rewrite decide_False by done.
    rewrite pretty_N_go_app.
    destruct (readDigits_pretty_N_go (N.pos p) ltac:(done) ("" +:+ rest))
      as (c & r & q & -> & [d Hc] & Hread).
    destruct (digit_char_plain c d Hc) as (Hw & Hm & Hp).
    rewrite parseInt_plain, Hread by done. cbn [default from_option].
    rewrite readDigits_noLeadingDigit by done. f_equal; cbn; lia.
  - unfold pretty, pretty_positive, pretty, pretty_N. rewrite decide_False by done.
    change (("-" +:+ pretty_N_go (N.pos p) "") +:+ rest)
      with (String "-"%char (pretty_N_go (N.pos p) "" +:+ rest)).
    rewrite pretty_N_go_app.
    destruct (readDigits_pretty_N_go (N.pos p) ltac:(done) ("" +:+ rest))
      as (c & r & q & Heq & [d Hc] & Hread).
    rewrite Heq. unfold JSString.parseInt. cbn [JSString.trimStart].
    change (JSString.isWhite "-") with false. cbn iota.
    rewrite Hread. cbn [default from_option].
    rewrite readDigits_noLeadingDigit by done. f_equal; cbn; lia.
Qed.

Lemma string_app_empty_r (s : string) : s +:+ "" = s.
Proof.
  induction s as [| c s IH]; [done |].
  change (String c s +:+ "") with (String c (s +:+ "")). by rewrite IH.
Qed.

(** X1. A timeout stored as an integer number is read back as that
    integer, and so is one stored as text made of optional white space,
    the decimal digits of the integer and any tail that does not begin
    with a digit. *)
Theorem X1_numeric_setting_round_trip (z : Z) (ws rest : string) :
  safeInteger z → allWhite ws = true → noLeadingDigit rest = true →
  timeoutSeconds (SNum (Num z)) = Num z ∧
  timeoutSeconds (SStr (ws +:+ pretty z +:+ rest)) = Num z.
Proof.
  intros _ Hws Hrest. unfold timeoutSeconds, getAppSettings, typeofIsNumber.
  cbn [devvitExecutionTimeoutSeconds JSString.toString]. split.
  - rewrite <- (string_app_empty_r (pretty z)).
    by apply (parseInt_pretty "" "" z).
  - by apply parseInt_pretty.
Qed.

Lemma X1_witness :
  timeoutSeconds (SNum (Num 45)) = Num 45 ∧
  timeoutSeconds (SStr ("  " +:+ pretty 45 +:+ " seconds")) = Num 45.
Proof.
  apply (X1_numeric_setting_round_trip 45 "  " " seconds").
  - unfold safeInteger. lia.
  - reflexivity.
  - reflexivity.
Defined.

(** ** A chunk, step by step *)

Section ChunkSteps.

Context (env : Env).

(** A chunk is its loop, run after one clock reading, followed by a
    tail that makes no listing call and leaves the heap alone. *)
Lemma chunk_loop_then_tail fuel after0 start scanned0 page0 w out w' :
  buildFlairGroupsPaginatedChunk env fuel after0 start scanned0 page0 w = (out, w') →
  ∃ out1 w1,
    chunkLoop env fuel (clock env (ticks w)) (timeoutSeconds (settingsGet env))
      {| currentAfter := after0; pageNumber := page0;
         cumulativeFlairGroups := start; cumulativeUsers := scanned0 |} (tick w)
      = (out1, w1) ∧
    fetchLog w' = fetchLog w1 ∧ heap w' = heap w1 ∧
    match out1 with
    | Returned (st, fin) =>
        out = Threw (KVError "flairScanStartedAt") ∨
        ∃ stamp, out = Returned {| flairGroups := cumulativeFlairGroups st;
                                   after := currentAfter st;
                                   timestamp := stamp;
                                   completed := fin;
                                   scannedUsers := cumulativeUsers st;
                                   lastPageNumber := Some (pageNumber st);
                                   toastShown := None |}
    | Threw e => out = Threw e ∧ w' = w1
    | OutOfFuel => out = OutOfFuel ∧ w' = w1
    end.
Proof.
  unfold buildFlairGroupsPaginatedChunk, startTimer.
  rewrite bind_dateNow. unfold bind at 1.
  destruct (chunkLoop env fuel _ _ _ (tick w)) as [[[st fin] | e |] w1] eqn:Hloop.
  - unfold bind at 1. unfold kvGet, kvOperation.
    destruct (kvFails env (kvOps w1)).
    { intros [= <- <-]. exists (Returned (st, fin)), w1. auto. }
    set (w2 := countKvOp w1). set (raw := kv w2 !! "flairScanStartedAt").
    assert (Hstamp : ∃ stamp w3,
               (match raw with Some (JNum z) => ret z | _ => dateNow env end) w2
               = (Returned stamp, w3) ∧ fetchLog w3 = fetchLog w1 ∧ heap w3 = heap w1).
    { destruct raw as [[| | z | |] |]; cbn; eauto. }
    destruct Hstamp as (stamp & w3 & Hrun & L3 & H3).
    unfold bind at 1. rewrite Hrun. unfold bind at 1.
    match goal with |- context [persist env ?r w3] =>
      destruct (persist_run env r w3) as (w4 & -> & (L4 & H4 & _) & _)
    end.
    unfold ret. intros [= <- <-]. exists (Returned (st, fin)), w1.
    split; [done |]. split; [congruence |]. split; [congruence |]. right. eauto.
  - intros [= <- <-]. exists (Threw e), w1. auto.
  - intros [= <- <-]. exists OutOfFuel, w1. auto.
Qed.

Lemma chunkLoop_chained fuel chunkStart timeout : ∀ st w out w',
  chunkLoop env fuel chunkStart timeout st w = (out, w') →
  ∃ calls, fetchLog w' = fetchLog w ++ calls ∧ chained (currentAfter st) calls.
Proof.
  induction fuel as [| fuel IH]; intros st w out w'.
  - cbn. intros [= <- <-]. exists []. by rewrite app_nil_r.
  - cbn [chunkLoop]. unfold bind at 1.
    destruct (chunkIteration env chunkStart timeout st w) as [step w1] eqn:Hstep.
    apply chunkIteration_spec in Hstep.
    inversion Hstep as
      [w1' Hlog _ _ _
      | users next o n w1' _ Hlog _ _ _ _
      | bad w1' _ Hfatal Hlog _ _ _ _
      | users next o n w1' _ Hlog _ _ _]; subst.
    + unfold ret. intros [= <- <-]. exists []. by rewrite app_nil_r.
    + cbn zeta. destruct (truthyCursor next) eqn:Hnext.
      * intros Hrest. apply IH in Hrest as (calls & Hlog2 & Hchain).
        exists ((currentAfter st, FetchReturns (RespObject (Some users) next)) :: calls).
        split.
        -- rewrite Hlog2, Hlog. cbn. by rewrite <- app_assoc.
        -- cbn. by rewrite Hnext.
      * unfold ret. intros [= <- <-]. eexists. split; [exact Hlog |].
        cbn. by rewrite Hnext.
    + intros [= <- <-]. eexists. split; [exact Hlog |]. cbn. split; [done |].
      destruct bad as [err | [| [users |] next]]; done.
    + intros [= <- <-]. eexists. split; [exact Hlog |]. cbn. split; [done |].
      by destruct (truthyCursor next).
Qed.

(** With the budget spent at the first check the loop stops at once. *)
Lemma chunkLoop_budgetSpent fuel st w :
  budgetSpent env w →
  chunkLoop env (S fuel) (clock env (ticks w)) (timeoutSeconds (settingsGet env)) st (tick w)
    = (Returned ({| currentAfter := currentAfter st; pageNumber := pageNumber st + 1;
                    cumulativeFlairGroups := cumulativeFlairGroups st;
                    cumulativeUsers := cumulativeUsers st |}, false),
       tick (tick (tick w))).
Proof.
  unfold budgetSpent. intros Hspent.
  cbn [chunkLoop]. unfold bind at 1. unfold chunkIteration, isTimeRemaining.
  rewrite bind_assoc, bind_dateNow, bind_ret. cbn [tick ticks].
  assert (Hcheck : match timeoutSeconds (settingsGet env) with
                   | NaN => false
                   | Num t => bool_decide
                                ((clock env (S (ticks w)) - clock env (ticks w))
                                   * TIMEOUT_FRACTION_DEN
                                 < t * 1000 * TIMEOUT_FRACTION_NUM)
                   end = false).
  { destruct (timeoutSeconds (settingsGet env)); [done |].
    apply bool_decide_eq_false. lia. }
  rewrite Hcheck. cbn [negb]. rewrite bind_dateNow. reflexivity.
Qed.

End ChunkSteps.

(** X2. A chunk whose time budget is already spent at its first check
    (always so when the timeout is NaN) makes no listing call and leaves
    the heap as it was; unless the read of flairScanStartedAt throws, it
    returns the progress it was given, not completed, with the page
    number raised by one. *)
Theorem X2_spent_budget_fetches_nothing
    env fuel after0 (start : Obj) scanned0 page0 w out w' :
  budgetSpent env w →
  buildFlairGroupsPaginatedChunk env (S fuel) after0 start scanned0 page0 w = (out, w') →
  fetchLog w' = fetchLog w ∧ heap w' = heap w ∧
  (out = Threw (KVError "flairScanStartedAt") ∨
   ∃ r, out = Returned r ∧ completed r = false ∧ after r = after0 ∧
        flairGroups r = start ∧ scannedUsers r = scanned0 ∧
        lastPageNumber r = Some (page0 + 1)).
Proof.
  intros Hspent Hrun.
  apply chunk_loop_then_tail in Hrun as (out1 & w1 & Hloop & Hlog & Hheap & Hout).
  rewrite chunkLoop_budgetSpent in Hloop by done. injection Hloop as <- <-.
  split; [exact Hlog |]. split; [exact Hheap |].
  destruct Hout as [-> | [stamp ->]]; [by left |].
  right. eexists. split; [reflexivity |]. cbn. auto.
Qed.

Lemma continueScan_chained env fuel (partial : FlairScanResult Obj) w out w' :
  continueScan env fuel partial w = (out, w') →
  chained (after partial) (callsSince w w').
Proof.
  unfold continueScan. intros Hrun.
  apply chunk_loop_then_tail in Hrun as (out1 & w1 & Hloop & Hlog & _ & _).
  apply chunkLoop_chained in Hloop as (calls & Hlog1 & Hchain).
  cbn [tick fetchLog currentAfter] in Hlog1, Hchain.
  rewrite Hlog1 in Hlog. by rewrite (callsSince_app _ _ _ Hlog).
Qed.

(** X3. The listing calls of a chunk form one chain: the first is sent
    the cursor the chunk was given, each later one the next-token of the
    page before it, and no call follows a page without a usable token or
    a fatal outcome; so continueScan resumes at the cursor of the
    checkpoint it is given. *)
Theorem X3_calls_follow_the_cursor env fuel (partial : FlairScanResult Obj) w out w' :
  continueScan env fuel partial w = (out, w') →
  chained (after partial) (callsSince w w').
Proof. apply continueScan_chained. Qed.

(** ** Groups as values *)

Lemma mergeUserG_lookup (g : Groups) u f :
  mergeUserG g u !! f
    = if bool_decide (accepted u = true ∧ labelOf u = f)
      then Some (default [] (g !! f) ++ [identifierOf u])
      else g !! f.
Proof.
  unfold mergeUserG. destruct (accepted u) eqn:Hacc.
  - destruct (decide (labelOf u = f)) as [<- | Hne].
    + rewrite bool_decide_eq_true_2 by done. apply lookup_insert_eq.
    + rewrite bool_decide_eq_false_2 by (intros [_ ?]; done). by apply lookup_insert_ne.
  - rewrite bool_decide_eq_false_2 by (intros [? _]; done). done.
Qed.

Lemma identifiersFor_cons f u users :
  identifiersFor f (u :: users)
    = (if bool_decide (accepted u = true ∧ labelOf u = f) then [identifierOf u] else [])
      ++ identifiersFor f users.
Proof.
  unfold identifiersFor. rewrite filter_cons.
  destruct (decide (accepted u = true ∧ labelOf u = f)) as [H | H].
  - by rewrite bool_decide_eq_true_2.
  - by rewrite bool_decide_eq_false_2.
Qed.

Lemma identifiersFor_app f users1 users2 :
  identifiersFor f (users1 ++ users2) = identifiersFor f users1 ++ identifiersFor f users2.
Proof. unfold identifiersFor. by rewrite filter_app, fmap_app. Qed.

(** The group of a label after a merge: what it held, then the
    identifiers of the accepted members with that label, in order; and a
    label has a group exactly when it had one or gained a member. *)
Lemma mergePageG_lookup users : ∀ (g : Groups) f,
  mergePageG g users !! f
    = match g !! f, identifiersFor f users with
      | None, [] => None
      | old, more => Some (default [] old ++ more)
      end.
Proof.
  unfold mergePageG.
  induction users as [| u users IH]; intros g f; cbn [fold_left].
  - unfold identifiersFor. rewrite filter_nil. cbn.
    destruct (g !! f); cbn; by rewrite ?app_nil_r.
  - rewrite IH, mergeUserG_lookup, identifiersFor_cons.
    case_bool_decide as Hu; cbn [app].
    + destruct (g !! f) as [old |]; cbn [default from_option];
        destruct (identifiersFor f users); cbn; by rewrite <- ?app_assoc.
    + done.
Qed.

Lemma mergePagesG_lookup pages : ∀ (g : Groups) f,
  fold_left mergePageG pages g !! f
    = match g !! f, identifiersFor f (concat pages) with
      | None, [] => None
      | old, more => Some (default [] old ++ more)
      end.
Proof.
  induction pages as [| users pages IH]; intros g f; cbn [fold_left concat].
  - unfold identifiersFor. rewrite filter_nil. cbn.
    destruct (g !! f); cbn; by rewrite ?app_nil_r.
  - rewrite IH, mergePageG_lookup, identifiersFor_app.
    destruct (g !! f) as [old |]; cbn [default from_option];
      destruct (identifiersFor f users) as [| i1 more1];
      destruct (identifiersFor f (concat pages)) as [| i2 more2];
      cbn; rewrite ?app_nil_r, <- ?app_assoc; done.
Qed.

(** X4. The group a generation's checkpoint holds for a label is the
    list, in the order the listing returned them and with repetitions, of
    the identifiers of exactly the members accepted under that label; a
    label no accepted member carries has no group.  It does not depend on
    where the chunks were cut. *)
Theorem X4_groups_of_a_generation env w w' r' (f : string) :
  generation env w w' r' →
  snapshot (heap w') (flairGroups r') !! f
    = match identifiersFor f (concat (pagesOf (callsSince w w'))) with
      | [] => None
      | ids => Some ids
      end.
Proof.
  intros [now Hrun].
  apply chunks_spec in Hrun as (pages & Hlog & _ & Hfold & _ & _).
  rewrite (callsSince_app _ _ _ Hlog), pagesOf_callsFor.
  cbn [initialPartial flairGroups scannedUsers] in Hfold.
  destruct (mergePages_value pages.*1 ∅ (heap w) 0 _ (separate_empty _) Hfold) as [_ Hv].
  cbn [fst snd] in Hv.
  rewrite Hv, snapshot_empty, mergePagesG_lookup, lookup_empty.
  by destruct (identifiersFor f (concat pages.*1)).
Qed.

Lemma X4_witness :
  snapshot (heap Examples.calmRun.2) (flairGroups (Examples.resultOf Examples.calmRun))
    !! "silver"
  = match identifiersFor "silver"
            (concat (pagesOf (callsSince Examples.emptyWorld Examples.calmRun.2))) with
    | [] => None
    | ids => Some ids
    end.
Proof.
  apply (X4_groups_of_a_generation Examples.calm).
  exists 0. apply (chunks_one _ 5%nat). vm_compute. reflexivity.
Defined.

(** X5. Within a chunk the groups only grow: on an aggregate whose
    labels own their arrays, every group the caller passed in is a prefix
    of the group the returned checkpoint holds for that label, and the
    count does not decrease. *)
Theorem X5_groups_only_grow
    env fuel after0 (start : Obj) scanned0 page0 w r w' (f : string) ids :
  separate (heap w) start →
  buildFlairGroupsPaginatedChunk env fuel after0 start scanned0 page0 w = (Returned r, w') →
  snapshot (heap w) start !! f = Some ids →
  (scanned0 <= scannedUsers r) ∧
  ∃ more, snapshot (heap w') (flairGroups r) !! f = Some (ids ++ more).
Proof.
  intros Hsep Hrun Hold. apply buildFlairGroupsPaginatedChunk_spec in Hrun.
  inversion Hrun as [pages r0 w0 _ _ Hfold _ _ _ _ _ _ | | | |]; subst.
  destruct (mergePages_value pages.*1 start (heap w) scanned0 _ Hsep Hfold) as [_ Hv].
  pose proof (mergePages_count _ _ _ Hfold) as Hc.
  cbn [fst snd] in Hv, Hc. split.
  - rewrite Hc. unfold countMembers. lia.
  - rewrite Hv, mergePagesG_lookup, Hold. cbn [default from_option]. eauto.
Qed.

Lemma X5_witness :
  (1 <= scannedUsers (Examples.resultOf Examples.callerRun)) ∧
  ∃ more, snapshot (heap Examples.callerRun.2)
            (flairGroups (Examples.resultOf Examples.callerRun)) !! "gold"
          = Some (["a"] ++ more).
Proof.
  apply (X5_groups_only_grow Examples.onePage 5 None Examples.callerGroups 1 0
           Examples.callerWorld).
  - unfold Examples.callerGroups. split.
    + intros f l. destruct (decide (f = "gold")) as [-> | Hne].
      * rewrite lookup_singleton_eq. intros [= <-]. cbn. lia.
      * by rewrite lookup_singleton_ne.
    + intros f1 f2 l.
      destruct (decide (f1 = "gold")) as [-> | N1]; [| by rewrite lookup_singleton_ne].
      destruct (decide (f2 = "gold")) as [-> | N2]; [done |].
      rewrite (lookup_singleton_ne "gold" f2) by done. intros _ [=].
  - vm_compute. reflexivity.
  - vm_compute. reflexivity.
Defined.

Lemma X2_witness :
  fetchLog MoreExamples.unparsableRun.2 = fetchLog Examples.emptyWorld ∧
  heap MoreExamples.unparsableRun.2 = heap Examples.emptyWorld ∧
  (MoreExamples.unparsableRun.1 = Threw (KVError "flairScanStartedAt") ∨
   ∃ r, MoreExamples.unparsableRun.1 = Returned r ∧ completed r = false ∧
        after r = Some "t1" ∧ flairGroups r = ∅ ∧ scannedUsers r = 3 ∧
        lastPageNumber r = Some (1 + 1)).
Proof.
  apply (X2_spent_budget_fetches_nothing MoreExamples.unparsable 4 (Some "t1") ∅ 3 1
           Examples.emptyWorld).
  - vm_compute. exact I.
  - vm_compute. reflexivity.
Defined.

Lemma X3_witness :
  chained (after (initialPartial 0)) (callsSince Examples.emptyWorld Examples.calmRun.2).
Proof.
  apply (X3_calls_follow_the_cursor Examples.calm 5 (initialPartial 0)
           Examples.emptyWorld Examples.calmRun.1).
  vm_compute. reflexivity.
Defined.

(** ** What a chunk leaves in the store *)

(** X6. Whatever its outcome, a chunk changes no key of the store other
    than the heartbeat, the result, the completion instant, the
    in-progress and failure flags, the failure message and the partial
    checkpoint; flairScanStartedAt and appVersion are never written. *)
Theorem X6_chunk_touches_only_scan_keys
    env fuel after0 (start : Obj) scanned0 page0 w out w' (k : string) :
  buildFlairGroupsPaginatedChunk env fuel after0 start scanned0 page0 w = (out, w') →
  k ∉ SCAN_WRITE_KEYS →
  kv w' !! k = kv w !! k.
Proof.
  intros Hrun Hk. apply buildFlairGroupsPaginatedChunk_spec in Hrun.
  unfold SCAN_WRITE_KEYS in Hk.
  inversion Hrun as
    [pages r w0 _ _ _ _ _ _ Hframe _ _
    | pages bad w0 _ _ Hframe _
    | pages w0 _ Hframe _
    | pages w0 _ Hframe
    | pages users next acc o n w0 _ _ _ Hframe]; subst; apply Hframe;
    unfold CHUNK_KEYS, PERSIST_KEYS, FAILURE_KEYS; set_solver.
Qed.

Lemma X6_witness :
  kv Examples.calmRun.2 !! "flairScanStartedAt"
    = kv Examples.emptyWorld !! "flairScanStartedAt".
Proof.
  apply (X6_chunk_touches_only_scan_keys Examples.calm 5 None ∅ 0 0
           Examples.emptyWorld Examples.calmRun.1).
  - vm_compute. reflexivity.
  - unfold SCAN_WRITE_KEYS. set_solver.
Defined.

(** X7. After a chunk that returned and whose store operations all went
    through, the store shows that chunk's outcome.  When it completed,
    the result key holds the returned checkpoint, the partial key is
    gone and the form is titled Results; when it did not, the partial
    key holds the returned checkpoint and the form is titled In
    Progress. *)
Theorem X7_store_after_a_chunk
    env fuel after0 (start : Obj) scanned0 page0 w r w' :
  buildFlairGroupsPaginatedChunk env fuel after0 start scanned0 page0 w = (Returned r, w') →
  storeHealthy env w w' →
  if completed r then
    kv w' !! "flairScanResult" = Some (JScan (toJSON (heap w') r)) ∧
    kv w' !! "flairScanPartial" = None ∧
    menuTitle (kv w') = ResultsTitle ∧ noScan (kv w') = false
  else
    kv w' !! "flairScanPartial" = Some (JScan (toJSON (heap w') r)) ∧
    menuTitle (kv w') = InProgressTitle ∧ noScan (kv w') = false.
Proof.
  intros Hrun Hq. apply buildFlairGroupsPaginatedChunk_spec in Hrun.
  inversion Hrun as [pages r0 w0 _ _ _ _ _ _ _ _ Hpersisted | | | |]; subst.
  specialize (Hpersisted Hq). unfold persisted in Hpersisted.
  unfold menuTitle, noScan. destruct (completed r).
  - destruct Hpersisted as (Hres & Hrun' & Hfail & Hpart).
    rewrite Hres, Hrun', Hfail, Hpart. done.
  - destruct Hpersisted as (Hpart & Hrun').
    rewrite Hpart, Hrun'. done.
Qed.

Lemma X7_witness :
  if completed (Examples.resultOf Examples.slowChunk1) then
    kv Examples.slowChunk1.2 !! "flairScanResult"
      = Some (JScan (toJSON (heap Examples.slowChunk1.2)
                       (Examples.resultOf Examples.slowChunk1))) ∧
    kv Examples.slowChunk1.2 !! "flairScanPartial" = None ∧
    menuTitle (kv Examples.slowChunk1.2) = ResultsTitle ∧
    noScan (kv Examples.slowChunk1.2) = false
  else
    kv Examples.slowChunk1.2 !! "flairScanPartial"
      = Some (JScan (toJSON (heap Examples.slowChunk1.2)
                       (Examples.resultOf Examples.slowChunk1))) ∧
    menuTitle (kv Examples.slowChunk1.2) = InProgressTitle ∧
    noScan (kv Examples.slowChunk1.2) = false.
Proof.
  apply (X7_store_after_a_chunk Examples.slow 5 None ∅ 0 0 Examples.emptyWorld).
  - vm_compute. reflexivity.
  - intros i Hi. reflexivity.
Defined.

(** X8. After a chunk that met a fatal listing outcome and whose store
    operations all went through, the form is titled Failed and the menu
    still finds a scan. *)
Theorem X8_store_after_a_fatal_page
    env fuel after0 (start : Obj) scanned0 page0 w out w' cursor bad :
  buildFlairGroupsPaginatedChunk env fuel after0 start scanned0 page0 w = (out, w') →
  last (callsSince w w') = Some (cursor, bad) →
  fatal bad = true →
  storeHealthy env w w' →
  menuTitle (kv w') = FailedTitle ∧ noScan (kv w') = false.
Proof.
  intros Hrun Hlast Hbad Hq. apply buildFlairGroupsPaginatedChunk_spec in Hrun.
  inversion Hrun as
    [pages r w0 Hlog _ _ _ _ _ _ _ _
    | pages bad' w0 Hlog Hfatal Hframe Hflags
    | pages w0 Hlog _ _
    | pages w0 Hlog _
    | pages users next acc o n w0 Hlog _ _ _]; subst;
    try (rewrite (callsSince_app _ _ _ Hlog) in Hlast;
         apply callsFor_last_not_fatal in Hlast; congruence).
  destruct (Hflags Hq) as (Hfail & _ & Hrunning).
  unfold menuTitle, noScan. rewrite Hfail, Hrunning. cbn.
  split; [done |]. by rewrite orb_true_r.
Qed.

Lemma X8_witness :
  menuTitle (kv Examples.brokenRun.2) = FailedTitle ∧
  noScan (kv Examples.brokenRun.2) = false.
Proof.
  apply (X8_store_after_a_fatal_page Examples.broken 5 None ∅ 0 0 Examples.emptyWorld
           Examples.brokenRun.1 Examples.brokenRun.2
           (Some "t1") (FetchThrows "Error: listing unavailable")).
  - vm_compute. reflexivity.
  - vm_compute. reflexivity.
  - reflexivity.
  - intros i Hi. reflexivity.
Defined.

(** ** Errors, numbering, fuel *)



(** X10. The page number a chunk returns is the number it started from,
    plus the pages it fetched, plus one when it stopped on the time
    budget; over a run of chunks it never decreases. *)
Theorem X10_page_numbers :
  (∀ env fuel after0 (start : Obj) scanned0 page0 w r w',
     buildFlairGroupsPaginatedChunk env fuel after0 start scanned0 page0 w
       = (Returned r, w') →
     lastPageNumber r
       = Some (page0 + Z.of_nat (List.length (callsSince w w'))
               + (if completed r then 0 else 1)))
  ∧
  (∀ env w r w' r',
     chunks env w r w' r' →
     ∃ n, lastPageNumber r' = Some n ∧ (default 0 (lastPageNumber r) <= n)%Z).
Proof.
  split.
  - intros *. apply chunk_lastPageNumber.
  - intros *. apply chunks_lastPageNumber_mono.
Qed.

Lemma X10_witness :
  lastPageNumber (Examples.resultOf Examples.slowChunk1)
    = Some (0 + Z.of_nat (List.length (callsSince Examples.emptyWorld Examples.slowChunk1.2))
            + (if completed (Examples.resultOf Examples.slowChunk1) then 0 else 1))
  ∧ ∃ n, lastPageNumber (Examples.resultOf Examples.slowChunk2) = Some n
         ∧ (default 0 (lastPageNumber (initialPartial 0)) <= n)%Z.
Proof.
  split.
  - apply (proj1 X10_page_numbers Examples.slow 5%nat None ∅ 0 0 Examples.emptyWorld).
    vm_compute. reflexivity.
  - apply (proj2 X10_page_numbers Examples.slow Examples.emptyWorld (initialPartial 0)
             Examples.slowChunk2.2).
    apply (chunks_more _ 5%nat _ _ Examples.slowChunk1.2
             (Examples.resultOf Examples.slowChunk1)).
    + vm_compute. reflexivity.
    + vm_compute. reflexivity.
    + apply (chunks_one _ 5%nat). vm_compute. reflexivity.
Defined.

(** X11. When the listing ends within [k] further calls, whatever cursor
    it is sent, a chunk given more than [k] units of fuel returns a
    checkpoint or throws: the paging loop stops. *)
Theorem X11_chunk_stops
    env (k fuel : nat) after0 (start : Obj) scanned0 page0 w :
  listingEnds env (List.length (fetchLog w) + k) →
  (k < fuel)%nat →
  (buildFlairGroupsPaginatedChunk env fuel after0 start scanned0 page0 w).1 ≠ OutOfFuel.
Proof. apply chunk_enough_fuel. Qed.

Lemma X11_witness :
  (buildFlairGroupsPaginatedChunk Examples.calm 2 None ∅ 0 0 Examples.emptyWorld).1
    ≠ OutOfFuel.
Proof.
  apply (X11_chunk_stops Examples.calm 1 2 None ∅ 0 0 Examples.emptyWorld).
  - intros cursor. reflexivity.
  - lia.
Defined.

(** ** Clearing and the version guard, beyond the six keys *)

Section GuardFacts.

Context (env : Env).

Lemma resetFlairScanIfAppUpdated_frame currentVersion w :
  kvFrame ("appVersion" :: CLEARED_KEYS) w
    (resetFlairScanIfAppUpdated env currentVersion w).2.
Proof.
  unfold resetFlairScanIfAppUpdated, tryCatch.
  unfold bind at 1. unfold kvGet, kvOperation.
  destruct (kvFails env (kvOps w)); [by intros k _ |].
  case_bool_decide; [by intros k _ |].
  unfold bind at 1.
  destruct (clearScan_run env (countKvOp w)) as (w1 & -> & _ & Hframe & _).
  rewrite safeKVWrite_run. cbn [snd]. intros k Hk.
  assert (Hw : kv (if kvFails env (kvOps w1)
                   then contained ("safeKVWrite failed key=" +:+ "appVersion") w1
                   else wrote "appVersion" (VStr currentVersion) w1) !! k = kv w1 !! k).
  { destruct (kvFails env (kvOps w1)); cbn; [done |].
    apply lookup_insert_ne. set_solver. }
  rewrite Hw. apply Hframe. set_solver.
Qed.

(** The guard does nothing to the store when the version is the stored
    one, and nothing when the read of the version throws. *)
Lemma resetFlairScanIfAppUpdated_idle currentVersion w :
  kv w !! "appVersion" = Some (JStr currentVersion) ∨ kvFails env (kvOps w) = true →
  resetFlairScanIfAppUpdated env currentVersion w = (Returned tt, countKvOp w).
Proof.
  intros Hidle. unfold resetFlairScanIfAppUpdated, tryCatch.
  unfold bind at 1. unfold kvGet, kvOperation.
  destruct (kvFails env (kvOps w)) eqn:Hread; [done |].
  destruct Hidle as [Hsame | ?]; [| done].
  cbn [kv countKvOp]. rewrite Hsame. by rewrite bool_decide_eq_true_2.
Qed.

End GuardFacts.

(** X12. clearScan changes no key other than the six it deletes, and the
    version guard none other than those and appVersion, whichever store
    operations fail: the completion instant and the heartbeat of an
    earlier scan survive both. *)
Theorem X12_clear_touches_only_its_keys env w (k : string) :
  (k ∉ CLEARED_KEYS → kv (clearScan env w).2 !! k = kv w !! k) ∧
  (∀ currentVersion,
     k ∉ "appVersion" :: CLEARED_KEYS →
     kv (resetFlairScanIfAppUpdated env currentVersion w).2 !! k = kv w !! k).
Proof.
  split.
  - intros Hk. destruct (clearScan_run env w) as (w' & -> & _ & Hframe & _).
    by apply Hframe.
  - intros currentVersion Hk. by apply resetFlairScanIfAppUpdated_frame.
Qed.

Lemma X12_witness :
  kv (clearScan Examples.stubborn Examples.completedWorld).2 !! "flairScanHeartbeat"
    = kv Examples.completedWorld !! "flairScanHeartbeat" ∧
  kv (resetFlairScanIfAppUpdated Examples.stubborn "1.0.1" Examples.completedWorld).2
    !! "flairScanHeartbeat"
    = kv Examples.completedWorld !! "flairScanHeartbeat".
Proof.
  destruct (X12_clear_touches_only_its_keys Examples.stubborn Examples.completedWorld
              "flairScanHeartbeat") as [Hclear Hguard].
  split.
  - apply Hclear. unfold CLEARED_KEYS. set_solver.
  - apply Hguard. unfold CLEARED_KEYS. set_solver.
Defined.

(** X13. The version guard never throws.  With the stored version equal
    to the current one it leaves the store unchanged, and so it does when
    the read of the stored version throws: the error is swallowed and a
    scan of an earlier version is then not cleared. *)
Theorem X13_guard_idle env currentVersion w :
  (∃ w', resetFlairScanIfAppUpdated env currentVersion w = (Returned tt, w')) ∧
  (kv w !! "appVersion" = Some (JStr currentVersion) ∨ kvFails env (kvOps w) = true →
   kv (resetFlairScanIfAppUpdated env currentVersion w).2 = kv w).
Proof.
  split.
  - destruct (resetFlairScanIfAppUpdated_run env currentVersion w) as (w' & Hrun & _).
    eauto.
  - intros Hidle. by rewrite resetFlairScanIfAppUpdated_idle.
Qed.

Lemma X13_witness :
  kv (resetFlairScanIfAppUpdated Examples.calm "1.0.0" Examples.completedWorld).2
    = kv Examples.completedWorld.
Proof.
  apply (X13_guard_idle Examples.calm "1.0.0" Examples.completedWorld).
  left. vm_compute. reflexivity.
Defined.

(** X14. The version guard is idempotent: once it ran with its store
    operations going through, the stored version is the current one, and
    a second run with the same version changes nothing in the store. *)
Theorem X14_guard_idempotent env currentVersion w w1 :
  resetFlairScanIfAppUpdated env currentVersion w = (Returned tt, w1) →
  storeHealthy env w w1 →
  kv w1 !! "appVersion" = Some (JStr currentVersion) ∧
  kv (resetFlairScanIfAppUpdated env currentVersion w1).2 = kv w1.
Proof.
  intros Hrun Hq.
  assert (Hversion : kv w1 !! "appVersion" = Some (JStr currentVersion)).
  { assert (kv w !! "appVersion" = Some (JStr currentVersion)
            ∨ kv w !! "appVersion" ≠ Some (JStr currentVersion)) as [Hsame | Hne].
    { destruct (kv w !! "appVersion") as [[| b | z | s | r] |]; try (right; discriminate).
      destruct (decide (s = currentVersion)) as [-> | Hne]; [by left | right; congruence]. }
    - rewrite resetFlairScanIfAppUpdated_idle in Hrun by (by left).
      by injection Hrun as <-.
    - destruct (resetFlairScanIfAppUpdated_run env currentVersion w) as (w' & Hrun' & Hdone).
      rewrite Hrun in Hrun'. injection Hrun' as <-.
      by destruct (Hdone Hq Hne). }
  split; [exact Hversion |].
  by rewrite resetFlairScanIfAppUpdated_idle by (by left).
Qed.

Lemma X14_witness :
  kv (resetFlairScanIfAppUpdated Examples.calm "1.0.1" Examples.completedWorld).2
    !! "appVersion" = Some (JStr "1.0.1") ∧
  kv (resetFlairScanIfAppUpdated Examples.calm "1.0.1"
        (resetFlairScanIfAppUpdated Examples.calm "1.0.1" Examples.completedWorld).2).2
    = kv (resetFlairScanIfAppUpdated Examples.calm "1.0.1" Examples.completedWorld).2.
Proof.
  apply (X14_guard_idempotent Examples.calm "1.0.1" Examples.completedWorld).
  - vm_compute. reflexivity.
  - intros i Hi. reflexivity.
Defined.

(** ** The one-shot scan and the chunked one *)

Section Filing.

Context (accept : UserFlair → bool) (key val : UserFlair → string).


Lemma file_lookup (g : Groups) u f :
  (fileUnder accept key val) g u !! f
    = if bool_decide (accept u = true ∧ key u = f)
      then Some (default [] (g !! f) ++ [val u])
      else g !! f.
Proof.
  unfold fileUnder. destruct (accept u) eqn:Hacc.
  - destruct (decide (key u = f)) as [<- | Hne].
    + rewrite bool_decide_eq_true_2 by done. apply lookup_insert_eq.
    + rewrite bool_decide_eq_false_2 by (intros [_ ?]; done). by apply lookup_insert_ne.
  - rewrite bool_decide_eq_false_2 by (intros [? _]; done). done.
Qed.

Lemma filed_cons f u users :
  (filedUnder accept key val) f (u :: users)
    = (if bool_decide (accept u = true ∧ key u = f) then [val u] else [])
      ++ (filedUnder accept key val) f users.
Proof.
  unfold filedUnder. rewrite filter_cons.
  destruct (decide (accept u = true ∧ key u = f)) as [H | H].
  - by rewrite bool_decide_eq_true_2.
  - by rewrite bool_decide_eq_false_2.
Qed.

Lemma file_page_lookup users : ∀ (g : Groups) f,
  fold_left (fileUnder accept key val) users g !! f
    = match g !! f, (filedUnder accept key val) f users with
      | None, [] => None
      | old, more => Some (default [] old ++ more)
      end.
Proof.
  induction users as [| u users IH]; intros g f; cbn [fold_left].
  - unfold filedUnder. rewrite filter_nil. cbn.
    destruct (g !! f); cbn; by rewrite ?app_nil_r.
  - rewrite IH, file_lookup, filed_cons.
    case_bool_decide as Hu; cbn [app].
    + destruct (g !! f) as [old |]; cbn [default from_option];
        destruct ((filedUnder accept key val) f users); cbn; by rewrite <- ?app_assoc.
    + done.
Qed.

Lemma file_pages_lookup pages : ∀ (g : Groups) f,
  fold_left (λ g users, fold_left (fileUnder accept key val) users g) pages g !! f
    = match g !! f, (filedUnder accept key val) f (concat pages) with
      | None, [] => None
      | old, more => Some (default [] old ++ more)
      end.
Proof.
  induction pages as [| users pages IH]; intros g f; cbn [fold_left concat].
  - unfold filedUnder. rewrite filter_nil. cbn.
    destruct (g !! f); cbn; by rewrite ?app_nil_r.
  - rewrite IH, file_page_lookup. unfold filedUnder. rewrite filter_app, fmap_app.
    destruct (g !! f) as [old |]; cbn [default from_option];
      destruct (val <$> filter _ users) as [| i1 more1];
      destruct (val <$> filter _ (concat pages)) as [| i2 more2];
      cbn; rewrite ?app_nil_r, <- ?app_assoc; done.
Qed.

Lemma file_total (g : Groups) u :
  totalIdentifiers ((fileUnder accept key val) g u) = totalIdentifiers g + (if accept u then 1 else 0).
Proof.
  unfold fileUnder. destruct (accept u); [| lia].
  rewrite totalIdentifiers_insert, length_app. cbn [List.length]. lia.
Qed.

Lemma file_pages_total pages : ∀ (g : Groups),
  totalIdentifiers (fold_left (λ g users, fold_left (fileUnder accept key val) users g) pages g)
    = totalIdentifiers g + countMembers accept pages.
Proof.
  induction pages as [| users pages IH]; intros g; cbn [fold_left].
  - unfold countMembers. cbn [concat]. rewrite filter_nil. cbn [List.length]. lia.
  - rewrite IH, (countMembers_cons _ users pages).
    enough (∀ g, totalIdentifiers (fold_left (fileUnder accept key val) users g)
                 = totalIdentifiers g + countMembers accept [users]) as -> by lia.
    clear. unfold countMembers. cbn [concat]. rewrite app_nil_r.
    induction users as [| u users IH]; intros g; cbn [fold_left].
    + rewrite filter_nil. cbn [List.length]. lia.
    + rewrite IH, file_total, filter_cons.
      destruct (accept u); cbn.
      * rewrite decide_True by done. cbn [List.length]. lia.
      * rewrite decide_False by done. lia.
Qed.

End Filing.

Lemma groupUser_some flairFilterValue (g g' : Groups) u :
  groupUser flairFilterValue g u = Some g' →
  g' = fileUnder (passesFilter flairFilterValue) flairTextOrNone usernameOrUnknown g u.
Proof.
  unfold groupUser, fileUnder, truthyProperty.
  destruct (passesFilter flairFilterValue u); [| by intros [= <-]].
  destruct (g !! flairTextOrNone u) as [ids |] eqn:Hf.
  - rewrite bool_decide_eq_true_2 by eauto. cbn [orb]. rewrite Hf. by intros [= <-].
  - rewrite bool_decide_eq_false_2 by (by intros [? ?]). cbn [orb].
    destruct (inherited (flairTextOrNone u)).
    + by rewrite Hf.
    + rewrite lookup_insert_eq. intros [= <-]. by rewrite insert_insert_eq.
Qed.

Lemma groupPage_some flairFilterValue users : ∀ (g g' : Groups),
  groupPage flairFilterValue g users = Some g' →
  g' = fold_left (fileUnder (passesFilter flairFilterValue) flairTextOrNone
                    usernameOrUnknown) users g.
Proof.
  induction users as [| u users IH]; intros g g'; cbn [groupPage fold_left].
  - by intros [= <-].
  - destruct (groupUser flairFilterValue g u) as [g1 |] eqn:Hu; [| done].
    apply groupUser_some in Hu as ->. apply IH.
Qed.

Section OneShotFacts.

Context (env : Env).

Lemma getFlairGroupsLoop_spec fuel flairFilterValue :
  ∀ cursor response (g : Groups) w0 w out w',
    fetchLog w = fetchLog w0 ++ [(cursor, response)] →
    getFlairGroupsLoop env fuel flairFilterValue response g w = (out, w') →
    kv w' = kv w ∧ heap w' = heap w ∧ kvOps w' = kvOps w ∧
    match out with
    | Grouped g' =>
        ∃ pages : list Page,
          fetchLog w' = fetchLog w0 ++ callsFor cursor pages ∧
          pagesShape true pages ∧
          g' = groupedFrom flairFilterValue g pages.*1
    | ScanThrew e =>
        (∃ (pages : list Page) bad,
           fetchLog w' = fetchLog w0 ++ callsFor cursor pages
                           ++ [(lastCursor cursor pages, bad)] ∧
           fatal bad = true ∧
           e = match bad with FetchThrows err => ListingError err | _ => NotIterable end)
        ∨ (e = PushIsNotAFunction ∧
           ∃ pages : list Page, fetchLog w' = fetchLog w0 ++ callsFor cursor pages)
    | ScanOutOfFuel =>
        ∃ pages : list Page, fetchLog w' = fetchLog w0 ++ callsFor cursor pages
    end.
Proof.
  induction fuel as [| fuel IH]; intros cursor response g w0 w out w' Hlog;
    (destruct response as [err | [| [users |] next]]; cbn [getFlairGroupsLoop];
     [ intros [= <- <-]; repeat split; try done;
       left; exists [], (FetchThrows err); by cbn
     | intros [= <- <-]; repeat split; try done;
       left; exists [], (FetchReturns RespNullish); by cbn
     | 
     | intros [= <- <-]; repeat split; try done;
       left; exists [], (FetchReturns (RespObject None next)); by cbn ]);
    (destruct (groupPage flairFilterValue g users) as [g1 |] eqn:Hpage;
     [ apply groupPage_some in Hpage
     | intros [= <- <-]; repeat split; try done;
       right; split; [done |]; by exists [(users, next)] ]);
    destruct (truthyCursor next) eqn:Hnext.
  - intros [= <- <-]. repeat split; try done. by exists [(users, next)].
  - intros [= <- <-]. repeat split; try done.
    exists [(users, next)]. cbn. rewrite Hnext. by subst g1.
  - unfold listingCall.
    set (response1 := getUserFlair env (List.length (fetchLog w)) next).
    set (w1 := logFetch next response1 w).
    intros Hrun.
    apply (IH next response1 _ w w1) in Hrun; [| done].
    destruct Hrun as (Hkv & Hheap & Hops & Hout).
    split; [done |]. split; [done |]. split; [done |].
    destruct out as [g' | e |].
    + destruct Hout as (pages & Hlog' & Hshape & ->).
      exists ((users, next) :: pages). cbn. rewrite Hnext.
      split; [| by subst g1]. rewrite Hlog', Hlog. by rewrite <- app_assoc.
    + destruct Hout as [(pages & bad & Hlog' & Hfatal & ->) | (-> & pages & Hlog')].
      * left. exists ((users, next) :: pages), bad. cbn.
        split; [| done]. rewrite Hlog', Hlog. by rewrite <- !app_assoc.
      * right. split; [done |]. exists ((users, next) :: pages). cbn.
        rewrite Hlog', Hlog. by rewrite <- app_assoc.
    + destruct Hout as (pages & Hlog').
      exists ((users, next) :: pages). cbn.
      rewrite Hlog', Hlog. by rewrite <- app_assoc.
  - intros [= <- <-]. repeat split; try done.
    exists [(users, next)]. cbn. rewrite Hnext. by subst g1.
Qed.

Lemma getFlairGroups_spec fuel flairFilterValue w out w' :
  getFlairGroups env fuel flairFilterValue w = (out, w') →
  kv w' = kv w ∧ heap w' = heap w ∧ kvOps w' = kvOps w ∧
  match out with
  | Grouped g =>
      ∃ pages : list Page,
        callsSince w w' = callsFor None pages ∧ pagesShape true pages ∧
        g = groupedFrom flairFilterValue ∅ pages.*1
  | ScanThrew e =>
      (∃ cursor bad,
         last (callsSince w w') = Some (cursor, bad) ∧ fatal bad = true ∧
         e = match bad with FetchThrows err => ListingError err | _ => NotIterable end)
      ∨ (e = PushIsNotAFunction ∧
         ∃ pages : list Page, callsSince w w' = callsFor None pages)
  | ScanOutOfFuel => ∃ pages : list Page, callsSince w w' = callsFor None pages
  end.
Proof.
  unfold getFlairGroups, listingCall.
  set (response := getUserFlair env (List.length (fetchLog w)) None).
  intros Hrun.
  apply (getFlairGroupsLoop_spec _ _ None response ∅ w) in Hrun; [| done].
  destruct Hrun as (Hkv & Hheap & Hops & Hout).
  split; [done |]. split; [done |]. split; [done |].
  destruct out as [g | e |].
  - destruct Hout as (pages & Hlog & Hshape & ->).
    exists pages. by rewrite (callsSince_app _ _ _ Hlog).
  - destruct Hout as [(pages & bad & Hlog & Hfatal & ->) | (-> & pages & Hlog)].
    + left. exists (lastCursor None pages), bad.
      by rewrite (callsSince_app _ _ _ Hlog), last_snoc.
    + right. split; [done |]. exists pages. by rewrite (callsSince_app _ _ _ Hlog).
  - destruct Hout as (pages & Hlog).
    exists pages. by rewrite (callsSince_app _ _ _ Hlog).
Qed.

End OneShotFacts.

Lemma groupPages_lookup flairFilterValue pages (f : string) :
  groupedFrom flairFilterValue ∅ pages !! f
    = match usernamesFor flairFilterValue f (concat pages) with
      | [] => None
      | ids => Some ids
      end.
Proof.
  pose proof (file_pages_lookup (passesFilter flairFilterValue) flairTextOrNone
                usernameOrUnknown pages ∅ f) as H.
  rewrite lookup_empty in H. etrans; [exact H |].
  unfold usernamesFor, filedUnder.
  by destruct (usernameOrUnknown <$> filter _ (concat pages)).
Qed.

Lemma getFlairGroups_lookup env fuel flairFilterValue w g w' (f : string) :
  getFlairGroups env fuel flairFilterValue w = (Grouped g, w') →
  g !! f
    = match usernamesFor flairFilterValue f (concat (pagesOf (callsSince w w'))) with
      | [] => None
      | ids => Some ids
      end.
Proof.
  intros Hrun. apply getFlairGroups_spec in Hrun as (_ & _ & _ & pages & Hcalls & _ & ->).
  rewrite Hcalls, pagesOf_callsFor. apply groupPages_lookup.
Qed.

Lemma filter_all {A} (P : A → Prop) `{∀ x, Decision (P x)} (l : list A) :
  (∀ x, P x) → filter P l = l.
Proof.
  intros HP. induction l as [| x l IH]; [done |].
  rewrite filter_cons, decide_True by done. by rewrite IH.
Qed.

(** X15. The group the one-shot scan returns for a label is the list, in
    the order the listing returned them and with repetitions, of the
    identifiers ("Unknown" for a missing or empty one) of exactly the
    members that pass the filter and whose flair text ("No Flair" for a
    missing or empty one) is that label; a label no such member carries
    has no group. *)
Theorem X15_one_shot_groups env fuel flairFilterValue w g w' (f : string) :
  getFlairGroups env fuel flairFilterValue w = (Grouped g, w') →
  g !! f
    = match usernamesFor flairFilterValue f (concat (pagesOf (callsSince w w'))) with
      | [] => None
      | ids => Some ids
      end.
Proof. apply getFlairGroups_lookup. Qed.

Lemma X15_witness :
  OneShotExamples.groupsOf OneShotExamples.run !! "gold"
    = match usernamesFor None "gold"
              (concat (pagesOf (callsSince Examples.emptyWorld OneShotExamples.run.2))) with
      | [] => None
      | ids => Some ids
      end.
Proof.
  apply (X15_one_shot_groups Examples.calm 5 None Examples.emptyWorld).
  vm_compute. reflexivity.
Defined.

(** X16. Without a filter (none given, or the empty string) the one-shot
    scan files every member of every page it fetched under exactly one
    label: the groups hold as many identifiers as the pages hold
    members, unlabelled members included. *)
Theorem X16_one_shot_files_everyone env fuel flairFilterValue w g w' :
  flairFilterValue = None ∨ flairFilterValue = Some "" →
  getFlairGroups env fuel flairFilterValue w = (Grouped g, w') →
  totalIdentifiers g
    = Z.of_nat (List.length (concat (pagesOf (callsSince w w')))).
Proof.
  intros Hfilter Hrun.
  apply getFlairGroups_spec in Hrun as (_ & _ & _ & pages & Hcalls & _ & ->).
  rewrite Hcalls, pagesOf_callsFor.
  pose proof (file_pages_total (passesFilter flairFilterValue) flairTextOrNone
                usernameOrUnknown pages.*1 ∅) as H.
  etrans; [exact H |]. unfold totalIdentifiers at 1. rewrite map_fold_empty.
  unfold countMembers. rewrite filter_all; [lia |].
  intros u. by destruct Hfilter as [-> | ->].
Qed.

Lemma X16_witness :
  totalIdentifiers (OneShotExamples.groupsOf OneShotExamples.run)
    = Z.of_nat (List.length
                  (concat (pagesOf (callsSince Examples.emptyWorld OneShotExamples.run.2)))).
Proof.
  apply (X16_one_shot_files_everyone Examples.calm 5 None Examples.emptyWorld).
  - by left.
  - vm_compute. reflexivity.
Defined.

(** X17. With a non-empty filter every group the one-shot scan returns
    is non-empty, and its label contains the filter text when both are
    taken in lower case. *)
Theorem X17_one_shot_filter env fuel (c : ascii) (rest : string) w g w' (f : string) ids :
  getFlairGroups env fuel (Some (String c rest)) w = (Grouped g, w') →
  g !! f = Some ids →
  ids ≠ [] ∧
  JSText.includes (JSText.toLowerCase f) (JSText.toLowerCase (String c rest)) = true.
Proof.
  intros Hrun Hf.
  rewrite (getFlairGroups_lookup env fuel _ w g w' f Hrun) in Hf.
  unfold usernamesFor in Hf.
  destruct (filter _ _) as [| u us] eqn:Hfilter; [done |].
  injection Hf as <-. split; [done |].
  assert (Hu : u ∈ filter (λ u, passesFilter (Some (String c rest)) u = true
                                ∧ flairTextOrNone u = f)
                 (concat (pagesOf (callsSince w w'))))
    by (rewrite Hfilter; apply list_elem_of_here).
  apply list_elem_of_filter in Hu as [[Hpass <-] _]. exact Hpass.
Qed.

Lemma X17_witness :
  ["u1"; "u2"; "u4"] ≠ [] ∧
  JSText.includes (JSText.toLowerCase "gold") (JSText.toLowerCase "GOL") = true.
Proof.
  apply (X17_one_shot_filter Examples.calm 5 "G"%char "OL" Examples.emptyWorld
           (OneShotExamples.groupsOf OneShotExamples.filteredRun)
           OneShotExamples.filteredRun.2 "gold").
  - vm_compute. reflexivity.
  - vm_compute. reflexivity.
Defined.

Lemma fileUnder_plain (g : Groups) u :
  plainMember u →
  fileUnder (passesFilter None) flairTextOrNone usernameOrUnknown g u = mergeUserG g u.
Proof.
  intros (Hacc & Hlabel & Huser). unfold fileUnder, mergeUserG, passesFilter.
  rewrite Hacc.
  assert (Hl : flairTextOrNone u = labelOf u).
  { unfold accepted in Hacc. apply negb_true_iff, bool_decide_eq_false in Hacc.
    rewrite Hlabel in *. unfold flairTextOrNone.
    by destruct (flairText u) as [[| c r] |]. }
  assert (Hn : usernameOrUnknown u = identifierOf u).
  { unfold usernameOrUnknown, identifierOf. by destruct (user u) as [[| c r] |]. }
  by rewrite Hl, Hn.
Qed.

Lemma groupPages_plain pages : ∀ g : Groups,
  Forall plainMember (concat pages) →
  groupedFrom None g pages = fold_left mergePageG pages g.
Proof.
  unfold groupedFrom.
  induction pages as [| users pages IH]; intros g; cbn [fold_left concat]; [done |].
  intros [Husers Hrest]%Forall_app.
  assert (Hpage : fold_left (fileUnder (passesFilter None) flairTextOrNone
                               usernameOrUnknown) users g
                  = mergePageG g users).
  { clear IH Hrest. unfold mergePageG. revert g.
    induction users as [| u users IHu]; intros g; cbn [fold_left]; [done |].
    apply Forall_cons in Husers as [Hu Husers].
    rewrite fileUnder_plain by done. auto. }
  rewrite Hpage. auto.
Qed.

(** X18. The two scans agree on plain members.  When every member of the
    pages has a non-empty label free of surrounding white space and an
    identifier that is not the empty string, the groups the one-shot scan
    returns are the groups of the checkpoint of a chunked generation that
    was given the same pages. *)
Theorem X18_scans_agree_on_plain_members
    env fuel w g w' env2 v v' (r' : FlairScanResult Obj) :
  getFlairGroups env fuel None w = (Grouped g, w') →
  generation env2 v v' r' →
  pagesOf (callsSince v v') = pagesOf (callsSince w w') →
  Forall plainMember (concat (pagesOf (callsSince w w'))) →
  snapshot (heap v') (flairGroups r') = g.
Proof.
  intros Hone [now Hrun] Hsame Hplain.
  apply getFlairGroups_spec in Hone as (_ & _ & _ & pages1 & Hcalls1 & _ & ->).
  apply chunks_spec in Hrun as (pages2 & Hlog2 & _ & Hfold & _ & _).
  rewrite (callsSince_app _ _ _ Hlog2), Hcalls1, !pagesOf_callsFor in Hsame.
  rewrite Hcalls1, pagesOf_callsFor in Hplain.
  cbn [initialPartial flairGroups scannedUsers] in Hfold.
  destruct (mergePages_value pages2.*1 ∅ (heap v) 0 _ (separate_empty _) Hfold) as [_ Hv].
  cbn [fst snd] in Hv.
  rewrite Hv, snapshot_empty, Hsame. symmetry. by apply groupPages_plain.
Qed.

Lemma X18_witness :
  snapshot (heap Examples.calmRun.2) (flairGroups (Examples.resultOf Examples.calmRun))
    = OneShotExamples.groupsOf OneShotExamples.run.
Proof.
  apply (X18_scans_agree_on_plain_members Examples.calm 5 Examples.emptyWorld
           (OneShotExamples.groupsOf OneShotExamples.run) OneShotExamples.run.2
           Examples.calm Examples.emptyWorld Examples.calmRun.2).
  - vm_compute. reflexivity.
  - exists 0. apply (chunks_one _ 5%nat). vm_compute. reflexivity.
  - vm_compute. reflexivity.
  - repeat (apply Forall_cons; split;
            [split; [reflexivity | split; [reflexivity | discriminate]] |]).
    apply Forall_nil. done.
Defined.

(** X19. The one-shot scan has no error handling and no checkpoint: it
    never touches the store, and when its last listing call throws or
    gives a response whose members cannot be iterated it throws (the
    listing's error, or a TypeError) and returns no groups at all. *)
Theorem X19_one_shot_failure env fuel flairFilterValue w out w' :
  getFlairGroups env fuel flairFilterValue w = (out, w') →
  kv w' = kv w ∧ kvOps w' = kvOps w ∧
  (∀ cursor bad,
     last (callsSince w w') = Some (cursor, bad) → fatal bad = true →
     out = ScanThrew (match bad with
                      | FetchThrows err => ListingError err
                      | _ => NotIterable
                      end)).
Proof.
  intros Hrun. apply getFlairGroups_spec in Hrun as (Hkv & _ & Hops & Hout).
  split; [done |]. split; [done |]. intros cursor bad Hlast Hbad.
  destruct out as [g | e |].
  - destruct Hout as (pages & Hcalls & _ & _). rewrite Hcalls in Hlast.
    apply callsFor_last_not_fatal in Hlast. congruence.
  - destruct Hout as [(cursor' & bad' & Hlast' & _ & ->) | (_ & pages & Hcalls)].
    + rewrite Hlast in Hlast'. by injection Hlast' as <- <-.
    + rewrite Hcalls in Hlast. apply callsFor_last_not_fatal in Hlast. congruence.
  - destruct Hout as (pages & Hcalls). rewrite Hcalls in Hlast.
    apply callsFor_last_not_fatal in Hlast. congruence.
Qed.

Lemma X19_witness :
  kv OneShotExamples.brokenRun.2 = kv Examples.emptyWorld ∧
  kvOps OneShotExamples.brokenRun.2 = kvOps Examples.emptyWorld ∧
  OneShotExamples.brokenRun.1 = ScanThrew (ListingError "Error: listing unavailable").
Proof.
  destruct (X19_one_shot_failure Examples.broken 5 None Examples.emptyWorld
              OneShotExamples.brokenRun.1 OneShotExamples.brokenRun.2)
    as (Hkv & Hops & Hthrown).
  - vm_compute. reflexivity.
  - split; [exact Hkv |]. split; [exact Hops |].
    apply (Hthrown (Some "t1") (FetchThrows "Error: listing unavailable")).
    + vm_compute. reflexivity.
    + reflexivity.
Defined.

(** ** The form handler: its three branches *)

Lemma materialise_spec (g : Groups) (h : Heap) :
  ∃ extra,
    (materialise g h).2 = h ++ extra ∧
    (∀ f l, (materialise g h).1 !! f = Some l →
            (List.length h <= l < List.length (materialise g h).2)%nat) ∧
    (∀ f1 f2 l, (materialise g h).1 !! f1 = Some l →
                (materialise g h).1 !! f2 = Some l → f1 = f2) ∧
    snapshot (materialise g h).2 (materialise g h).1 = g.
Proof.
  unfold materialise.
  apply (map_fold_weak_ind
           (λ (acc : Obj * Heap) (m : Groups),
              ∃ extra, acc.2 = h ++ extra ∧
                (∀ f l, acc.1 !! f = Some l → (List.length h <= l < List.length acc.2)%nat) ∧
                (∀ f1 f2 l, acc.1 !! f1 = Some l → acc.1 !! f2 = Some l → f1 = f2) ∧
                snapshot acc.2 acc.1 = m)).
  - exists []. cbn. rewrite app_nil_r. split; [done |].
    split; [intros f l; by rewrite lookup_empty |].
    split; [intros f1 f2 l; by rewrite lookup_empty |]. apply snapshot_empty.
  - intros f ids m [o h1] Hfresh (extra & Hh & Hin & Hinj & Hsnap). cbn [fst snd] in *.
    exists (extra ++ [ids]). split; [by rewrite Hh, app_assoc |].
    assert (Hnew : o !! f = None).
    { destruct (o !! f) as [l |] eqn:Hl; [| done].
      pose proof (Hin f l Hl) as Hl'.
      assert (Hs : snapshot h1 o !! f = None) by (by rewrite Hsnap).
      rewrite snapshot_lookup, Hl in Hs. cbn in Hs.
      apply lookup_ge_None in Hs. lia. }
    split; [| split].
    + intros f' l. rewrite length_app. cbn [List.length].
      destruct (decide (f = f')) as [<- | Hne].
      * rewrite lookup_insert_eq. intros [= <-]. subst h1. rewrite length_app. lia.
      * rewrite lookup_insert_ne by done. intros Hl. apply Hin in Hl. lia.
    + intros f1 f2 l.
      destruct (decide (f = f1)) as [<- | N1]; destruct (decide (f = f2)) as [<- | N2];
        rewrite ?lookup_insert_eq, ?lookup_insert_ne by done; try done.
      * intros [= <-] H2. apply Hin in H2. lia.
      * intros H1 [= <-]. apply Hin in H1. lia.
      * apply Hinj.
    + apply map_eq. intros f'. rewrite snapshot_lookup.
      destruct (decide (f = f')) as [<- | Hne].
      * rewrite !lookup_insert_eq. cbn.
        by rewrite lookup_app_r, Nat.sub_diag by done.
      * rewrite !lookup_insert_ne by done. rewrite <- Hsnap, snapshot_lookup.
        destruct (o !! f') as [l |] eqn:Hl; cbn; [| done].
        apply lookup_app_l. apply Hin in Hl. lia.
Qed.

Lemma materialise_separate (g : Groups) (h : Heap) :
  separate (materialise g h).2 (materialise g h).1 ∧
  snapshot (materialise g h).2 (materialise g h).1 = g.
Proof.
  destruct (materialise_spec g h) as (extra & _ & Hin & Hinj & Hsnap).
  split; [split |]; [| exact Hinj | exact Hsnap].
  intros f l Hl. apply Hin in Hl. lia.
Qed.

Section FormFacts.

Context (env : Env).

Lemma bind_kvGet {B} key (k : option JSONValue → M B) w :
  bind (kvGet env key) k w
    = if kvFails env (kvOps w) then (Threw (KVError key), countKvOp w)
      else k (kv w !! key) (countKvOp w).
Proof.
  unfold bind, kvGet, kvOperation. by destruct (kvFails env (kvOps w)).
Qed.

(** The handler reads the two flags first; a read that throws ends it. *)
Lemma acceptForm_reads fuel found cancelScan w :
  acceptForm env fuel found cancelScan w
    = if kvFails env (kvOps w)
      then (Threw (KVError "flairScanInProgress"), countKvOp w)
      else if kvFails env (S (kvOps w))
      then (Threw (KVError "flairScanFailed"), countKvOp (countKvOp w))
      else
        (if negb found then ret NoSubreddit
         else if cancelScan then clearScan env ;;; ret Cancelled
         else if truthy (kv w !! "flairScanInProgress")
                 && negb (truthy (kv w !! "flairScanFailed"))
         then
           let* partialRaw := kvGet env "flairScanPartial" in
           let* partial :=
             match partialRaw with
             | Some v =>
                 if truthy partialRaw
                 then (λ w, let '(p, h) := castPartial v (heap w) in
                            (Returned p, withHeap h w))
                 else (let* now := dateNow env in ret (initialPartial now))
             | None => let* now := dateNow env in ret (initialPartial now)
             end in
           let* result := continueScan env fuel partial in
           let* _shown := dateNow env in
           ret (Continued result)
         else
           safeKVDelete env "flairScanFailed" ;;;
           safeKVDelete env "flairScanFailedMessage" ;;;
           let* scanStartedAtRaw := kvGet env "flairScanStartedAt" in
           (if truthy scanStartedAtRaw then ret tt
            else let* now := dateNow env in
                 safeKVWrite env "flairScanStartedAt" (VNum now)) ;;;
           ret StartsQuickScan) (countKvOp (countKvOp w)).
Proof.
  unfold acceptForm. rewrite bind_kvGet.
  destruct (kvFails env (kvOps w)); [done |].
  rewrite bind_kvGet. cbn [kv kvOps countKvOp].
  by destruct (kvFails env (S (kvOps w))).
Qed.

Lemma step_quiet (b : bool) line key w :
  let w' := if b then contained line w else deleted key w in
  fetchLog w' = fetchLog w ∧ heap w' = heap w ∧ ticks w' = ticks w.
Proof. by destruct b. Qed.

Lemma write_quiet (b : bool) line key v w :
  let w' := if b then contained line w else wrote key v w in
  fetchLog w' = fetchLog w ∧ heap w' = heap w ∧ ticks w' = ticks w.
Proof. by destruct b. Qed.

Lemma clearScan_quiet w :
  fetchLog (clearScan env w).2 = fetchLog w ∧ heap (clearScan env w).2 = heap w.
Proof.
  unfold clearScan, tryCatch.
  rewrite bind_safeKVDelete.
  destruct (step_quiet (kvFails env (kvOps w)) ("safeKVDelete failed key=" +:+ "flairScanPartial")
              "flairScanPartial" w) as (L1 & H1 & _).
  set (w1 := if kvFails env (kvOps w) then _ else _) in *.
  rewrite bind_safeKVDelete.
  destruct (step_quiet (kvFails env (kvOps w1)) ("safeKVDelete failed key=" +:+ "flairScanResult")
              "flairScanResult" w1) as (L2 & H2 & _).
  set (w2 := if kvFails env (kvOps w1) then _ else _) in *.
  rewrite bind_safeKVDelete.
  destruct (step_quiet (kvFails env (kvOps w2)) ("safeKVDelete failed key=" +:+ "flairScanInProgress")
              "flairScanInProgress" w2) as (L3 & H3 & _).
  set (w3 := if kvFails env (kvOps w2) then _ else _) in *.
  rewrite bind_safeKVDelete.
  destruct (step_quiet (kvFails env (kvOps w3)) ("safeKVDelete failed key=" +:+ "flairScanFailed")
              "flairScanFailed" w3) as (L4 & H4 & _).
  set (w4 := if kvFails env (kvOps w3) then _ else _) in *.
  rewrite bind_safeKVDelete.
  destruct (step_quiet (kvFails env (kvOps w4)) ("safeKVDelete failed key=" +:+ "flairScanFailedMessage")
              "flairScanFailedMessage" w4) as (L5 & H5 & _).
  set (w5 := if kvFails env (kvOps w4) then _ else _) in *.
  rewrite safeKVDelete_run.
  destruct (step_quiet (kvFails env (kvOps w5)) ("safeKVDelete failed key=" +:+ "flairScanStartedAt")
              "flairScanStartedAt" w5) as (L6 & H6 & _).
  set (w6 := if kvFails env (kvOps w5) then _ else _) in *.
  cbn [snd]. split; congruence.
Qed.

(** The Continue branch: what the handler does when it ends with one
    more chunk. *)
Lemma acceptForm_continued fuel found cancelScan w r w' :
  acceptForm env fuel found cancelScan w = (Returned (Continued r), w') →
  ∃ (partial : FlairScanResult Obj) w1 w2,
    continueScan env fuel partial w1 = (Returned r, w2) ∧
    fetchLog w1 = fetchLog w ∧ fetchLog w' = fetchLog w2 ∧ heap w' = heap w2 ∧
    kv w1 = kv w ∧ kv w' = kv w2 ∧
    (found = true ∧ cancelScan = false ∧
     truthy (kv w !! "flairScanInProgress") = true ∧
     truthy (kv w !! "flairScanFailed") = false) ∧
    match kv w !! "flairScanPartial" with
    | Some (JScan p) =>
        separate (heap w1) (flairGroups partial) ∧
        snapshot (heap w1) (flairGroups partial) = flairGroups p ∧
        after partial = after p ∧ scannedUsers partial = scannedUsers p ∧
        lastPageNumber partial = lastPageNumber p
    | _ =>
        flairGroups partial = ∅ ∧ after partial = None ∧ scannedUsers partial = 0 ∧
        default 0 (lastPageNumber partial) = 0
    end.
Proof.
  rewrite acceptForm_reads.
  destruct (kvFails env (kvOps w)); [done |].
  destruct (kvFails env (S (kvOps w))); [done |].
  destruct found; cbn [negb]; [| done].
  destruct cancelScan.
  { unfold bind at 1. destruct (clearScan_run env (countKvOp (countKvOp w)))
      as (wc & -> & _). done. }
  destruct (truthy (kv w !! "flairScanInProgress")) eqn:Hrunning; cbn [andb];
    [destruct (truthy (kv w !! "flairScanFailed")) eqn:Hfailed; cbn [negb] |].
  2:{ rewrite bind_kvGet.
      set (w0 := countKvOp (countKvOp w)).
      destruct (kvFails env (kvOps w0)); [done |].
      change (kv w0) with (kv w).
      set (w1 := countKvOp w0).
      unfold bind at 1.
      match goal with |- (let (o, w3) := ?m in _) = _ → _ => set (pick := m) end.
      assert (Hpick : ∃ partial w2,
                 pick = (Returned partial, w2) ∧
                 fetchLog w2 = fetchLog w ∧ kv w2 = kv w ∧
                 match kv w !! "flairScanPartial" with
                 | Some (JScan p) =>
                     separate (heap w2) (flairGroups partial) ∧
                     snapshot (heap w2) (flairGroups partial) = flairGroups p ∧
                     after partial = after p ∧ scannedUsers partial = scannedUsers p ∧
                     lastPageNumber partial = lastPageNumber p
                 | _ =>
                     flairGroups partial = ∅ ∧ after partial = None ∧
                     scannedUsers partial = 0 ∧ default 0 (lastPageNumber partial) = 0
                 end).
      { subst pick.
        destruct (kv w !! "flairScanPartial") as [[| [] | z | s | p] |] eqn:Hp;
          cbn [truthy]; try (eexists _, _; split; [reflexivity |]; by cbn).
        - destruct z; eexists _, _; (split; [reflexivity |]); by cbn.
        - destruct s; eexists _, _; (split; [reflexivity |]); by cbn.
        - unfold castPartial.
          destruct (materialise (flairGroups p) (heap w1)) as [o h1] eqn:Hm.
          pose proof (materialise_separate (flairGroups p) (heap w1)) as [Hsep Hsnap].
          rewrite Hm in Hsep, Hsnap. cbn [fst snd] in Hsep, Hsnap.
          eexists _, _. split; [reflexivity |]. by cbn. }
      destruct Hpick as (partial & w2 & Hpick & Hlog2 & Hkv2 & Hfields).
      rewrite Hpick. unfold bind at 1.
      destruct (continueScan env fuel partial w2) as [[r0 | e |] w3] eqn:Hrun; [| done | done].
      rewrite bind_dateNow. unfold ret. intros [= <- <-].
      exists partial, w2, w3. by cbn. }
  - rewrite bind_safeKVDelete, bind_safeKVDelete, bind_kvGet.
    destruct (kvFails env _); [done |].
    unfold bind at 1.
    match goal with |- context [(if ?c then ret tt else ?m) ?x] =>
      destruct ((if c then ret tt else m) x) as [[[] | e |] wx]
    end; done.
  - rewrite bind_safeKVDelete, bind_safeKVDelete, bind_kvGet.
    destruct (kvFails env _); [done |].
    unfold bind at 1.
    match goal with |- context [(if ?c then ret tt else ?m) ?x] =>
      destruct ((if c then ret tt else m) x) as [[[] | e |] wx]
    end; done.
Qed.

End FormFacts.

(** A chunk that returns, seen from the checkpoint it was resumed from. *)
Lemma continueScan_returned env fuel (partial : FlairScanResult Obj) w r w' :
  separate (heap w) (flairGroups partial) →
  continueScan env fuel partial w = (Returned r, w') →
  scannedUsers r
    = scannedUsers partial + countMembers accepted (pagesOf (callsSince w w')) ∧
  lastPageNumber r
    = Some (default 0 (lastPageNumber partial)
            + Z.of_nat (List.length (pagesOf (callsSince w w')))
            + (if completed r then 0 else 1)) ∧
  ∀ f, snapshot (heap w') (flairGroups r) !! f
       = match snapshot (heap w) (flairGroups partial) !! f,
               identifiersFor f (concat (pagesOf (callsSince w w'))) with
         | None, [] => None
         | old, more => Some (default [] old ++ more)
         end.
Proof.
  unfold continueScan. intros Hsep Hrun.
  apply buildFlairGroupsPaginatedChunk_spec in Hrun.
  inversion Hrun as [pages r0 w0 Hlog _ Hfold Hpage _ _ _ _ _ | | | |]; subst.
  rewrite (callsSince_app _ _ _ Hlog), pagesOf_callsFor.
  destruct (mergePages_value pages.*1 (flairGroups partial) (heap w)
              (scannedUsers partial) _ Hsep Hfold) as [_ Hv].
  pose proof (mergePages_count _ _ _ Hfold) as Hc.
  cbn [fst snd] in Hv, Hc.
  split; [exact Hc |]. split; [by rewrite length_fmap |].
  intros f. by rewrite Hv, mergePagesG_lookup.
Qed.

Lemma callsSince_same w1 w2 w w' :
  fetchLog w1 = fetchLog w → fetchLog w' = fetchLog w2 →
  callsSince w w' = callsSince w1 w2.
Proof. unfold callsSince. by intros -> ->. Qed.

(** X20. Cancel Scan on the form: the handler lists no member and touches
    no key other than the six clearScan deletes.  It ends after the clear,
    and then on a store that answers the menu finds no scan; or it ends
    with the error of one of its two unguarded flag reads, before anything
    was deleted. *)
Theorem X20_cancel_from_the_form env fuel w out w' :
  acceptForm env fuel true true w = (out, w') →
  fetchLog w' = fetchLog w ∧
  kvFrame CLEARED_KEYS w w' ∧
  (out = Returned Cancelled ∧ (storeHealthy env w w' → noScan (kv w') = true) ∨
   (out = Threw (KVError "flairScanInProgress") ∨ out = Threw (KVError "flairScanFailed")) ∧
   kv w' = kv w).
Proof.
  rewrite acceptForm_reads.
  destruct (kvFails env (kvOps w)) eqn:Hread1.
  { intros [= <- <-]. split; [done |]. split; [by intros k _ |]. right. by split; [left |]. }
  destruct (kvFails env (S (kvOps w))) eqn:Hread2.
  { intros [= <- <-]. split; [done |]. split; [by intros k _ |]. right. by split; [right |]. }
  cbn [negb]. unfold bind at 1.
  set (w0 := countKvOp (countKvOp w)).
  destruct (clearScan_quiet env w0) as [Hlog _].
  destruct (clearScan_run env w0) as (wc & Hclear & Hops & Hframe & Hgone).
  rewrite Hclear in Hlog |- *. cbn [snd] in Hlog. unfold ret. intros [= <- <-].
  split; [exact Hlog |]. split; [exact Hframe |]. left. split; [done |].
  intros Hq. apply noScan_cleared, Hgone.
  intros i Hi. apply Hq. cbn in Hi |- *. lia.
Qed.

Lemma X20_witness :
  fetchLog FormExamples.cancelled.2 = fetchLog Examples.completedWorld ∧
  kvFrame CLEARED_KEYS Examples.completedWorld FormExamples.cancelled.2 ∧
  (FormExamples.cancelled.1 = Returned Cancelled ∧
   (storeHealthy Examples.calm Examples.completedWorld FormExamples.cancelled.2 →
    noScan (kv FormExamples.cancelled.2) = true) ∨
   (FormExamples.cancelled.1 = Threw (KVError "flairScanInProgress") ∨
    FormExamples.cancelled.1 = Threw (KVError "flairScanFailed")) ∧
   kv FormExamples.cancelled.2 = kv Examples.completedWorld).
Proof.
  apply (X20_cancel_from_the_form Examples.calm 5 Examples.completedWorld).
  unfold FormExamples.cancelled. by destruct (acceptForm _ _ _ _ _).
Defined.

(** X21. Continue Scan on the form resumes from the stored checkpoint:
    the handler takes this branch only with an answering subreddit
    lookup, the in-progress flag truthy and the failed flag falsy; its
    listing calls start at the checkpoint's cursor and follow the
    next-tokens; the count it shows is the checkpoint's count plus the
    accepted members of the pages fetched; the page number is the
    checkpoint's plus the pages fetched, plus one when the scan is not
    completed; and each group is the checkpoint's group followed by the
    identifiers fetched for that label. *)
Theorem X21_continue_resumes_the_checkpoint env fuel found cancelScan w p r w' :
  acceptForm env fuel found cancelScan w = (Returned (Continued r), w') →
  kv w !! "flairScanPartial" = Some (JScan p) →
  (found = true ∧ cancelScan = false ∧
   truthy (kv w !! "flairScanInProgress") = true ∧
   truthy (kv w !! "flairScanFailed") = false) ∧
  chained (after p) (callsSince w w') ∧
  scannedUsers r = scannedUsers p + countMembers accepted (pagesOf (callsSince w w')) ∧
  lastPageNumber r
    = Some (default 0 (lastPageNumber p)
            + Z.of_nat (List.length (pagesOf (callsSince w w')))
            + (if completed r then 0 else 1)) ∧
  ∀ f, snapshot (heap w') (flairGroups r) !! f
       = match flairGroups p !! f,
               identifiersFor f (concat (pagesOf (callsSince w w'))) with
         | None, [] => None
         | old, more => Some (default [] old ++ more)
         end.
Proof.
  intros Hrun Hstored.
  apply acceptForm_continued in Hrun
    as (partial & w1 & w2 & Hrun & Hlog1 & Hlog2 & Hheap & _ & _ & Hbranch & Hfields).
  rewrite Hstored in Hfields. destruct Hfields as (Hsep & Hsnap & Hafter & Hcount & Hpage).
  rewrite (callsSince_same w1 w2 w w' Hlog1 Hlog2), Hheap.
  split; [exact Hbranch |].
  split; [rewrite <- Hafter; by eapply continueScan_chained |].
  destruct (continueScan_returned env fuel partial w1 r w2 Hsep Hrun) as (Hc & Hp & Hg).
  rewrite <- Hcount, <- Hpage, <- Hsnap. done.
Qed.

Lemma X21_witness :
  (true = true ∧ false = false ∧
   truthy (kv Examples.slowChunk1.2 !! "flairScanInProgress") = true ∧
   truthy (kv Examples.slowChunk1.2 !! "flairScanFailed") = false) ∧
  chained (after FormExamples.storedPartial)
    (callsSince Examples.slowChunk1.2 FormExamples.continued.2) ∧
  scannedUsers (FormExamples.resultOf FormExamples.continued)
    = scannedUsers FormExamples.storedPartial
      + countMembers accepted
          (pagesOf (callsSince Examples.slowChunk1.2 FormExamples.continued.2)) ∧
  lastPageNumber (FormExamples.resultOf FormExamples.continued)
    = Some (default 0 (lastPageNumber FormExamples.storedPartial)
            + Z.of_nat (List.length
                          (pagesOf (callsSince Examples.slowChunk1.2
                                      FormExamples.continued.2)))
            + (if completed (FormExamples.resultOf FormExamples.continued)
               then 0 else 1)) ∧
  ∀ f, snapshot (heap FormExamples.continued.2)
         (flairGroups (FormExamples.resultOf FormExamples.continued)) !! f
       = match flairGroups FormExamples.storedPartial !! f,
               identifiersFor f
                 (concat (pagesOf (callsSince Examples.slowChunk1.2
                                     FormExamples.continued.2))) with
         | None, [] => None
         | old, more => Some (default [] old ++ more)
         end.
Proof.
  apply (X21_continue_resumes_the_checkpoint Examples.slow 5 true false
           Examples.slowChunk1.2 FormExamples.storedPartial);
    vm_compute; reflexivity.
Defined.

(** X22. Continue Scan with no usable checkpoint in the store (none, a
    falsy value, or a value that is no checkpoint) starts over without
    saying so: the listing is read from its beginning, and the count, the
    page number and the groups are those of the pages fetched alone. *)
Theorem X22_continue_without_checkpoint env fuel found cancelScan w r w' :
  acceptForm env fuel found cancelScan w = (Returned (Continued r), w') →
  (∀ p, kv w !! "flairScanPartial" ≠ Some (JScan p)) →
  chained None (callsSince w w') ∧
  scannedUsers r = countMembers accepted (pagesOf (callsSince w w')) ∧
  lastPageNumber r
    = Some (Z.of_nat (List.length (pagesOf (callsSince w w')))
            + (if completed r then 0 else 1)) ∧
  ∀ f, snapshot (heap w') (flairGroups r) !! f
       = match identifiersFor f (concat (pagesOf (callsSince w w'))) with
         | [] => None
         | ids => Some ids
         end.
Proof.
  intros Hrun Hnone.
  apply acceptForm_continued in Hrun
    as (partial & w1 & w2 & Hrun & Hlog1 & Hlog2 & Hheap & _ & _ & _ & Hfields).
  assert (Hempty : flairGroups partial = ∅ ∧ after partial = None ∧
                   scannedUsers partial = 0 ∧ default 0 (lastPageNumber partial) = 0).
  { destruct (kv w !! "flairScanPartial") as [[| | | | p] |]; try done.
    by destruct (Hnone p). }
  destruct Hempty as (Hg0 & Hafter & Hcount & Hpage).
  rewrite (callsSince_same w1 w2 w w' Hlog1 Hlog2), Hheap.
  split; [rewrite <- Hafter; by eapply continueScan_chained |].
  assert (Hsep : separate (heap w1) (flairGroups partial))
    by (rewrite Hg0; apply separate_empty).
  destruct (continueScan_returned env fuel partial w1 r w2 Hsep Hrun) as (Hc & Hp & Hg).
  rewrite Hcount in Hc. rewrite Hpage in Hp.
  split; [by rewrite Hc, Z.add_0_l |]. split; [by rewrite Hp, Z.add_0_l |].
  intros f. rewrite Hg, Hg0, snapshot_empty, lookup_empty.
  by destruct (identifiersFor f _).
Qed.

Lemma X22_witness :
  chained None (callsSince FormExamples.flagOnly FormExamples.restarted.2) ∧
  scannedUsers (FormExamples.resultOf FormExamples.restarted)
    = countMembers accepted
        (pagesOf (callsSince FormExamples.flagOnly FormExamples.restarted.2)) ∧
  lastPageNumber (FormExamples.resultOf FormExamples.restarted)
    = Some (Z.of_nat (List.length
                        (pagesOf (callsSince FormExamples.flagOnly
                                    FormExamples.restarted.2)))
            + (if completed (FormExamples.resultOf FormExamples.restarted)
               then 0 else 1)) ∧
  ∀ f, snapshot (heap FormExamples.restarted.2)
         (flairGroups (FormExamples.resultOf FormExamples.restarted)) !! f
       = match identifiersFor f
                 (concat (pagesOf (callsSince FormExamples.flagOnly
                                     FormExamples.restarted.2))) with
         | [] => None
         | ids => Some ids
         end.
Proof.
  apply (X22_continue_without_checkpoint Examples.calm 5 true false FormExamples.flagOnly).
  - vm_compute. reflexivity.
  - intros p. vm_compute. discriminate.
Defined.

(** X23. Start, Retry and Refresh on the form, up to the quick scan they
    hand over to: this branch is taken when no scan is running or the
    last one failed.  The handler lists no member and touches only the
    two failure keys and the start instant: a stored result and a stored
    checkpoint are still there when the quick scan begins.  A truthy
    start instant is kept, so a refresh keeps the instant of the scan
    before it; on a store that answers the failure keys are gone and a
    missing start instant is set to the clock. *)
Theorem X23_start_touches_three_keys env fuel found cancelScan w w' :
  acceptForm env fuel found cancelScan w = (Returned StartsQuickScan, w') →
  (found = true ∧ cancelScan = false ∧
   (truthy (kv w !! "flairScanInProgress") = false ∨
    truthy (kv w !! "flairScanFailed") = true)) ∧
  fetchLog w' = fetchLog w ∧
  kvFrame ["flairScanFailed"; "flairScanFailedMessage"; "flairScanStartedAt"] w w' ∧
  (truthy (kv w !! "flairScanStartedAt") = true →
   kv w' !! "flairScanStartedAt" = kv w !! "flairScanStartedAt") ∧
  (storeHealthy env w w' →
   kv w' !! "flairScanFailed" = None ∧ kv w' !! "flairScanFailedMessage" = None ∧
   (truthy (kv w !! "flairScanStartedAt") = false →
    kv w' !! "flairScanStartedAt" = Some (JNum (clock env (ticks w))))).
Proof.
  rewrite acceptForm_reads.
  destruct (kvFails env (kvOps w)) eqn:Hread1; [done |].
  destruct (kvFails env (S (kvOps w))) eqn:Hread2; [done |].
  destruct found; cbn [negb]; [| done].
  destruct cancelScan.
  { unfold bind at 1. destruct (clearScan_run env (countKvOp (countKvOp w)))
      as (wc & -> & _). done. }
  set (w0 := countKvOp (countKvOp w)).
  assert (O0 : kvOps w0 = S (S (kvOps w))) by done.
  destruct (truthy (kv w !! "flairScanInProgress") && negb (truthy (kv w !! "flairScanFailed")))
    eqn:Hbranch.
  { rewrite bind_kvGet. destruct (kvFails env (kvOps w0)); [done |].
    unfold bind at 1.
    match goal with |- (let (o, w3) := ?m in _) = _ → _ => destruct m as [[partial | e |] wp] end;
      [| done | done].
    unfold bind at 1.
    by destruct (continueScan env fuel partial wp) as [[r0 | e |] w3]. }
  assert (Hwhy : truthy (kv w !! "flairScanInProgress") = false ∨
                 truthy (kv w !! "flairScanFailed") = true).
  { destruct (truthy (kv w !! "flairScanInProgress")); [| by left].
    destruct (truthy (kv w !! "flairScanFailed")); [by right | done]. }
  rewrite bind_safeKVDelete.
  destruct (delete_step env "flairScanFailed" w0) as (O1 & F1 & K1 & D1).
  destruct (step_quiet (kvFails env (kvOps w0)) ("safeKVDelete failed key=" +:+ "flairScanFailed")
              "flairScanFailed" w0) as (L1 & _ & T1).
  set (w1 := if kvFails env (kvOps w0) then _ else _) in *.
  rewrite bind_safeKVDelete.
  destruct (delete_step env "flairScanFailedMessage" w1) as (O2 & F2 & K2 & D2).
  destruct (step_quiet (kvFails env (kvOps w1))
              ("safeKVDelete failed key=" +:+ "flairScanFailedMessage")
              "flairScanFailedMessage" w1) as (L2 & _ & T2).
  set (w2 := if kvFails env (kvOps w1) then _ else _) in *.
  rewrite bind_kvGet.
  destruct (kvFails env (kvOps w2)) eqn:Hread3; [done |].
  assert (Hstart : kv w2 !! "flairScanStartedAt" = kv w !! "flairScanStartedAt").
  { rewrite F2, F1 by set_solver. done. }
  rewrite Hstart. unfold bind at 1.
  destruct (truthy (kv w !! "flairScanStartedAt")) eqn:Hset.
  - unfold ret. intros [= <-].
    split; [done |]. split; [change (fetchLog w2 = fetchLog w); by rewrite L2, L1 |].
    split; [| split].
    + intros k Hk. cbn. rewrite F2, F1 by set_solver. done.
    + intros _. exact Hstart.
    + intros Hq. unfold storeHealthy in Hq.
      change (kvOps (countKvOp w2)) with (S (kvOps w2)) in Hq.
      assert (H1 : kv w1 !! "flairScanFailed" = None) by (apply D1, Hq; lia).
      assert (H2 : kv w2 !! "flairScanFailedMessage" = None) by (apply D2, Hq; lia).
      change (kv (countKvOp w2)) with (kv w2).
      split; [by apply K2 |]. split; [done | done].
  - rewrite bind_dateNow, safeKVWrite_run. unfold ret.
    set (w3 := tick (countKvOp w2)).
    set (now := clock env (ticks (countKvOp w2))).
    destruct (write_quiet (kvFails env (kvOps w3))
                ("safeKVWrite failed key=" +:+ "flairScanStartedAt")
                "flairScanStartedAt" (VNum now) w3) as (L3 & _ & _).
    assert (Hother : ∀ k, k ≠ "flairScanStartedAt" →
              kv (if kvFails env (kvOps w3)
                  then contained ("safeKVWrite failed key=" +:+ "flairScanStartedAt") w3
                  else wrote "flairScanStartedAt" (VNum now) w3) !! k = kv w2 !! k).
    { intros k Hk. destruct (kvFails env (kvOps w3)); [done |].
      unfold wrote. cbn [kv withKv]. by apply lookup_insert_ne. }
    assert (Hops : kvOps (if kvFails env (kvOps w3)
                  then contained ("safeKVWrite failed key=" +:+ "flairScanStartedAt") w3
                  else wrote "flairScanStartedAt" (VNum now) w3)
                = S (S (kvOps w2))) by (by destruct (kvFails env (kvOps w3))).
    assert (Hnew : kvFails env (kvOps w3) = false →
              kv (if kvFails env (kvOps w3)
                  then contained ("safeKVWrite failed key=" +:+ "flairScanStartedAt") w3
                  else wrote "flairScanStartedAt" (VNum now) w3) !! "flairScanStartedAt"
              = Some (JNum now)).
    { intros ->. unfold wrote. cbn [kv withKv jsonClone]. apply lookup_insert_eq. }
    set (wf := if kvFails env (kvOps w3) then _ else _) in *.
    intros Heq. assert (Hw : w' = wf) by (by inversion Heq). subst w'. clear Heq.
    split; [done |]. split; [rewrite L3; change (fetchLog w2 = fetchLog w); by rewrite L2, L1 |].
    split; [| split].
    + intros k Hk. rewrite Hother by set_solver. rewrite F2, F1 by set_solver. done.
    + done.
    + intros Hq. unfold storeHealthy in Hq. rewrite Hops in Hq.
      assert (O3 : kvOps w3 = S (kvOps w2)) by done.
      assert (H1 : kv w1 !! "flairScanFailed" = None) by (apply D1, Hq; lia).
      assert (H2 : kv w2 !! "flairScanFailedMessage" = None) by (apply D2, Hq; lia).
      rewrite !Hother by done. split; [by apply K2 |]. split; [done |]. intros _.
      rewrite Hnew by (apply Hq; lia). subst now.
      change (ticks (countKvOp w2)) with (ticks w2). by rewrite T2, T1.
Qed.

Lemma X23_witness :
  (true = true ∧ false = false ∧
   (truthy (kv Examples.completedWorld !! "flairScanInProgress") = false ∨
    truthy (kv Examples.completedWorld !! "flairScanFailed") = true)) ∧
  fetchLog FormExamples.refreshed.2 = fetchLog Examples.completedWorld ∧
  kvFrame ["flairScanFailed"; "flairScanFailedMessage"; "flairScanStartedAt"]
    Examples.completedWorld FormExamples.refreshed.2 ∧
  (truthy (kv Examples.completedWorld !! "flairScanStartedAt") = true →
   kv FormExamples.refreshed.2 !! "flairScanStartedAt"
     = kv Examples.completedWorld !! "flairScanStartedAt") ∧
  (storeHealthy Examples.calm Examples.completedWorld FormExamples.refreshed.2 →
   kv FormExamples.refreshed.2 !! "flairScanFailed" = None ∧
   kv FormExamples.refreshed.2 !! "flairScanFailedMessage" = None ∧
   (truthy (kv Examples.completedWorld !! "flairScanStartedAt") = false →
    kv FormExamples.refreshed.2 !! "flairScanStartedAt"
      = Some (JNum (clock Examples.calm (ticks Examples.completedWorld))))).
Proof.
  apply (X23_start_touches_three_keys Examples.calm 5 true false Examples.completedWorld).
  vm_compute. reflexivity.
Defined.

(** ** mergeFlairGroups on separate and on shared arrays *)

Lemma mergeGroup_run (dst : Obj) (h : Heap) f users :
  mergeGroup (dst, h) (f, users) =
    match dst !! f with
    | Some l => Some (dst, alter (λ ids, ids ++ default [] (h !! users)) l h)
    | None =>
        if inherited f then None
        else Some (<[f := List.length h]> dst,
                   alter (λ ids, ids ++ default [] ((h ++ [[]]) !! users))
                     (List.length h) (h ++ [[]]))
    end.
Proof.
  unfold mergeGroup, truthyProperty. destruct (dst !! f) as [l |] eqn:Hl.
  - rewrite bool_decide_eq_true_2 by eauto. cbn [orb]. by rewrite Hl.
  - rewrite bool_decide_eq_false_2 by (by intros [? ?]). cbn [orb].
    destruct (inherited f).
    + by rewrite Hl.
    + by rewrite lookup_insert_eq.
Qed.

(** One entry, over separate groups and an allocated source array. *)
Lemma mergeGroup_value (dst : Obj) (h : Heap) f l r :
  separate h dst → (l < List.length h)%nat →
  mergeGroup (dst, h) (f, l) = Some r →
  separate r.2 r.1 ∧
  (List.length h <= List.length r.2)%nat ∧
  (∀ f', r.1 !! f' = dst !! f' ∨ (dst !! f' = None ∧ r.1 !! f' = Some (List.length h))) ∧
  (∀ l', (l' < List.length h)%nat → (∀ f', dst !! f' ≠ Some l') → r.2 !! l' = h !! l') ∧
  snapshot r.2 r.1
    = <[f := default [] (snapshot h dst !! f) ++ default [] (h !! l)]> (snapshot h dst).
Proof.
  intros [Hal Hinj] Hl. rewrite mergeGroup_run.
  destruct (dst !! f) as [d |] eqn:Hd;
    [| destruct (inherited f); [done |]]; intros [= <-]; cbn [fst snd].
  - split; [split |]; [| done |].
    { intros f' l'. rewrite length_alter. apply Hal. }
    split; [by rewrite length_alter |]. split; [by left |]. split.
    { intros l' _ Hfree. apply list_lookup_alter_ne. intros ->. by apply (Hfree f). }
    apply map_eq. intros f'. rewrite snapshot_lookup.
    destruct (decide (f = f')) as [<- | Hne].
    + rewrite lookup_insert_eq, snapshot_lookup, Hd. cbn.
      rewrite list_lookup_alter_eq.
      destruct (lookup_lt_is_Some_2 h d (Hal _ _ Hd)) as [ids ->]. done.
    + rewrite lookup_insert_ne by done. rewrite snapshot_lookup.
      destruct (dst !! f') as [d' |] eqn:Hd'; cbn; [| done].
      apply list_lookup_alter_ne. intros ->. apply Hne. by apply (Hinj f f' d').
  - assert (Hsrc : (h ++ [[]]) !! l = h !! l) by (by apply lookup_app_l).
    rewrite Hsrc. split; [split |].
    { intros f' l'. rewrite length_alter, length_app. cbn [List.length].
      destruct (decide (f = f')) as [<- | Hne].
      - rewrite lookup_insert_eq. intros [= <-]. lia.
      - rewrite lookup_insert_ne by done. intros Hf. apply Hal in Hf. lia. }
    { intros f1 f2 l'.
      destruct (decide (f = f1)) as [<- | N1]; destruct (decide (f = f2)) as [<- | N2];
        rewrite ?lookup_insert_eq, ?lookup_insert_ne by done; try done.
      - intros [= <-] H2. apply Hal in H2. lia.
      - intros H1 [= <-]. apply Hal in H1. lia.
      - apply Hinj. }
    split; [rewrite length_alter, length_app; lia |]. split.
    { intros f'. destruct (decide (f = f')) as [<- | Hne].
      - right. by rewrite lookup_insert_eq.
      - left. by apply lookup_insert_ne. }
    split.
    { intros l' Hl' _. rewrite list_lookup_alter_ne by lia. by apply lookup_app_l. }
    apply map_eq. intros f'. rewrite snapshot_lookup.
    destruct (decide (f = f')) as [<- | Hne].
    + rewrite !lookup_insert_eq, snapshot_lookup, Hd. cbn.
      rewrite list_lookup_alter_eq, lookup_app_r, Nat.sub_diag by done. done.
    + rewrite !lookup_insert_ne by done. rewrite snapshot_lookup.
      destruct (dst !! f') as [d' |] eqn:Hd'; cbn; [| done].
      pose proof (Hal _ _ Hd') as Hlt.
      rewrite list_lookup_alter_ne by lia. by apply lookup_app_l.
Qed.

(** The merge on groups as values. *)
Lemma mergeFlairGroups_value (src : list (string * nat)) : ∀ (dst : Obj) (h0 h : Heap),
  separate h dst → (List.length h0 <= List.length h)%nat →
  (∀ f l, (f, l) ∈ src →
          (l < List.length h0)%nat ∧ (∀ f', dst !! f' ≠ Some l) ∧ h !! l = h0 !! l) →
  ordinary dst src →
  ∃ r, mergeFlairGroups dst src h = Merged r ∧
    separate r.2 r.1 ∧
    (∀ l, (l < List.length h0)%nat → (∀ f', dst !! f' ≠ Some l) → r.2 !! l = h !! l) ∧
    snapshot r.2 r.1
      = fold_left (λ g entry,
                     <[entry.1 := default [] (g !! entry.1) ++ default [] (h0 !! entry.2)]> g)
          src (snapshot h dst).
Proof.
  unfold mergeFlairGroups.
  induction src as [| [f l] src IH]; intros dst h0 h Hsep Hlen Hsrc Hord;
    cbn [mergeEntries fold_left fst snd].
  - by exists (dst, h).
  - destruct (Hsrc f l) as (Hl & _ & Hsame); [left |].
    assert (Hl' : (l < List.length h)%nat) by lia.
    destruct (mergeGroup (dst, h) (f, l)) as [[dst1 h1] |] eqn:Hstep.
    2:{ rewrite mergeGroup_run in Hstep.
        destruct (dst !! f) eqn:Hf; [done |].
        rewrite (Hord f l) in Hstep; [done | by left | done]. }
    destruct (mergeGroup_value dst h f l _ Hsep Hl' Hstep)
      as (Hsep1 & Hlen1 & Hkeys & Hkeep & Hsnap).
    cbn [fst snd] in *.
    assert (Hfresh : ∀ l', (l' < List.length h0)%nat → (∀ f', dst !! f' ≠ Some l') →
                           ∀ f', dst1 !! f' ≠ Some l').
    { intros l' Hlt Hno f2 Hf2.
      destruct (Hkeys f2) as [Heq | [_ Heq]]; rewrite Heq in Hf2.
      - by apply (Hno f2).
      - injection Hf2 as <-. lia. }
    destruct (IH dst1 h0 h1) as (r & Hrun & Hsep2 & Hkeep2 & Hsnap2); [exact Hsep1 | lia | |  |].
    + intros f' l' Hin. destruct (Hsrc f' l') as (Hlt & Hno & Heq); [by right |].
      split; [exact Hlt |]. split; [by apply Hfresh |].
      rewrite <- Heq. apply Hkeep; [lia | exact Hno].
    + intros f' l' Hin Hnone. apply (Hord f' l'); [by right |].
      destruct (Hkeys f') as [Heq | [_ Heq]]; by rewrite Heq in Hnone.
    + exists r. split; [exact Hrun |]. split; [exact Hsep2 |]. split.
      * intros l' Hlt Hno. rewrite Hkeep2 by auto. apply Hkeep; [lia | exact Hno].
      * by rewrite Hsnap2, Hsnap, Hsame.
Qed.

(** A label that only the source has and that the destination inherits
    makes the merge throw. *)
Lemma mergeFlairGroups_throws (src : list (string * nat)) : ∀ (dst : Obj) (h : Heap) f l,
  NoDup src.*1 → (f, l) ∈ src → dst !! f = None → inherited f = true →
  ∃ s, mergeFlairGroups dst src h = PushThrew s.
Proof.
  unfold mergeFlairGroups.
  induction src as [| [f0 l0] src IH]; intros dst h f l Hnd Hin Hfree Hname;
    cbn [mergeEntries].
  - by apply elem_of_nil in Hin.
  - rewrite fmap_cons in Hnd. apply NoDup_cons in Hnd as [Hnew Hnd]. cbn [fst] in Hnew.
    destruct (mergeGroup (dst, h) (f0, l0)) as [[dst1 h1] |] eqn:Hstep; [| by eexists].
    apply elem_of_cons in Hin as [[= -> ->] | Hin].
    { rewrite mergeGroup_run, Hfree, Hname in Hstep. done. }
    assert (Hne : f0 ≠ f).
    { intros ->. apply Hnew. apply list_elem_of_fmap. by exists (f, l). }
    apply (IH dst1 h1 f l Hnd Hin); [| exact Hname].
    rewrite mergeGroup_run in Hstep.
    destruct (dst !! f0); [by injection Hstep as <- _ |].
    destruct (inherited f0); [done |]. injection Hstep as <- _.
    by rewrite lookup_insert_ne.
Qed.

Lemma merge_fold_lookup (h : Heap) (src : list (string * nat)) : ∀ (g : Groups) f,
  NoDup src.*1 →
  fold_left (λ g entry,
               <[entry.1 := default [] (g !! entry.1) ++ default [] (h !! entry.2)]> g)
    src g !! f
  = match (list_to_map src : Obj) !! f with
    | Some l => Some (default [] (g !! f) ++ default [] (h !! l))
    | None => g !! f
    end.
Proof.
  induction src as [| [f1 l1] src IH]; intros g f Hnd; cbn [fold_left fst snd].
  - unfold list_to_map. cbn [foldr]. by rewrite lookup_empty.
  - rewrite fmap_cons in Hnd. apply NoDup_cons in Hnd as [Hnew Hnd]. cbn [fst] in Hnew.
    rewrite IH by done.
    change (list_to_map ((f1, l1) :: src) : Obj) with (<[f1 := l1]> (list_to_map src : Obj)).
    destruct (decide (f1 = f)) as [<- | Hne].
    + rewrite (lookup_insert_eq (list_to_map src)).
      rewrite (not_elem_of_list_to_map_1 (M := gmap string) src f1 Hnew).
      by rewrite lookup_insert_eq.
    + rewrite (lookup_insert_ne (list_to_map src)) by done.
      by rewrite lookup_insert_ne by done.
Qed.

Lemma not_ordinary (dst : Obj) (src : list (string * nat)) :
  ¬ ordinary dst src →
  ∃ f l, (f, l) ∈ src ∧ dst !! f = None ∧ inherited f = true.
Proof.
  induction src as [| [f0 l0] src IH]; intros Hnot.
  - destruct Hnot. intros f l Hin. by apply elem_of_nil in Hin.
  - destruct (dst !! f0) as [d |] eqn:Hf0; [| destruct (inherited f0) eqn:Hname].
    + destruct IH as (f & l & Hin & Hfree & Hinh).
      * intros Hord. apply Hnot. intros f l Hin Hfree.
        apply elem_of_cons in Hin as [[= -> ->] | Hin]; [congruence | eauto].
      * exists f, l. split; [by right | done].
    + exists f0, l0. split; [by left | done].
    + destruct IH as (f & l & Hin & Hfree & Hinh).
      * intros Hord. apply Hnot. intros f l Hin Hfree.
        apply elem_of_cons in Hin as [[= -> ->] | Hin]; [done | eauto].
      * exists f, l. split; [by right | done].
Qed.

(** X24. mergeFlairGroups, with the labels of the source distinct.  On a
    destination whose labels own their arrays and a source none of whose
    arrays is one of the destination's, and when no label that only the
    source has is a name objects inherit from Object.prototype, the merge
    runs to its end: each group of the destination ends as what it held
    followed by what the source holds for that label, a label only the
    source has gets an array of its own with the source's identifiers,
    the labels still own their arrays, and the arrays of the source are
    as they were.  When a label that only the source has is such a name,
    the merge throws. *)
Theorem X24_merge_appends_the_source (dst : Obj) (src : list (string * nat)) (h : Heap) :
  NoDup src.*1 →
  (separate h dst → apart h dst src → ordinary dst src →
   ∃ r, mergeFlairGroups dst src h = Merged r ∧
     separate r.2 r.1 ∧
     (∀ f, groupOf r.2 src f = groupOf h src f) ∧
     ∀ f, snapshot r.2 r.1 !! f
          = match snapshot h dst !! f, groupOf h src f with
            | None, None => None
            | old, more => Some (default [] old ++ default [] more)
            end) ∧
  (¬ ordinary dst src → ∃ s, mergeFlairGroups dst src h = PushThrew s).
Proof.
  intros Hnd. split.
  - intros Hsep Hapart Hord.
    destruct (mergeFlairGroups_value src dst h h Hsep (le_n _))
      as (r & Hrun & Hsep1 & Hkeep & Hsnap); [| exact Hord |].
    { intros f l Hin. destruct (Hapart f l Hin) as [Hlt Hno]. done. }
    exists r. split; [exact Hrun |]. split; [exact Hsep1 |]. split.
    + intros f. unfold groupOf.
      destruct ((list_to_map src : Obj) !! f) as [l |] eqn:Hl; cbn; [| done].
      apply (elem_of_list_to_map_2 (M := gmap string)) in Hl.
      destruct (Hapart f l Hl) as [Hlt Hno]. by apply Hkeep.
    + intros f. rewrite Hsnap, merge_fold_lookup by done. unfold groupOf.
      destruct ((list_to_map src : Obj) !! f) as [l |] eqn:Hl; cbn.
      * apply (elem_of_list_to_map_2 (M := gmap string)) in Hl.
        destruct (Hapart f l Hl) as [Hlt _].
        destruct (lookup_lt_is_Some_2 h l Hlt) as [ids ->]. cbn.
        by destruct (snapshot h dst !! f).
      * destruct (snapshot h dst !! f); cbn; by rewrite ?app_nil_r.
  - intros Hnot.
    destruct (not_ordinary dst src Hnot) as (f & l & Hin & Hfree & Hname).
    by apply (mergeFlairGroups_throws src dst h f l).
Qed.

Lemma X24_witness :
  (∃ r, mergeFlairGroups MergeExamples.dst MergeExamples.src MergeExamples.arrays = Merged r ∧
     separate r.2 r.1 ∧
     (∀ f, groupOf r.2 MergeExamples.src f
           = groupOf MergeExamples.arrays MergeExamples.src f) ∧
     ∀ f, snapshot r.2 r.1 !! f
          = match snapshot MergeExamples.arrays MergeExamples.dst !! f,
                  groupOf MergeExamples.arrays MergeExamples.src f with
            | None, None => None
            | old, more => Some (default [] old ++ default [] more)
            end) ∧
  (∃ s, mergeFlairGroups ∅ MergeExamples.inheritedSource MergeExamples.sourceArrays
        = PushThrew s).
Proof.
  split.
  - apply (X24_merge_appends_the_source MergeExamples.dst MergeExamples.src
             MergeExamples.arrays).
    + unfold MergeExamples.src. cbn. apply NoDup_cons. split; [set_solver |].
      apply NoDup_singleton.
    + apply materialise_separate.
    + intros f l Hin.
      destruct (materialise_spec MergeExamples.groups MergeExamples.sourceArrays)
        as (extra & Hheap & Hin' & _).
      fold MergeExamples.arrays in Hheap, Hin'. fold MergeExamples.dst in Hin'.
      assert (Hl : (l < 2)%nat).
      { unfold MergeExamples.src in Hin.
        apply elem_of_cons in Hin as [[= -> ->] | Hin]; [lia |].
        apply list_elem_of_singleton in Hin as [= -> ->]. lia. }
      split.
      * rewrite Hheap, length_app. cbn. lia.
      * intros f' Hf'. apply Hin' in Hf'. cbn in Hf'. lia.
    + intros f l Hin _. unfold MergeExamples.src in Hin.
      apply elem_of_cons in Hin as [[= -> ->] | Hin]; [reflexivity |].
      apply list_elem_of_singleton in Hin as [= -> ->]. reflexivity.
  - apply (X24_merge_appends_the_source ∅ MergeExamples.inheritedSource
             MergeExamples.sourceArrays).
    + unfold MergeExamples.inheritedSource. cbn. apply NoDup_singleton.
    + intros Hord.
      assert (Hname : inherited "constructor" = false).
      { apply (Hord "constructor" 1%nat); [apply list_elem_of_here | apply lookup_empty]. }
      vm_compute in Hname. discriminate.
Defined.

(** Merging entries of the destination itself. *)
Lemma mergeFlairGroups_own (dst : Obj) (src : list (string * nat)) : ∀ (h : Heap),
  separate h dst → (∀ f l, (f, l) ∈ src → dst !! f = Some l) →
  ∃ h', mergeFlairGroups dst src h = Merged (dst, h') ∧ separate h' dst ∧
    snapshot h' dst
      = fold_left (λ g entry,
                     <[entry.1 := default [] (g !! entry.1) ++ default [] (g !! entry.1)]> g)
          src (snapshot h dst).
Proof.
  unfold mergeFlairGroups.
  induction src as [| [f l] src IH]; intros h Hsep Hown; cbn [mergeEntries fold_left fst snd].
  - by exists h.
  - assert (Hf : dst !! f = Some l) by (apply Hown; left).
    assert (Hl : (l < List.length h)%nat) by (by apply (proj1 Hsep f)).
    assert (Hstep : mergeGroup (dst, h) (f, l)
                    = Some (dst, alter (λ ids, ids ++ default [] (h !! l)) l h))
      by (by rewrite mergeGroup_run, Hf).
    destruct (mergeGroup_value dst h f l _ Hsep Hl Hstep) as (Hsep1 & _ & _ & _ & Hsnap).
    rewrite Hstep. cbn [fst snd] in Hsep1, Hsnap.
    destruct (IH (alter (λ ids, ids ++ default [] (h !! l)) l h)) as (h' & Hrun & Hsep2 & Hsnap2).
    + exact Hsep1.
    + intros f' l' Hin. apply Hown. by right.
    + exists h'. split; [exact Hrun |]. split; [exact Hsep2 |].
      rewrite Hsnap2, Hsnap. rewrite (snapshot_lookup h dst f), Hf. done.
Qed.

Lemma own_fold_lookup (src : list (string * nat)) : ∀ (g : Groups) f,
  NoDup src.*1 →
  fold_left (λ g entry,
               <[entry.1 := default [] (g !! entry.1) ++ default [] (g !! entry.1)]> g)
    src g !! f
  = if bool_decide (f ∈ src.*1)
    then Some (default [] (g !! f) ++ default [] (g !! f))
    else g !! f.
Proof.
  induction src as [| [f1 l1] src IH]; intros g f Hnd; cbn [fold_left fst snd].
  - rewrite bool_decide_eq_false_2; [done | set_solver].
  - rewrite fmap_cons in Hnd. apply NoDup_cons in Hnd as [Hnew Hnd]. cbn [fst] in Hnew.
    rewrite IH by done. rewrite fmap_cons. cbn [fst].
    destruct (decide (f1 = f)) as [<- | Hne].
    + rewrite (bool_decide_eq_false_2 (f1 ∈ src.*1)) by done.
      rewrite (bool_decide_eq_true_2 (f1 ∈ f1 :: src.*1)) by set_solver.
      by rewrite lookup_insert_eq.
    + rewrite lookup_insert_ne by done.
      destruct (decide (f ∈ src.*1)) as [Hin | Hout].
      * rewrite !bool_decide_eq_true_2 by set_solver. done.
      * rewrite !bool_decide_eq_false_2 by set_solver. done.
Qed.

(** X25. mergeFlairGroups with a source that shares the destination's
    arrays (the object merged into itself, or a shallow copy of it): the
    merge runs to its end, each group the source lists is doubled, in
    place; the other groups and the labels are as they were. *)
Theorem X25_merge_into_itself (dst : Obj) (src : list (string * nat)) (h : Heap) :
  separate h dst → NoDup src.*1 → (∀ f l, (f, l) ∈ src → dst !! f = Some l) →
  ∃ r, mergeFlairGroups dst src h = Merged r ∧
    r.1 = dst ∧
    ∀ f, snapshot r.2 r.1 !! f
         = if bool_decide (f ∈ src.*1)
           then (λ ids, ids ++ ids) <$> snapshot h dst !! f
           else snapshot h dst !! f.
Proof.
  intros Hsep Hnd Hown.
  destruct (mergeFlairGroups_own dst src h Hsep Hown) as (h' & Hrun & _ & Hsnap).
  exists (dst, h'). split; [exact Hrun |]. split; [done |]. intros f. cbn [fst snd].
  rewrite Hsnap, own_fold_lookup by done.
  case_bool_decide as Hin; [| done].
  apply list_elem_of_fmap in Hin as ([f' l] & -> & Hin). cbn [fst].
  pose proof (Hown f' l Hin) as Hf.
  rewrite snapshot_lookup, Hf. cbn.
  destruct (lookup_lt_is_Some_2 h l (proj1 Hsep f' l Hf)) as [ids ->]. done.
Qed.

Lemma X25_witness :
  ∃ r, mergeFlairGroups MergeExamples.dst MergeExamples.own MergeExamples.arrays = Merged r ∧
    r.1 = MergeExamples.dst ∧
    ∀ f, snapshot r.2 r.1 !! f
         = if bool_decide (f ∈ MergeExamples.own.*1)
           then (λ ids, ids ++ ids) <$> snapshot MergeExamples.arrays MergeExamples.dst !! f
           else snapshot MergeExamples.arrays MergeExamples.dst !! f.
Proof.
  apply X25_merge_into_itself.
  - apply materialise_separate.
  - apply NoDup_fst_map_to_list.
  - intros f l Hin. by apply elem_of_map_to_list in Hin.
Defined.
